(** * Video composition engine: canvas sizing, media adaptation, transitions,
    motion effects, subtitles, audio mixing, trimming, task status and
    identifiers, configuration defaults, and the render that ties them
    together.

  Shallow embedding of [backend/app/services/video_service.py].

  Conventions of the embedding:
  - Python [int] is [Z]; Python [float] is idealised as an exact rational
    [Q] (no rounding error, no NaN, no infinity);
  - a Python [dict] with string keys is a [gmap string _];
  - a function that can raise returns a [result]: [Ok v] or [Raise e];
  - MoviePy clips are represented by the attributes the properties below
    speak about (pixel size, start, duration); the MoviePy operations are
    given by their effect on these attributes. *)

From Stdlib Require Import ZArith QArith Qround Qabs Qminmax Lia Lqa.
From Stdlib Require Import Ascii String.
From stdpp Require Import gmap strings list fin_maps.

Open Scope Z_scope.

(** ** Python runtime model *)

Module Py.

(** Exception classes that the modelled code can raise. [ResizeError] is
    the error of the image library under MoviePy's [resize] on a frame
    size without pixels ([cv2.error] with OpenCV, an exception of Pillow
    otherwise); the code under study never catches it by class. *)
Inductive exn : Type :=
| ValueError
| TypeError
| ZeroDivisionError
| RuntimeError
| ResizeError.

Inductive result (A : Type) : Type :=
| Ok (a : A)
| Raise (e : exn).
Arguments Ok {A} a.
Arguments Raise {A} e.

(** Sequencing: an exception raised by the first computation propagates. *)
#[export] Instance result_ret : MRet result := λ A a, Ok a.
#[export] Instance result_bind : MBind result := λ A B k r,
  match r with
  | Ok a => k a
  | Raise e => Raise e
  end.

(** [try: body except Exception: handler]. *)
Definition try_except {A : Type} (body : result A) (handler : A) : A :=
  match body with
  | Ok a => a
  | Raise _ => handler
  end.

(** [int(x)] on a float: truncation toward zero. *)
Definition py_int (x : Q) : Z :=
  if Qle_bool 0 x then Qfloor x else Qceiling x.

(** [a / b] on numbers: true division, [ZeroDivisionError] on a zero
    divisor. *)
Definition truediv (a b : Q) : result Q :=
  if Qeq_bool b 0 then Raise ZeroDivisionError else Ok (a / b)%Q.

(** [key in d] for a dict (or list) with string keys. *)
Definition str_in (key : string) (keys : list string) : bool :=
  bool_decide (key ∈ keys).

(** Python values held by configuration and response dictionaries. *)
#[local] Unset Elimination Schemes.
Inductive pyval : Type :=
| VNone
| VBool (b : bool)
| VInt (z : Z)
| VFloat (q : Q)
| VStr (s : string)
| VList (l : list pyval)
| VDict (d : list (string * pyval)).
#[local] Set Elimination Schemes.

(** Truth value of an object, as tested by [if x:] and [x and ...]. *)
Definition py_truthy (v : pyval) : bool :=
  match v with
  | VNone => false
  | VBool b => b
  | VInt z => negb (z =? 0)
  | VFloat q => negb (Qeq_bool q 0)
  | VStr s => negb (String.eqb s EmptyString)
  | VList l => match l with [] => false | _ => true end
  | VDict d => match d with [] => false | _ => true end
  end.

(** The number held by an object that supports [<] against a float;
    any other object makes the comparison raise [TypeError]. *)
Definition py_num (v : pyval) : result Q :=
  match v with
  | VBool b => Ok (if b then 1 else 0)%Q
  | VInt z => Ok (inject_Z z)
  | VFloat q => Ok q
  | _ => Raise TypeError
  end.

(** [v in d] for a dict [d] with string keys: lists and dicts are not
    hashable. *)
Definition py_in (v : pyval) (keys : list string) : result bool :=
  match v with
  | VStr s => Ok (str_in s keys)
  | VList _ | VDict _ => Raise TypeError
  | _ => Ok false
  end.

(** [config.get(key, dflt)]. *)
Definition dict_get (config : gmap string pyval) (key : string)
    (dflt : pyval) : pyval :=
  default dflt (config !! key).

(** The key of [keys] that [v] is equal to, if any: [v in d] followed by
    a use of [v] as that key. Lists and dicts are not hashable. *)
Definition py_member (v : pyval) (keys : list string)
  : result (option string) :=
  py_in v keys ≫= λ b : bool,
  Ok (match v with
      | VStr s => if b then Some s else None
      | _ => None
      end).

(** Two-argument [min(a, b)] and [max(a, b)]: the first argument is kept
    unless the second is strictly smaller (larger). *)
Definition py_min (a b : Q) : Q := if negb (Qle_bool a b) then b else a.
Definition py_max (a b : Q) : Q := if negb (Qle_bool b a) then b else a.

(** [v != s] for a string literal [s]. *)
Definition py_ne_str (v : pyval) (s : string) : bool :=
  match v with
  | VStr s' => negb (String.eqb s' s)
  | _ => true
  end.

(** [a < b] on floats. *)
Definition flt (a b : Q) : bool := negb (Qle_bool b a).

(** [s.split(sep)] for a one-character separator. *)
Fixpoint split_on (sep : ascii) (s : string) : list string :=
  match s with
  | EmptyString => [EmptyString]
  | String c rest =>
    if Ascii.eqb c sep then EmptyString :: split_on sep rest
    else
      match split_on sep rest with
      | [] => [String c EmptyString]
      | w :: ws => String c w :: ws
      end
  end.

End Py.
Export Py.

(** ** Configuration tables *)

Module Tables.

Record resolution_entry : Type :=
  { res_width : Z; res_height : Z }.

Definition VIDEO_RESOLUTIONS : gmap string resolution_entry :=
  list_to_map
    [ ("480p",  {| res_width := 854;  res_height := 480 |});
      ("720p",  {| res_width := 1280; res_height := 720 |});
      ("1080p", {| res_width := 1920; res_height := 1080 |});
      ("2k",    {| res_width := 2560; res_height := 1440 |});
      ("4k",    {| res_width := 3840; res_height := 2160 |}) ].

Record layout_entry : Type :=
  { layout_name : string; layout_ratio : Z * Z }.

Definition VIDEO_LAYOUTS : gmap string layout_entry :=
  list_to_map
    [ ("9:16", {| layout_name := "竖屏短视频"; layout_ratio := (9, 16) |});
      ("3:4",  {| layout_name := "小红书";     layout_ratio := (3, 4) |});
      ("1:1",  {| layout_name := "方形";       layout_ratio := (1, 1) |});
      ("4:3",  {| layout_name := "传统";       layout_ratio := (4, 3) |});
      ("16:9", {| layout_name := "横屏标准";   layout_ratio := (16, 9) |});
      ("21:9", {| layout_name := "宽银幕";     layout_ratio := (21, 9) |}) ].

(** Keys of [TRANSITIONS], in the order of the source table. *)
Definition TRANSITIONS : list string :=
  [ "none"; "fade"; "slide_left"; "slide_right"; "slide_up"; "slide_down";
    "zoom_in"; "zoom_out"; "dissolve"; "wipe_left"; "wipe_right" ].

Definition TRANSITION_DURATION_MIN : Q := 3 # 10.
Definition TRANSITION_DURATION_MAX : Q := 2.
Definition TRANSITION_DURATION_DEFAULT : Q := 1 # 2.

(** Keys of [FIT_MODES], [COLOR_FILTERS] and [EFFECT_TYPES]. *)
Definition FIT_MODES : list string := [ "crop"; "fit"; "stretch" ].

Definition COLOR_FILTERS : list string :=
  [ "none"; "grayscale"; "vintage"; "warm"; "cool"; "high_contrast"; "soft" ].

Definition EFFECT_TYPES : list string :=
  [ "none"; "ken_burns_in"; "ken_burns_out"; "shake"; "zoom_in"; "zoom_out";
    "pan_left"; "pan_right"; "pan_up"; "pan_down" ].

Definition BRIGHTNESS_MIN : Q := 1 # 2.
Definition BRIGHTNESS_MAX : Q := 2.
Definition BRIGHTNESS_DEFAULT : Q := 1.
Definition CONTRAST_MIN : Q := 1 # 2.
Definition CONTRAST_MAX : Q := 2.
Definition CONTRAST_DEFAULT : Q := 1.
Definition SATURATION_MIN : Q := 0.
Definition SATURATION_MAX : Q := 2.
Definition SATURATION_DEFAULT : Q := 1.

Definition BGM_FADE_IN_MIN : Q := 0.
Definition BGM_FADE_IN_MAX : Q := 5.
Definition BGM_FADE_IN_DEFAULT : Q := 0.
Definition BGM_FADE_OUT_MIN : Q := 0.
Definition BGM_FADE_OUT_MAX : Q := 5.
Definition BGM_FADE_OUT_DEFAULT : Q := 0.
Definition BGM_VOLUME_MIN : Q := 0.
Definition BGM_VOLUME_MAX : Q := 1.
Definition BGM_VOLUME_DEFAULT : Q := 3 # 10.

(** [lo <= x <= hi]. *)
Definition in_range (lo hi x : Q) : Prop := (lo <= x)%Q ∧ (x <= hi)%Q.

End Tables.
Export Tables.

(** ** Canvas sizer *)

Module CanvasSizer.

(** [n if n % 2 == 0 else n + 1]. *)
Definition round_up_even (n : Z) : Z :=
  if n mod 2 =? 0 then n else n + 1.

Definition calculate_video_size (resolution layout : string)
  : result (Z * Z) :=
  match VIDEO_RESOLUTIONS !! resolution with
  | None => Raise ValueError
  | Some base =>
    match VIDEO_LAYOUTS !! layout with
    | None => Raise ValueError
    | Some lay =>
      let '(ratio_w, ratio_h) := layout_ratio lay in
      size ←
        (if ratio_h <=? ratio_w then
           let height := res_height base in
           width ← truediv (inject_Z (height * ratio_w)) (inject_Z ratio_h);
           Ok (py_int width, height)
         else
           let width := res_height base in
           height ← truediv (inject_Z (width * ratio_h)) (inject_Z ratio_w);
           Ok (width, py_int height));
      Ok (round_up_even (fst size), round_up_even (snd size))
    end
  end.

(** Relative error of [width / height] against [ratio_w / ratio_h]. *)
Definition ratio_error (size ratio : Z * Z) : Q :=
  let expected := (inject_Z (fst ratio) / inject_Z (snd ratio))%Q in
  let actual := (inject_Z (fst size) / inject_Z (snd size))%Q in
  (Qabs (actual - expected) / expected)%Q.

Definition positive_even (n : Z) : Prop := 0 < n ∧ n mod 2 = 0.

End CanvasSizer.

(** ** MoviePy clips, by their attributes *)

Module MoviePy.

(** A video clip: pixel size [(w, h)], start on the timeline of the clip
    that contains it (0 for a fresh clip), and duration in seconds. *)
Record clip : Type :=
  { clip_size : Z * Z; clip_start : Q; clip_duration : Q }.

(** [clip.end]. *)
Definition clip_end (c : clip) : Q := (clip_start c + clip_duration c)%Q.

Definition with_size (c : clip) (size : Z * Z) : clip :=
  {| clip_size := size; clip_start := clip_start c;
     clip_duration := clip_duration c |}.

(** [clip.set_start(t)]. *)
Definition set_start (c : clip) (t : Q) : clip :=
  {| clip_size := clip_size c; clip_start := t;
     clip_duration := clip_duration c |}.

(** [clip.set_duration(t)]. *)
Definition set_duration (c : clip) (t : Q) : clip :=
  {| clip_size := clip_size c; clip_start := clip_start c;
     clip_duration := t |}.

(** [ColorClip(size=..., color=..., duration=...)] and
    [ImageClip(path, duration=...)] start at 0. *)
Definition ColorClip (size : Z * Z) (duration : Q) : clip :=
  {| clip_size := size; clip_start := 0; clip_duration := duration |}.

(** The resizer behind [clip.resize]: [resize] builds the new clip with
    [fl_image], which computes the first frame at once to read the new size
    off it, and the image library ([cv2.resize], else Pillow) refuses a
    frame size with an axis of 0 pixels. *)
Definition resizer (c : clip) (newsize : Z * Z) : result clip :=
  if (fst newsize <=? 0) || (snd newsize <=? 0) then Raise ResizeError
  else Ok (with_size c newsize).

(** [clip.resize(newsize=(w, h))]. *)
Definition resize_newsize (c : clip) (newsize : Z * Z) : result clip :=
  resizer c newsize.

(** [clip.resize(height=h)]: the width follows the aspect ratio,
    [int(w * height / h)]. *)
Definition resize_height (c : clip) (height : Z) : result clip :=
  let '(w, h) := clip_size c in
  new_w ← truediv (inject_Z (w * height)) (inject_Z h);
  resizer c (py_int new_w, height).

(** [clip.resize(width=w)]: the height is [int(h * width / w)]. *)
Definition resize_width (c : clip) (width : Z) : result clip :=
  let '(w, h) := clip_size c in
  new_h ← truediv (inject_Z (h * width)) (inject_Z w);
  resizer c (width, py_int new_h).

(** Length of the array slice [a[i:j]] of an axis of length [n]: negative
    indices count from the end, indices are clipped to the axis. *)
Definition slice_index (n i : Z) : Z :=
  if i <? 0 then Z.max 0 (i + n) else Z.min i n.

Definition slice_length (n i j : Z) : Z :=
  Z.max 0 (slice_index n j - slice_index n i).

(** [clip.crop(x1=..., x2=..., y1=..., y2=...)]: every frame is sliced
    [pic[y1:y2, x1:x2]]; a bound equal to 0 means "not given". *)
Definition crop (c : clip) (x1 x2 y1 y2 : Z) : clip :=
  let '(w, h) := clip_size c in
  let x2 := if x2 =? 0 then w else x2 in
  let y2 := if y2 =? 0 then h else y2 in
  with_size c (slice_length w x1 x2, slice_length h y1 y2).

(** [clip.crossfadein(d)], [clip.crossfadeout(d)] and
    [clip.set_position(p)] change the mask or the position of a clip, not
    its size, start or duration. *)
Definition crossfadein (c : clip) (d : Q) : clip := c.
Definition crossfadeout (c : clip) (d : Q) : clip := c.
Definition set_position (c : clip) : clip := c.

(** [max(ends)] over the ends of the layers. *)
Definition max_end (first : clip) (rest : list clip) : Q :=
  foldl (λ m c, Qmax m (clip_end c)) (clip_end first) rest.

(** [CompositeVideoClip([first] + rest, size=size)]: the size is the one
    given, else the size of the first layer; the duration is the largest
    end of a layer. *)
Definition CompositeVideoClip (first : clip) (rest : list clip)
    (size : option (Z * Z)) : clip :=
  {| clip_size := default (clip_size first) size;
     clip_start := 0;
     clip_duration := max_end first rest |}.

(** [concatenate_videoclips([first] + rest)]: the clips play one after the
    other; the size is the size of the first clip. *)
Definition concatenate_videoclips (first : clip) (rest : list clip) : clip :=
  {| clip_size := clip_size first;
     clip_start := 0;
     clip_duration :=
       foldl (λ t c, (t + clip_duration c)%Q) (clip_duration first) rest |}.

(** An audio clip: duration in seconds and linear gain. *)
Record audio_clip : Type :=
  { audio_duration : Q; audio_gain : Q }.

(** [clip.subclip(t_start, t_end)]: negative times count from the end. *)
Definition subclip (a : audio_clip) (t_start t_end : Q) : result audio_clip :=
  let t_start :=
    if flt t_start 0 then (audio_duration a + t_start)%Q else t_start in
  if flt (audio_duration a) t_start then Raise ValueError
  else
    let t_end :=
      if flt t_end 0 then (audio_duration a + t_end)%Q else t_end in
    Ok {| audio_duration := (t_end - t_start)%Q;
          audio_gain := audio_gain a |}.

(** [clip.set_duration(t)] on an audio clip. *)
Definition audio_set_duration (a : audio_clip) (t : Q) : audio_clip :=
  {| audio_duration := t; audio_gain := audio_gain a |}.

(** [afx.audio_loop(clip, duration=d)]: [int(d / clip.duration) + 1]
    copies in a row, with the duration set to [d]. *)
Definition audio_loop (a : audio_clip) (duration : Q) : result audio_clip :=
  q ← truediv duration (audio_duration a);
  let nloops := py_int q + 1 in
  let looped :=
    {| audio_duration := (inject_Z nloops * audio_duration a)%Q;
       audio_gain := audio_gain a |} in
  Ok (audio_set_duration looped duration).

(** [clip.volumex(factor)]. *)
Definition volumex (a : audio_clip) (factor : Q) : audio_clip :=
  {| audio_duration := audio_duration a;
     audio_gain := (audio_gain a * factor)%Q |}.

(** [clip.audio_fadein(d)] and [clip.audio_fadeout(d)] shape the volume
    envelope only. *)
Definition audio_fadein (a : audio_clip) (d : Q) : audio_clip := a.
Definition audio_fadeout (a : audio_clip) (d : Q) : audio_clip := a.

(** [CompositeAudioClip(clips)]: the duration is the largest end. *)
Definition CompositeAudioClip (first : audio_clip) (rest : list audio_clip)
  : audio_clip :=
  {| audio_duration :=
       foldl (λ m c, Qmax m (audio_duration c)) (audio_duration first) rest;
     audio_gain := 1 |}.

End MoviePy.
Export MoviePy.

(** ** Media adapter *)

Module MediaAdapter.

Definition adapt_media_crop (c : clip) (target_size : Z * Z) : result clip :=
  let '(target_w, target_h) := target_size in
  let '(clip_w, clip_h) := clip_size c in
  target_ratio ← truediv (inject_Z target_w) (inject_Z target_h);
  clip_ratio ← truediv (inject_Z clip_w) (inject_Z clip_h);
  if flt (Qabs (clip_ratio - target_ratio)) (1 # 100) then
    resize_newsize c target_size
  else if flt target_ratio clip_ratio then
    let new_h := target_h in
    scale ← truediv (inject_Z target_h) (inject_Z clip_h);
    let new_w := py_int (inject_Z clip_w * scale) in
    c ← resize_height c new_h;
    let x_start := (new_w - target_w) / 2 in
    Ok (crop c x_start (x_start + target_w) 0 target_h)
  else
    let new_w := target_w in
    scale ← truediv (inject_Z target_w) (inject_Z clip_w);
    let new_h := py_int (inject_Z clip_h * scale) in
    c ← resize_width c new_w;
    let y_start := (new_h - target_h) / 2 in
    Ok (crop c 0 target_w y_start (y_start + target_h)).

Definition adapt_media_fit (c : clip) (target_size : Z * Z) : result clip :=
  let '(target_w, target_h) := target_size in
  let '(clip_w, clip_h) := clip_size c in
  target_ratio ← truediv (inject_Z target_w) (inject_Z target_h);
  clip_ratio ← truediv (inject_Z clip_w) (inject_Z clip_h);
  c ← (if flt target_ratio clip_ratio then
         scale ← truediv (inject_Z target_w) (inject_Z clip_w);
         resize_width c target_w
       else
         scale ← truediv (inject_Z target_h) (inject_Z clip_h);
         resize_height c target_h);
  let bg := ColorClip target_size (clip_duration c) in
  let c := set_position c in
  Ok (CompositeVideoClip bg [c] (Some target_size)).

Definition adapt_media_stretch (c : clip) (target_size : Z * Z)
  : result clip :=
  resize_newsize c target_size.

Definition adapt_media_to_size (c : clip) (target_size : Z * Z)
    (fit_mode : string) : result clip :=
  if negb (str_in fit_mode FIT_MODES) then Raise ValueError
  else if String.eqb fit_mode "crop" then adapt_media_crop c target_size
  else if String.eqb fit_mode "fit" then adapt_media_fit c target_size
  else if String.eqb fit_mode "stretch" then
    adapt_media_stretch c target_size
  else Ok c.

(** A source that keeps at least one pixel on each axis when it is scaled
    to fit inside the target: [int(h * target_w / w)] and
    [int(w * target_h / h)] are at least 1. *)
Definition fits_inside (source target : Z * Z) : Prop :=
  fst source <= snd source * fst target
  ∧ snd source <= fst source * snd target.

End MediaAdapter.
Export MediaAdapter.

(** ** Transition compositor *)

Module Transitions.

Definition validate_transition_duration (duration : Q) : result Q :=
  if flt duration TRANSITION_DURATION_MIN
     || flt TRANSITION_DURATION_MAX duration
  then Raise ValueError
  else Ok duration.

Definition validate_transition_type (transition_type : string)
  : result string :=
  if negb (str_in transition_type TRANSITIONS) then Raise ValueError
  else Ok transition_type.

(** The guard that opens each pairwise transition:
    [if clip1.duration <= duration: duration = clip1.duration * 0.5]. *)
Definition overlap_duration (clip1 : clip) (duration : Q) : Q :=
  if Qle_bool (clip_duration clip1) duration
  then (clip_duration clip1 * (1 # 2))%Q
  else duration.

Definition apply_fade_transition (clip1 clip2 : clip) (duration : Q) : clip :=
  let duration := overlap_duration clip1 duration in
  let clip1_fadeout := crossfadeout clip1 duration in
  let clip2_fadein := crossfadein clip2 duration in
  let clip2_positioned :=
    set_start clip2_fadein (clip_duration clip1 - duration) in
  CompositeVideoClip clip1_fadeout [clip2_positioned] None.

Definition apply_slide_transition (clip1 clip2 : clip) (direction : string)
    (duration : Q) : clip :=
  let size := clip_size clip1 in
  let duration := overlap_duration clip1 duration in
  let clip1_sliding := set_position clip1 in
  let clip2_sliding := set_position (set_start clip2 0) in
  let total_duration :=
    (clip_duration clip1 + clip_duration clip2 - duration)%Q in
  set_duration
    (CompositeVideoClip clip1_sliding [clip2_sliding] (Some size))
    total_duration.

Definition apply_zoom_transition (clip1 clip2 : clip) (direction : string)
    (duration : Q) : clip :=
  let duration := overlap_duration clip1 duration in
  let clip1_fadeout := crossfadeout clip1 duration in
  let clip2_fadein := crossfadein clip2 duration in
  let clip2_positioned :=
    set_start clip2_fadein (clip_duration clip1 - duration) in
  CompositeVideoClip clip1_fadeout [clip2_positioned] None.

Definition apply_dissolve_transition (clip1 clip2 : clip) (duration : Q)
  : clip :=
  apply_fade_transition clip1 clip2 duration.

Definition apply_wipe_transition (clip1 clip2 : clip) (direction : string)
    (duration : Q) : clip :=
  let duration := overlap_duration clip1 duration in
  apply_fade_transition clip1 clip2 duration.

(** [transition_type.split("_")[1]]. *)
Definition direction_of (transition_type : string) : string :=
  nth 1 (split_on "_" transition_type) EmptyString.

Definition apply_transition (clip1 clip2 : clip) (transition_type : string)
    (duration : Q) : result clip :=
  _ ← validate_transition_type transition_type;
  _ ← (if negb (String.eqb transition_type "none")
       then validate_transition_duration duration
       else Ok duration);
  if String.eqb transition_type "none" then
    Ok (concatenate_videoclips clip1 [clip2])
  else if String.eqb transition_type "fade" then
    Ok (apply_fade_transition clip1 clip2 duration)
  else if String.prefix "slide_" transition_type then
    Ok (apply_slide_transition clip1 clip2
          (direction_of transition_type) duration)
  else if String.prefix "zoom_" transition_type then
    Ok (apply_zoom_transition clip1 clip2
          (direction_of transition_type) duration)
  else if String.eqb transition_type "dissolve" then
    Ok (apply_dissolve_transition clip1 clip2 duration)
  else if String.prefix "wipe_" transition_type then
    Ok (apply_wipe_transition clip1 clip2
          (direction_of transition_type) duration)
  else Ok (concatenate_videoclips clip1 [clip2]).

(** The loop [for i in range(1, len(clips)): result = apply_transition(...)]. *)
Fixpoint fold_transitions (acc : clip) (rest : list clip)
    (transition_type : string) (duration : Q) : result clip :=
  match rest with
  | [] => Ok acc
  | c :: rest' =>
    acc' ← apply_transition acc c transition_type duration;
    fold_transitions acc' rest' transition_type duration
  end.

Definition apply_transitions_to_clips (clips : list clip)
    (transition_type : string) (duration : Q) : result clip :=
  match clips with
  | [] => Raise ValueError
  | [c] => Ok c
  | first :: rest =>
    _ ← validate_transition_type transition_type;
    _ ← (if negb (String.eqb transition_type "none")
         then validate_transition_duration duration
         else Ok duration);
    fold_transitions first rest transition_type duration
  end.

(** Sum of the durations of a list of segments. *)
Definition total_duration (clips : list clip) : Q :=
  foldr (λ c t, (clip_duration c + t)%Q) 0%Q clips.

(** A segment as the render builds it: never moved on the timeline. *)
Definition fresh (c : clip) : Prop := (clip_start c == 0)%Q.

(** The range that [validate_transition_duration] accepts. *)
Definition valid_transition_duration (d : Q) : Prop :=
  (TRANSITION_DURATION_MIN <= d)%Q ∧ (d <= TRANSITION_DURATION_MAX)%Q.

(** The four kinds of pairwise step that a transition other than
    ["none"] can take. *)
Inductive pairwise_step (A B : clip) (d : Q) : clip → Prop :=
| step_fade : pairwise_step A B d (apply_fade_transition A B d)
| step_slide dir : pairwise_step A B d (apply_slide_transition A B dir d)
| step_zoom dir : pairwise_step A B d (apply_zoom_transition A B dir d)
| step_wipe dir : pairwise_step A B d (apply_wipe_transition A B dir d).

End Transitions.
Export Transitions.

(** ** Subtitle renderer: precise cues *)

Module Subtitles.

(** One entry of [sentence_subtitles]: a dict whose keys ["text"],
    ["start"] and ["end"] may be missing. *)
Record subtitle_cue : Type :=
  { sub_text : option string; sub_start : option Q; sub_end : option Q }.

(** The text clip of a caption: its text, and its start and duration on
    the output timeline. *)
Record caption : Type :=
  { caption_text : string; caption_start : Q; caption_duration : Q }.

Definition caption_end (c : caption) : Q :=
  (caption_start c + caption_duration c)%Q.

(** [create_text_clip(text, duration, ...)]: a text clip of the given
    duration, starting at 0. *)
Definition create_text_clip (text : string) (duration : Q) : caption :=
  {| caption_text := text; caption_start := 0;
     caption_duration := duration |}.

Definition caption_set_start (c : caption) (t : Q) : caption :=
  {| caption_text := caption_text c; caption_start := t;
     caption_duration := caption_duration c |}.

(** Body of the loop over [sentence_subtitles]; [None] stands for
    [continue]. *)
Definition precise_caption (actual_duration : Q) (sub : subtitle_cue)
  : option caption :=
  match sub_text sub with
  | None => None
  | Some text =>
    if String.eqb text EmptyString then None
    else
      let sub_start := default 0%Q (Subtitles.sub_start sub) in
      let sub_end := default (sub_start + 2)%Q (Subtitles.sub_end sub) in
      let sub_duration := (sub_end - sub_start)%Q in
      if Qle_bool sub_duration 0 then None
      else if Qle_bool actual_duration sub_start then None
      else
        let sub_duration :=
          if flt actual_duration sub_end
          then (actual_duration - sub_start)%Q
          else sub_duration in
        Some (caption_set_start (create_text_clip text sub_duration)
                sub_start)
  end.

Definition precise_subtitle_clips (actual_duration : Q)
    (sentence_subtitles : list subtitle_cue) : list caption :=
  omap (precise_caption actual_duration) sentence_subtitles.

(** The cue as the loop reads it: defaults filled in. *)
Definition cue_start (sub : subtitle_cue) : Q :=
  default 0%Q (sub_start sub).
Definition cue_end (sub : subtitle_cue) : Q :=
  default (cue_start sub + 2)%Q (sub_end sub).
Definition cue_has_text (sub : subtitle_cue) : bool :=
  match sub_text sub with
  | Some text => negb (String.eqb text EmptyString)
  | None => false
  end.

(** The cues that get a caption: a non-empty text, a positive length,
    and a start before the end of the video. *)
Definition cue_shown (actual_duration : Q) (sub : subtitle_cue) : bool :=
  cue_has_text sub
  && flt (cue_start sub) (cue_end sub)
  && flt (cue_start sub) actual_duration.

(** What the caption of a cue must be: the text and the start of the cue,
    and an end cut at the end of the video. *)
Definition caption_of_cue (actual_duration : Q) (sub : subtitle_cue)
    (cap : caption) : Prop :=
  sub_text sub = Some (caption_text cap)
  ∧ caption_start cap = cue_start sub
  ∧ ((actual_duration < cue_end sub)%Q →
     (caption_end cap == actual_duration)%Q)
  ∧ ((cue_end sub <= actual_duration)%Q →
     (caption_end cap == cue_end sub)%Q).

End Subtitles.
Export Subtitles.

(** ** Audio mixer *)

Module AudioMixer.

Definition validate_bgm_fade_in (fade_in : Q) : result Q :=
  if flt fade_in BGM_FADE_IN_MIN || flt BGM_FADE_IN_MAX fade_in
  then Raise ValueError else Ok fade_in.

Definition validate_bgm_fade_out (fade_out : Q) : result Q :=
  if flt fade_out BGM_FADE_OUT_MIN || flt BGM_FADE_OUT_MAX fade_out
  then Raise ValueError else Ok fade_out.

Definition validate_bgm_volume (volume : Q) : result Q :=
  if flt volume BGM_VOLUME_MIN || flt BGM_VOLUME_MAX volume
  then Raise ValueError else Ok volume.

Definition apply_bgm_fade_effects (bgm_clip : audio_clip)
    (fade_in fade_out : Q) : result audio_clip :=
  _ ← validate_bgm_fade_in fade_in;
  _ ← validate_bgm_fade_out fade_out;
  let res := bgm_clip in
  let res := if flt 0 fade_in then audio_fadein res fade_in else res in
  let res := if flt 0 fade_out then audio_fadeout res fade_out else res in
  Ok res.

(** [final_duration]: the explicit target, else the narration, else the
    background track; [None] when there is none of them. *)
Definition final_duration_of (voice_audio bgm_audio : option audio_clip)
    (target_duration : option Q) : option Q :=
  match target_duration, voice_audio, bgm_audio with
  | Some t, _, _ => Some t
  | None, Some voice, _ => Some (audio_duration voice)
  | None, None, Some bgm => Some (audio_duration bgm)
  | None, None, None => None
  end.

Definition mix_audio_tracks (voice_audio bgm_audio : option audio_clip)
    (bgm_volume bgm_fade_in bgm_fade_out : Q) (target_duration : option Q)
  : result (option audio_clip) :=
  _ ← validate_bgm_volume bgm_volume;
  _ ← validate_bgm_fade_in bgm_fade_in;
  _ ← validate_bgm_fade_out bgm_fade_out;
  match final_duration_of voice_audio bgm_audio target_duration with
  | None => Ok None
  | Some final_duration =>
    voice_clips ←
      match voice_audio with
      | None => Ok []
      | Some voice =>
        voice ←
          match target_duration with
          | Some target =>
            if negb (Qeq_bool (audio_duration voice) target) then
              if flt (audio_duration voice) target then Ok voice
              else subclip voice 0 target
            else Ok voice
          | None => Ok voice
          end;
        Ok [voice]
      end;
    bgm_clips ←
      match bgm_audio with
      | None => Ok []
      | Some bgm =>
        bgm ←
          (if flt (audio_duration bgm) final_duration then
             audio_loop bgm final_duration
           else if flt final_duration (audio_duration bgm) then
             subclip bgm 0 final_duration
           else Ok bgm);
        let bgm := volumex bgm bgm_volume in
        bgm ← apply_bgm_fade_effects bgm bgm_fade_in bgm_fade_out;
        Ok [bgm]
      end;
    match voice_clips ++ bgm_clips with
    | [] => Ok None
    | [a] => Ok (Some a)
    | a :: rest => Ok (Some (CompositeAudioClip a rest))
    end
  end.

End AudioMixer.
Export AudioMixer.

(** ** Task status response *)

Module TaskStatus.

Definition TASK_STATUS_PENDING : Z := 0.
Definition TASK_STATUS_PROCESSING : Z := 1.
Definition TASK_STATUS_COMPLETED : Z := 2.
Definition TASK_STATUS_FAILED : Z := 3.

Definition TASK_STATUS_NAMES : gmap Z string :=
  list_to_map
    [ (TASK_STATUS_PENDING, "pending");
      (TASK_STATUS_PROCESSING, "processing");
      (TASK_STATUS_COMPLETED, "completed");
      (TASK_STATUS_FAILED, "failed") ].

Definition get_task_status_name (status_code : Z) : string :=
  default "unknown" (TASK_STATUS_NAMES !! status_code).

Record TaskStatusResponse : Type :=
  { status : string;
    progress : Z;
    message : string;
    download_url : option string;
    error_message : option string;
    duration : option Q;
    task_id : option string }.

(** [if s:] for an optional string: neither [None] nor empty. *)
Definition nonempty (s : option string) : option string :=
  match s with
  | Some x => if String.eqb x EmptyString then None else Some x
  | None => None
  end.

(** [d[key] = value] when the optional value is there. *)
Definition set_if_some (key : string) (value : option pyval)
    (d : gmap string pyval) : gmap string pyval :=
  match value with
  | Some v => <[key := v]> d
  | None => d
  end.

Definition to_dict (self : TaskStatusResponse) : gmap string pyval :=
  let res : gmap string pyval :=
    list_to_map [ ("status", VStr (status self));
                  ("progress", VInt (progress self));
                  ("message", VStr (message self)) ] in
  let res := set_if_some "task_id" (VStr <$> nonempty (task_id self)) res in
  let res :=
    if String.eqb (status self) "completed" then
      let res :=
        set_if_some "download_url"
          (VStr <$> nonempty (download_url self)) res in
      set_if_some "duration" (VFloat <$> duration self) res
    else res in
  let res :=
    if String.eqb (status self) "failed" then
      set_if_some "error_message"
        (VStr <$> nonempty (error_message self)) res
    else res in
  res.

Definition default_messages : gmap Z string :=
  list_to_map
    [ (TASK_STATUS_PENDING, "等待处理...");
      (TASK_STATUS_PROCESSING, "正在处理...");
      (TASK_STATUS_COMPLETED, "视频生成完成");
      (TASK_STATUS_FAILED, "视频生成失败") ].

Definition build_task_status_response (status_code progress : Z)
    (progress_message error_message download_url : option string)
    (duration : option Q) (task_id : option string) : TaskStatusResponse :=
  let status_name := get_task_status_name status_code in
  let progress := Z.max 0 (Z.min 100 progress) in
  let progress_message :=
    match nonempty progress_message with
    | Some m => m
    | None => default "未知状态" (default_messages !! status_code)
    end in
  let progress :=
    if status_code =? TASK_STATUS_COMPLETED then 100 else progress in
  let progress :=
    if status_code =? TASK_STATUS_FAILED then 0 else progress in
  {| status := status_name;
     progress := progress;
     message := progress_message;
     download_url :=
       if status_code =? TASK_STATUS_COMPLETED then download_url else None;
     error_message :=
       if status_code =? TASK_STATUS_FAILED then error_message else None;
     duration :=
       if status_code =? TASK_STATUS_COMPLETED then duration else None;
     task_id := task_id |}.

End TaskStatus.

(** ** Configuration defaults *)

Module Config.

(** The keys that [get_config_with_defaults] always fills in, with their
    default values, in the order of the source. *)
Definition CONFIG_DEFAULTS : list (string * pyval) :=
  [ ("video_resolution", VStr "1080p");
    ("video_layout", VStr "9:16");
    ("video_fps", VInt 30);
    ("fit_mode", VStr "crop");
    ("transition_type", VStr "fade");
    ("transition_duration", VFloat TRANSITION_DURATION_DEFAULT);
    ("transition_enabled", VBool true);
    ("brightness", VFloat BRIGHTNESS_DEFAULT);
    ("contrast", VFloat CONTRAST_DEFAULT);
    ("saturation", VFloat SATURATION_DEFAULT);
    ("color_filter", VStr "none");
    ("effect_type", VNone);
    ("bgm_volume", VFloat BGM_VOLUME_DEFAULT);
    ("bgm_fade_in", VFloat BGM_FADE_IN_DEFAULT);
    ("bgm_fade_out", VFloat BGM_FADE_OUT_DEFAULT);
    ("bgm_enabled", VBool false);
    ("clip_min_duration", VFloat 3);
    ("clip_max_duration", VFloat 10);
    ("subtitle_enabled", VBool true);
    ("subtitle_font", VStr "Heiti-SC-Medium");
    ("subtitle_size", VInt 48);
    ("subtitle_color", VStr "#FFFFFF");
    ("subtitle_stroke_color", VStr "#000000");
    ("subtitle_stroke_width", VFloat 2);
    ("subtitle_position", VStr "bottom");
    ("output_quality", VStr "high") ].

(** One round of the loop that keeps the caller's other keys:
    [if key not in result: result[key] = value]. *)
Definition keep_extra (key : string) (value : pyval)
    (result : gmap string pyval) : gmap string pyval :=
  match result !! key with
  | None => <[key := value]> result
  | Some _ => result
  end.

Definition get_config_with_defaults (config : option (gmap string pyval))
  : gmap string pyval :=
  let config := default ∅ config in
  let result : gmap string pyval :=
    list_to_map
      (map (λ entry, (fst entry, dict_get config (fst entry) (snd entry)))
           CONFIG_DEFAULTS) in
  map_fold keep_extra result config.

End Config.

(** ** Orchestrator: styling parameters, segments and composition *)

Module Render.

(** The styling parameters of a render after the checks at the top of
    [create_video_from_config]. *)
Record styling : Type :=
  { st_fit_mode : string;
    st_transition_enabled : pyval;
    st_transition_type : string;
    st_transition_duration : Q;
    st_effect_type : pyval;
    st_color_filter : string;
    st_brightness : Q;
    st_contrast : Q;
    st_saturation : Q }.

(** [max(lo, min(hi, v))]. *)
Definition clamp (lo hi : Q) (v : pyval) : result Q :=
  x ← py_num v;
  Ok (py_max lo (py_min hi x)).

(** Reading and checking the styling parameters. *)
Definition resolve_styling (config : gmap string pyval) : result styling :=
  let fit_mode := dict_get config "fit_mode" (VStr "crop") in
  fit_key ← py_member fit_mode FIT_MODES;
  let fit_mode := default "crop" fit_key in
  let transition_enabled :=
    dict_get config "transition_enabled" (VBool true) in
  let transition_type := dict_get config "transition_type" (VStr "fade") in
  let transition_duration :=
    dict_get config "transition_duration"
      (VFloat TRANSITION_DURATION_DEFAULT) in
  transition_key ← py_member transition_type TRANSITIONS;
  let transition_type := default "fade" transition_key in
  td ← py_num transition_duration;
  let transition_duration :=
    if flt td TRANSITION_DURATION_MIN || flt TRANSITION_DURATION_MAX td
    then TRANSITION_DURATION_DEFAULT
    else td in
  let effect_type := dict_get config "effect_type" (VStr "none") in
  let color_filter := dict_get config "color_filter" (VStr "none") in
  let brightness := dict_get config "brightness" (VFloat BRIGHTNESS_DEFAULT) in
  let contrast := dict_get config "contrast" (VFloat CONTRAST_DEFAULT) in
  let saturation := dict_get config "saturation" (VFloat SATURATION_DEFAULT) in
  effect_type ←
    (if py_truthy effect_type then
       effect_key ← py_member effect_type EFFECT_TYPES;
       Ok (match effect_key with
           | Some _ => effect_type
           | None => VStr "none"
           end)
     else Ok effect_type);
  filter_key ← py_member color_filter COLOR_FILTERS;
  let color_filter := default "none" filter_key in
  brightness ← clamp BRIGHTNESS_MIN BRIGHTNESS_MAX brightness;
  contrast ← clamp CONTRAST_MIN CONTRAST_MAX contrast;
  saturation ← clamp SATURATION_MIN SATURATION_MAX saturation;
  Ok {| st_fit_mode := fit_mode;
        st_transition_enabled := transition_enabled;
        st_transition_type := transition_type;
        st_transition_duration := transition_duration;
        st_effect_type := effect_type;
        st_color_filter := color_filter;
        st_brightness := brightness;
        st_contrast := contrast;
        st_saturation := saturation |}.

(** Whether the render applies a motion effect:
    [effect_type and effect_type != "none"]. *)
Definition effect_requested (effect_type : pyval) : bool :=
  py_truthy effect_type && py_ne_str effect_type "none".

(** Where the clip of a segment comes from: an image or a video of the
    media pool, already loaded and cut to the segment duration, or the
    plain background used when the pool is empty. *)
Inductive segment_source : Type :=
| ImageSource (image : clip)
| VideoSource (video : clip)
| NoMedia.

Section Pipeline.

(** The frame transforms and the transition compositor as the render
    calls them; each may raise. *)
Variable apply_video_effect : clip → pyval → Q → result clip.
Variable apply_color_filter : clip → string → result clip.
Variable apply_video_adjustments : clip → Q → Q → Q → result clip.
Variable apply_transitions : list clip → string → Q → result clip.

Definition effect_stage (c : clip) (effect_type : pyval)
    (seg_duration : Q) : clip :=
  if effect_requested effect_type then
    try_except (apply_video_effect c effect_type seg_duration) c
  else c.

Definition filter_stage (c : clip) (color_filter : string) : clip :=
  if negb (String.eqb color_filter EmptyString)
     && negb (String.eqb color_filter "none") then
    try_except (apply_color_filter c color_filter) c
  else c.

Definition adjust_stage (c : clip) (brightness contrast saturation : Q)
  : clip :=
  if negb (Qeq_bool brightness 1) || negb (Qeq_bool contrast 1)
     || negb (Qeq_bool saturation 1) then
    try_except
      (apply_video_adjustments c brightness contrast saturation) c
  else c.

(** Body of the loop that builds the segments. *)
Definition build_segment (src : segment_source) (size : Z * Z)
    (st : styling) (seg_duration : Q) : result clip :=
  c ← match src with
      | ImageSource image =>
        let c := effect_stage image (st_effect_type st) seg_duration in
        adapt_media_to_size c size (st_fit_mode st)
      | VideoSource video =>
        adapt_media_to_size video size (st_fit_mode st)
      | NoMedia => Ok (ColorClip size seg_duration)
      end;
  let c := filter_stage c (st_color_filter st) in
  let c :=
    adjust_stage c (st_brightness st) (st_contrast st)
      (st_saturation st) in
  Ok c.

(** Joining the segments into the final video. *)
Definition compose_segments (video_clips : list clip) (size : Z * Z)
    (total_duration : Q) (st : styling) : clip :=
  match video_clips with
  | [] => ColorClip size total_duration
  | [c] => c
  | first :: rest =>
    if py_truthy (st_transition_enabled st)
       && negb (String.eqb (st_transition_type st) "none") then
      try_except
        (apply_transitions video_clips (st_transition_type st)
           (st_transition_duration st))
        (concatenate_videoclips first rest)
    else concatenate_videoclips first rest
  end.

(** Segments, then composition. *)
Definition render_timeline (sources : list segment_source)
    (size : Z * Z) (st : styling) (seg_duration total_duration : Q)
  : result clip :=
  video_clips ← mapM (λ src, build_segment src size st seg_duration)
                     sources;
  Ok (compose_segments video_clips size total_duration st).

End Pipeline.

(** Numbers and hashable values: what the checks of [resolve_styling]
    can compare without a [TypeError]. *)
Definition is_number (v : pyval) : Prop :=
  match v with
  | VBool _ | VInt _ | VFloat _ => True
  | _ => False
  end.

Definition hashable (v : pyval) : Prop :=
  match v with
  | VList _ | VDict _ => False
  | _ => True
  end.

Definition NUMERIC_STYLING_KEYS : list string :=
  [ "transition_duration"; "brightness"; "contrast"; "saturation" ].

Definition ENUM_STYLING_KEYS : list string :=
  [ "fit_mode"; "transition_type"; "effect_type"; "color_filter" ].

(** A configuration whose styling parameters have the types of the
    request schema, whatever their values. *)
Definition styling_typed (config : gmap string pyval) : Prop :=
  (∀ key v, key ∈ NUMERIC_STYLING_KEYS →
            config !! key = Some v → is_number v)
  ∧ (∀ key v, key ∈ ENUM_STYLING_KEYS →
              config !! key = Some v → hashable v).

(** [v] is one of the option names [keys]. *)
Definition recognized (keys : list string) (v : pyval) : Prop :=
  ∃ s, v = VStr s ∧ s ∈ keys.

(** An option of a closed set after the check: a recognized value is
    kept, anything else is replaced by the default. *)
Definition enum_resolved (keys : list string) (dflt : string)
    (raw : pyval) (resolved : string) : Prop :=
  resolved ∈ keys
  ∧ (recognized keys raw → raw = VStr resolved)
  ∧ (¬ recognized keys raw → resolved = dflt).

(** A number after clamping into [[lo, hi]]. *)
Definition clamped (lo hi x y : Q) : Prop :=
  in_range lo hi y
  ∧ (in_range lo hi x → (y == x)%Q)
  ∧ ((x < lo)%Q → (y == lo)%Q)
  ∧ ((hi < x)%Q → (y == hi)%Q).

(** The numeric styling parameters as the render reads them. *)
Definition raw_transition_duration (config : gmap string pyval) : pyval :=
  dict_get config "transition_duration" (VFloat TRANSITION_DURATION_DEFAULT).
Definition raw_brightness (config : gmap string pyval) : pyval :=
  dict_get config "brightness" (VFloat BRIGHTNESS_DEFAULT).
Definition raw_contrast (config : gmap string pyval) : pyval :=
  dict_get config "contrast" (VFloat CONTRAST_DEFAULT).
Definition raw_saturation (config : gmap string pyval) : pyval :=
  dict_get config "saturation" (VFloat SATURATION_DEFAULT).

End Render.

(** ** More of Python's operations *)

Module PyMore.

(** [min(1.0, max(0.0, progress))]. *)
Definition clamp01 (progress : Q) : Q := py_min 1 (py_max 0 progress).

(** The string that a value is when it is looked up in a dict with string
    keys: lists and dicts are not hashable, other values are no key. *)
Definition as_key (v : pyval) : result (option string) :=
  match v with
  | VStr s => Ok (Some s)
  | VList _ | VDict _ => Raise TypeError
  | _ => Ok None
  end.

(** [v in l] for a list [l] of strings: comparison by equality. *)
Definition py_in_list (v : pyval) (l : list string) : bool :=
  match v with
  | VStr s => str_in s l
  | _ => false
  end.

(** [v == s] for a string literal [s]. *)
Definition py_eq_str (v : pyval) (s : string) : bool :=
  negb (py_ne_str v s).

(** [a % b] on floats: the remainder has the sign of the divisor. *)
Definition py_mod (a b : Q) : result Q :=
  quotient ← truediv a b;
  Ok (a - b * inject_Z (Qfloor quotient))%Q.

End PyMore.
Export PyMore.

(** ** Transition catalogue and slide motion *)

Module TransitionConfig.

(** [TRANSITIONS] with its values: display name and default duration. *)
Definition TRANSITION_ENTRIES : list (string * (string * Q)) :=
  [ ("none", ("无", 0%Q));
    ("fade", ("淡入淡出", 1 # 2));
    ("slide_left", ("左滑", 1 # 2));
    ("slide_right", ("右滑", 1 # 2));
    ("slide_up", ("上滑", 1 # 2));
    ("slide_down", ("下滑", 1 # 2));
    ("zoom_in", ("放大", 1 # 2));
    ("zoom_out", ("缩小", 1 # 2));
    ("dissolve", ("溶解", 1 # 2));
    ("wipe_left", ("左擦除", 1 # 2));
    ("wipe_right", ("右擦除", 1 # 2)) ].

Definition TRANSITION_TABLE : gmap string (string * Q) :=
  list_to_map TRANSITION_ENTRIES.

(** The dict returned by [get_transition_config]. *)
Record transition_config : Type :=
  { tc_name : string; tc_duration : Q; tc_type : string }.

Definition get_transition_config (transition_type : string)
    (duration : option Q) : result transition_config :=
  _ ← validate_transition_type transition_type;
  match TRANSITION_TABLE !! transition_type with
  | None => Raise RuntimeError (* a KeyError; the check above excludes it *)
  | Some (name, default_duration) =>
    config_duration ←
      match duration with
      | Some d =>
        if negb (String.eqb transition_type "none") then
          _ ← validate_transition_duration d; Ok d
        else Ok default_duration
      | None => Ok default_duration
      end;
    Ok {| tc_name := name; tc_duration := config_duration;
          tc_type := transition_type |}
  end.

(** [slide_position(t)] of [apply_slide_transition]: where the outgoing
    clip is drawn at time [t]. *)
Definition slide_position (width height : Z) (direction : string)
    (transition_start duration t : Q) : result (Q * Q) :=
  if flt t transition_start then Ok (0%Q, 0%Q)
  else
    progress ← truediv (t - transition_start) duration;
    let progress := clamp01 progress in
    if String.eqb direction "left" then
      Ok ((- inject_Z width * progress)%Q, 0%Q)
    else if String.eqb direction "right" then
      Ok ((inject_Z width * progress)%Q, 0%Q)
    else if String.eqb direction "up" then
      Ok (0%Q, (- inject_Z height * progress)%Q)
    else if String.eqb direction "down" then
      Ok (0%Q, (inject_Z height * progress)%Q)
    else Ok (0%Q, 0%Q).

(** [slide_in_position(t)]: where the incoming clip is drawn. *)
Definition slide_in_position (width height : Z) (direction : string)
    (transition_start duration t : Q) : result (Q * Q) :=
  if flt t transition_start then
    if String.eqb direction "left" then Ok (inject_Z width, 0%Q)
    else if String.eqb direction "right" then Ok ((- inject_Z width)%Q, 0%Q)
    else if String.eqb direction "up" then Ok (0%Q, inject_Z height)
    else if String.eqb direction "down" then Ok (0%Q, (- inject_Z height)%Q)
    else Ok (inject_Z width, 0%Q)
  else
    progress ← truediv (t - transition_start) duration;
    let progress := clamp01 progress in
    if String.eqb direction "left" then
      Ok ((inject_Z width * (1 - progress))%Q, 0%Q)
    else if String.eqb direction "right" then
      Ok ((- inject_Z width * (1 - progress))%Q, 0%Q)
    else if String.eqb direction "up" then
      Ok (0%Q, (inject_Z height * (1 - progress))%Q)
    else if String.eqb direction "down" then
      Ok (0%Q, (- inject_Z height * (1 - progress))%Q)
    else Ok (0%Q, 0%Q).

(** The two position functions as [apply_slide_transition] instantiates
    them for a first clip and a requested duration. *)
Definition slide_out_of (clip1 : clip) (direction : string) (duration t : Q)
  : result (Q * Q) :=
  let duration := overlap_duration clip1 duration in
  slide_position (fst (clip_size clip1)) (snd (clip_size clip1)) direction
    (clip_duration clip1 - duration) duration t.

Definition slide_in_of (clip1 : clip) (direction : string) (duration t : Q)
  : result (Q * Q) :=
  let duration := overlap_duration clip1 duration in
  slide_in_position (fst (clip_size clip1)) (snd (clip_size clip1)) direction
    (clip_duration clip1 - duration) duration t.

(** The offset from the outgoing to the incoming clip for a direction:
    one canvas width or height away. *)
Definition slide_gap (size : Z * Z) (direction : string) : Q * Q :=
  if String.eqb direction "left" then (inject_Z (fst size), 0%Q)
  else if String.eqb direction "right" then ((- inject_Z (fst size))%Q, 0%Q)
  else if String.eqb direction "up" then (0%Q, inject_Z (snd size))
  else (0%Q, (- inject_Z (snd size))%Q).

Definition SLIDE_DIRECTIONS : list string := [ "left"; "right"; "up"; "down" ].

(** Equality of two positions as numbers. *)
Definition pos_eq (p q : Q * Q) : Prop :=
  (fst p == fst q)%Q ∧ (snd p == snd q)%Q.

End TransitionConfig.

(** ** Media adapter: the two steps of fit mode *)

Module MediaAdapterParts.

(** The first half of [adapt_media_fit]: the clip scaled to fit, before it
    is put on the background. *)
Definition fit_scaled (c : clip) (target_size : Z * Z) : result clip :=
  let '(target_w, target_h) := target_size in
  let '(clip_w, clip_h) := clip_size c in
  target_ratio ← truediv (inject_Z target_w) (inject_Z target_h);
  clip_ratio ← truediv (inject_Z clip_w) (inject_Z clip_h);
  if flt target_ratio clip_ratio then
    scale ← truediv (inject_Z target_w) (inject_Z clip_w);
    resize_width c target_w
  else
    scale ← truediv (inject_Z target_h) (inject_Z clip_h);
    resize_height c target_h.

(** The second half: the scaled clip centered on a background of the
    canvas size. *)
Definition fit_on_background (scaled : clip) (target_size : Z * Z) : clip :=
  let bg := ColorClip target_size (clip_duration scaled) in
  CompositeVideoClip bg [set_position scaled] (Some target_size).

End MediaAdapterParts.

(** ** Canvas of a render *)

Module Canvas.

Import CanvasSizer.

Record platform_preset : Type :=
  { preset_resolution : string; preset_layout : string;
    preset_fps : Z; preset_name : string }.

Definition PLATFORM_PRESET_ENTRIES : list (string * platform_preset) :=
  [ ("douyin",
     {| preset_resolution := "1080p"; preset_layout := "9:16";
        preset_fps := 30; preset_name := "抖音/TikTok" |});
    ("kuaishou",
     {| preset_resolution := "1080p"; preset_layout := "9:16";
        preset_fps := 30; preset_name := "快手" |});
    ("xiaohongshu",
     {| preset_resolution := "1080p"; preset_layout := "3:4";
        preset_fps := 30; preset_name := "小红书" |});
    ("bilibili",
     {| preset_resolution := "1080p"; preset_layout := "16:9";
        preset_fps := 30; preset_name := "B站" |});
    ("youtube",
     {| preset_resolution := "1080p"; preset_layout := "16:9";
        preset_fps := 30; preset_name := "YouTube" |});
    ("instagram_reels",
     {| preset_resolution := "1080p"; preset_layout := "9:16";
        preset_fps := 30; preset_name := "Instagram Reels" |});
    ("instagram_feed",
     {| preset_resolution := "1080p"; preset_layout := "1:1";
        preset_fps := 30; preset_name := "Instagram Feed" |});
    ("weixin",
     {| preset_resolution := "1080p"; preset_layout := "9:16";
        preset_fps := 30; preset_name := "微信视频号" |}) ].

Definition PLATFORM_PRESETS : gmap string platform_preset :=
  list_to_map PLATFORM_PRESET_ENTRIES.

(** The legacy size table. *)
Record size_entry : Type :=
  { size_portrait : Z * Z; size_landscape : Z * Z }.

Definition VIDEO_SIZE_ENTRIES : list (string * size_entry) :=
  [ ("720p",  {| size_portrait := (720, 1280);
                 size_landscape := (1280, 720) |});
    ("1080p", {| size_portrait := (1080, 1920);
                 size_landscape := (1920, 1080) |});
    ("4k",    {| size_portrait := (2160, 3840);
                 size_landscape := (3840, 2160) |}) ].

Definition VIDEO_SIZES : gmap string size_entry :=
  list_to_map VIDEO_SIZE_ENTRIES.

Definition get_video_size (size layout : pyval) : result (Z * Z) :=
  size_key ← as_key size;
  let size :=
    match size_key with
    | Some s => if bool_decide (is_Some (VIDEO_SIZES !! s)) then s else "1080p"
    | None => "1080p"
    end in
  let layout :=
    if py_in_list layout ["portrait"; "landscape"] then layout
    else VStr "portrait" in
  match VIDEO_SIZES !! size with
  | None => Raise RuntimeError (* a KeyError; excluded by the lines above *)
  | Some entry =>
    Ok (if py_in_list layout ["portrait"] then size_portrait entry
        else size_landscape entry)
  end.

(** [calculate_video_size] called on values of any type: the first
    membership test that fails raises [ValueError] before the next value
    is looked at. *)
Definition calculate_video_size_of (resolution layout : pyval)
  : result (Z * Z) :=
  resolution_key ← as_key resolution;
  match resolution_key with
  | None => Raise ValueError
  | Some r =>
    if bool_decide (is_Some (VIDEO_RESOLUTIONS !! r)) then
      layout_key ← as_key layout;
      match layout_key with
      | None => Raise ValueError
      | Some l => calculate_video_size r l
      end
    else Raise ValueError
  end.

(** The head of [create_video_from_config]: canvas size and frame rate,
    from the platform preset when there is one, else from the resolution
    and the layout; the legacy table is the fallback of the size. *)
Definition resolve_canvas (config : gmap string pyval)
  : result ((Z * Z) * pyval) :=
  let platform_preset := dict_get config "platform_preset" VNone in
  preset ←
    (if py_truthy platform_preset then
       key ← as_key platform_preset;
       Ok (key ≫= λ s, PLATFORM_PRESETS !! s)
     else Ok None);
  let '(resolution, layout, fps) :=
    match preset with
    | Some p =>
      (VStr (preset_resolution p), VStr (preset_layout p),
       VInt (preset_fps p))
    | None =>
      (dict_get config "video_resolution" (VStr "1080p"),
       dict_get config "video_layout" (VStr "9:16"),
       dict_get config "video_fps" (VInt 30))
    end in
  size ←
    match calculate_video_size_of resolution layout with
    | Raise ValueError =>
      let old_layout :=
        if py_in_list layout ["9:16"; "3:4"] then "portrait"
        else "landscape" in
      get_video_size resolution (VStr old_layout)
    | r => r
    end;
  Ok (size, fps).

Definition CANVAS_KEYS : list string :=
  [ "platform_preset"; "video_resolution"; "video_layout" ].

End Canvas.

(** ** Motion effects *)

Module Effects.

(** [progress = t / effect_duration if effect_duration > 0 else 0],
    clamped to [[0, 1]]. *)
Definition effect_progress (effect_duration t : Q) : result Q :=
  progress ←
    (if flt 0 effect_duration then truediv t effect_duration else Ok 0%Q);
  Ok (clamp01 progress).

(** What [make_frame(t)] of [apply_ken_burns_effect] does to the frame:
    the size it is resized to and the box [(left, top, right, bottom)]
    that is cut out of the resized frame. *)
Record zoom_frame : Type :=
  { zoomed_size : Z * Z; crop_box : Z * Z * Z * Z }.

(** Size of the image that PIL's [crop(box)] returns. *)
Definition box_size (box : Z * Z * Z * Z) : Z * Z :=
  let '(box_left, box_top, box_right, box_bottom) := box in
  (box_right - box_left, box_bottom - box_top).

Definition ken_burns_zoom (zoom_ratio : Q) (direction : string)
    (progress : Q) : Q :=
  if String.eqb direction "in"
  then (1 + (zoom_ratio - 1) * progress)%Q
  else (zoom_ratio - (zoom_ratio - 1) * progress)%Q.

Definition ken_burns_frame (original_size : Z * Z) (zoom_ratio : Q)
    (direction : string) (effect_duration t : Q) : result zoom_frame :=
  progress ← effect_progress effect_duration t;
  let current_zoom := ken_burns_zoom zoom_ratio direction progress in
  let new_width := py_int (inject_Z (fst original_size) * current_zoom) in
  let new_height := py_int (inject_Z (snd original_size) * current_zoom) in
  let box_left := (new_width - fst original_size) / 2 in
  let box_top := (new_height - snd original_size) / 2 in
  let box_right := box_left + fst original_size in
  let box_bottom := box_top + snd original_size in
  Ok {| zoomed_size := (new_width, new_height);
        crop_box := (box_left, box_top, box_right, box_bottom) |}.

(** [VideoClip(make_frame, duration=d)]: the size is the size of the
    frame at time 0. *)
Definition VideoClip (first_frame_size : Z * Z) (duration : Q) : clip :=
  {| clip_size := first_frame_size; clip_start := 0;
     clip_duration := duration |}.

Definition apply_ken_burns_effect (c : clip) (duration : option Q)
    (zoom_ratio : Q) (direction : string) : result clip :=
  if negb (str_in direction ["in"; "out"]) then Raise ValueError
  else if Qle_bool zoom_ratio 1 then Raise ValueError
  else
    let effect_duration := default (clip_duration c) duration in
    let original_size := clip_size c in
    first ← ken_burns_frame original_size zoom_ratio direction
              effect_duration 0;
    Ok (VideoClip (box_size (crop_box first)) effect_duration).

(** [apply_shake_effect]: a moving position, nothing else. *)
Definition apply_shake_effect (c : clip) (duration : option Q) : clip :=
  set_position c.

(** What [make_frame(t)] of [apply_pan_effect] does to the frame: the
    size of the black canvas, where the frame is pasted on it, and the
    box that is cut out. *)
Record pan_frame : Type :=
  { pan_offset : Z * Z; canvas_size : Z * Z; paste_at : Z * Z;
    pan_box : Z * Z * Z * Z }.

Definition pan_frame_at (original_size : Z * Z) (direction : string)
    (effect_duration t : Q) : result pan_frame :=
  let pan_distance := py_int (inject_Z (fst original_size) * (1 # 10)) in
  progress ← effect_progress effect_duration t;
  let '(x_offset, y_offset) :=
    if String.eqb direction "left" then
      (py_int (inject_Z pan_distance * progress), 0)
    else if String.eqb direction "right" then
      (- py_int (inject_Z pan_distance * progress), 0)
    else if String.eqb direction "up" then
      (0, py_int (inject_Z pan_distance * progress))
    else if String.eqb direction "down" then
      (0, - py_int (inject_Z pan_distance * progress))
    else (0, 0) in
  let canvas_size :=
    (fst original_size + Z.abs x_offset * 2,
     snd original_size + Z.abs y_offset * 2) in
  let paste_x := Z.abs x_offset + x_offset in
  let paste_y := Z.abs y_offset + y_offset in
  let crop_x := Z.abs x_offset in
  let crop_y := Z.abs y_offset in
  Ok {| pan_offset := (x_offset, y_offset);
        canvas_size := canvas_size;
        paste_at := (paste_x, paste_y);
        pan_box := (crop_x, crop_y, crop_x + fst original_size,
                    crop_y + snd original_size) |}.

Definition apply_pan_effect (c : clip) (duration : option Q)
    (direction : string) : result clip :=
  let effect_duration := default (clip_duration c) duration in
  let original_size := clip_size c in
  first ← pan_frame_at original_size direction effect_duration 0;
  Ok (VideoClip (box_size (pan_box first)) effect_duration).

(** A clip made by [VideoClip]: its size and duration, starting at 0. *)
Definition has_attributes (c : clip) (size : Z * Z) (duration : Q) : Prop :=
  clip_size c = size ∧ clip_start c = 0%Q ∧ clip_duration c = duration.

Definition validate_effect_type (effect_type : string) : result string :=
  if negb (str_in effect_type EFFECT_TYPES) then Raise ValueError
  else Ok effect_type.

(** [apply_video_effect(clip, effect_type, duration, **kwargs)];
    [zoom_ratio] is [kwargs.get("zoom_ratio")]. *)
Definition apply_video_effect (c : clip) (effect_type : string)
    (duration : option Q) (zoom_ratio : option Q) : result clip :=
  _ ← validate_effect_type effect_type;
  if String.eqb effect_type "none" then Ok c
  else if String.eqb effect_type "ken_burns_in" then
    apply_ken_burns_effect c duration (default (12 # 10) zoom_ratio) "in"
  else if String.eqb effect_type "ken_burns_out" then
    apply_ken_burns_effect c duration (default (12 # 10) zoom_ratio) "out"
  else if String.eqb effect_type "shake" then
    Ok (apply_shake_effect c duration)
  else if String.eqb effect_type "zoom_in" then
    apply_ken_burns_effect c duration (13 # 10) "in"
  else if String.eqb effect_type "zoom_out" then
    apply_ken_burns_effect c duration (13 # 10) "out"
  else if String.prefix "pan_" effect_type then
    match split_on "_" effect_type with
    | _ :: direction :: _ => apply_pan_effect c duration direction
    | _ => Raise RuntimeError (* an IndexError; the prefix excludes it *)
    end
  else Ok c.

(** The call of the render, [apply_video_effect(clip, effect_type,
    seg_duration)], on a configuration value of any type. *)
Definition apply_video_effect_of (c : clip) (effect_type : pyval)
    (seg_duration : Q) : result clip :=
  key ← py_member effect_type EFFECT_TYPES;
  match key with
  | None => Raise ValueError
  | Some effect_type => apply_video_effect c effect_type (Some seg_duration) None
  end.

End Effects.

(** ** Further steps of the render *)

Module RenderSteps.

Import Render.

(** The audio step of [create_video_from_config]: the three BGM settings
    are clamped into their ranges, then the tracks are mixed to the
    duration of the video. *)
Definition audio_stage (config : gmap string pyval)
    (voice_audio bgm_audio : option audio_clip) (actual_duration : Q)
  : result (option audio_clip) :=
  let bgm_volume :=
    dict_get config "bgm_volume" (VFloat BGM_VOLUME_DEFAULT) in
  let bgm_fade_in :=
    dict_get config "bgm_fade_in" (VFloat BGM_FADE_IN_DEFAULT) in
  let bgm_fade_out :=
    dict_get config "bgm_fade_out" (VFloat BGM_FADE_OUT_DEFAULT) in
  bgm_volume ← clamp BGM_VOLUME_MIN BGM_VOLUME_MAX bgm_volume;
  bgm_fade_in ← clamp BGM_FADE_IN_MIN BGM_FADE_IN_MAX bgm_fade_in;
  bgm_fade_out ← clamp BGM_FADE_OUT_MIN BGM_FADE_OUT_MAX bgm_fade_out;
  mix_audio_tracks voice_audio bgm_audio bgm_volume bgm_fade_in
    bgm_fade_out (Some actual_duration).

Definition BGM_KEYS : list string :=
  [ "bgm_volume"; "bgm_fade_in"; "bgm_fade_out" ].

(** The timeline as it is planned before any segment is built. *)
Record timeline_plan : Type :=
  { plan_clip_duration : Q; plan_num_clips : nat; plan_total_duration : Q }.

Definition plan_timeline (min_dur max_dur : Q) (media_files sentences : nat)
    (st : styling) : timeline_plan :=
  let clip_duration := ((min_dur + max_dur) / 2)%Q in
  let num_clips := Nat.max (Nat.max media_files sentences) 1 in
  let total_transition_time :=
    if py_truthy (st_transition_enabled st)
       && negb (String.eqb (st_transition_type st) "none")
       && (1 <? num_clips)%nat
    then (inject_Z (Z.of_nat num_clips - 1) * st_transition_duration st)%Q
    else 0%Q in
  {| plan_clip_duration := clip_duration;
     plan_num_clips := num_clips;
     plan_total_duration :=
       (inject_Z (Z.of_nat num_clips) * clip_duration
        - total_transition_time)%Q |}.

(** The progress reported after segment [i] of [num_clips]:
    [30 + int(25 * (i + 1) / num_clips)]. *)
Definition segment_progress (i num_clips : nat) : result Z :=
  share ← truediv (inject_Z (25 * (Z.of_nat i + 1)))
            (inject_Z (Z.of_nat num_clips));
  Ok (30 + py_int share).

(** [clip.subclip(t_start, t_end)] on a video clip. *)
Definition video_subclip (c : clip) (t_start t_end : Q) : result clip :=
  let t_start :=
    if flt t_start 0 then (clip_duration c + t_start)%Q else t_start in
  if flt (clip_duration c) t_start then Raise ValueError
  else
    let t_end :=
      if flt t_end 0 then (clip_duration c + t_end)%Q else t_end in
    Ok (set_duration c (t_end - t_start)).

(** [clip.loop(duration=d)] for a duration other than 0. *)
Definition video_loop (c : clip) (duration : Q) : clip :=
  set_duration c duration.

(** The part of a video file that segment [i] shows. *)
Definition cut_video_source (video : clip) (i : nat) (seg_duration : Q)
  : result clip :=
  if flt (clip_duration video) seg_duration then
    Ok (video_loop video seg_duration)
  else
    start_pos ← py_mod (inject_Z (Z.of_nat i) * seg_duration)
                  (py_max 1 (clip_duration video - seg_duration));
    let end_pos := py_min (start_pos + seg_duration) (clip_duration video) in
    video_subclip video start_pos end_pos.

(** [clip.fl_image(f)] for an [f] that keeps the shape of the frame. *)
Definition fl_image (c : clip) : clip := c.

(** The color filters, as far as the attributes of the clip go: each one
    maps the frames to frames of the same shape. *)
Definition apply_grayscale_filter (c : clip) : clip := fl_image c.
Definition apply_vintage_filter (c : clip) : clip := fl_image c.
Definition apply_warm_filter (c : clip) : clip := fl_image c.
Definition apply_cool_filter (c : clip) : clip := fl_image c.
Definition apply_high_contrast_filter (c : clip) : clip := fl_image c.
Definition apply_soft_filter (c : clip) : clip := fl_image c.

Definition validate_color_filter (filter_type : string) : result string :=
  if negb (str_in filter_type COLOR_FILTERS) then Raise ValueError
  else Ok filter_type.

Definition apply_color_filter (c : clip) (filter_type : string)
  : result clip :=
  _ ← validate_color_filter filter_type;
  if String.eqb filter_type "none" then Ok c
  else if String.eqb filter_type "grayscale" then
    Ok (apply_grayscale_filter c)
  else if String.eqb filter_type "vintage" then Ok (apply_vintage_filter c)
  else if String.eqb filter_type "warm" then Ok (apply_warm_filter c)
  else if String.eqb filter_type "cool" then Ok (apply_cool_filter c)
  else if String.eqb filter_type "high_contrast" then
    Ok (apply_high_contrast_filter c)
  else if String.eqb filter_type "soft" then Ok (apply_soft_filter c)
  else Ok c.

Definition validate_brightness (brightness : Q) : result Q :=
  if flt brightness BRIGHTNESS_MIN || flt BRIGHTNESS_MAX brightness
  then Raise ValueError else Ok brightness.

Definition validate_contrast (contrast : Q) : result Q :=
  if flt contrast CONTRAST_MIN || flt CONTRAST_MAX contrast
  then Raise ValueError else Ok contrast.

Definition validate_saturation (saturation : Q) : result Q :=
  if flt saturation SATURATION_MIN || flt SATURATION_MAX saturation
  then Raise ValueError else Ok saturation.

Definition validate_video_adjustments (brightness contrast saturation : Q)
  : result (Q * Q * Q) :=
  brightness ← validate_brightness brightness;
  contrast ← validate_contrast contrast;
  saturation ← validate_saturation saturation;
  Ok (brightness, contrast, saturation).

Definition apply_video_adjustments (c : clip)
    (brightness contrast saturation : Q) : result clip :=
  _ ← validate_video_adjustments brightness contrast saturation;
  if Qeq_bool brightness 1 && Qeq_bool contrast 1 && Qeq_bool saturation 1
  then Ok c
  else Ok (fl_image c).

(** The segments and their composition with the transforms of this
    module in place. *)
Definition render_timeline (sources : list segment_source) (size : Z * Z)
    (st : styling) (seg_duration total_duration : Q) : result clip :=
  Render.render_timeline Effects.apply_video_effect_of apply_color_filter
    apply_video_adjustments apply_transitions_to_clips
    sources size st seg_duration total_duration.

(** A source as the loop over the segments loads it: of positive size,
    at the start of its timeline and of the duration of the segment. *)
Definition loaded (seg_duration : Q) (src : segment_source) : Prop :=
  match src with
  | ImageSource c | VideoSource c =>
    0 < fst (clip_size c) ∧ 0 < snd (clip_size c)
    ∧ fresh c ∧ (clip_duration c == seg_duration)%Q
  | NoMedia => True
  end.

(** A source that the fill mode can bring to the canvas: in fit mode the
    scaled source keeps at least one pixel on each axis; crop and stretch
    take every source. *)
Definition fits_canvas (size : Z * Z) (fit_mode : string)
    (src : segment_source) : Prop :=
  fit_mode = "fit" →
  match src with
  | ImageSource c | VideoSource c => fits_inside (clip_size c) size
  | NoMedia => True
  end.

(** A segment as the loop hands it to the composition: of the canvas
    size, at the start of its timeline and of the segment duration. *)
Definition built (size : Z * Z) (seg_duration : Q) (c : clip) : Prop :=
  clip_size c = size ∧ fresh c ∧ (clip_duration c == seg_duration)%Q.

(** A styling as [resolve_styling] returns it. *)
Definition resolved (st : styling) : Prop :=
  st_fit_mode st ∈ FIT_MODES
  ∧ st_transition_type st ∈ TRANSITIONS
  ∧ valid_transition_duration (st_transition_duration st).

(** [sentences[i % len(sentences)] if sentences else ""]. *)
Definition sentence_at (sentences : list string) (i : nat) : string :=
  match sentences with
  | [] => EmptyString
  | _ => nth (i mod length sentences) sentences EmptyString
  end.

(** The loop that spreads the sentences evenly over the video when there
    are no timed subtitles, from index [i] on, with [remaining] rounds to
    go. *)
Fixpoint fallback_loop (sentences : list string)
    (subtitle_duration actual_duration : Q) (i remaining : nat)
    (current_time : Q) : list caption :=
  match remaining with
  | O => []
  | S remaining =>
    let sentence := sentence_at sentences i in
    if String.eqb sentence EmptyString then
      fallback_loop sentences subtitle_duration actual_duration (S i)
        remaining (current_time + subtitle_duration)%Q
    else
      let seg_duration := subtitle_duration in
      if Qle_bool actual_duration current_time then []
      else
        let seg_duration :=
          if flt actual_duration (current_time + seg_duration)
          then (actual_duration - current_time)%Q
          else seg_duration in
        if Qle_bool seg_duration 0 then
          fallback_loop sentences subtitle_duration actual_duration (S i)
            remaining current_time
        else
          caption_set_start (create_text_clip sentence seg_duration)
            current_time
          :: fallback_loop sentences subtitle_duration actual_duration
               (S i) remaining (current_time + subtitle_duration)%Q
  end.

Definition fallback_subtitle_clips (sentences : list string)
    (num_clips : nat) (actual_duration : Q) : result (list caption) :=
  subtitle_duration ←
    (if (0 <? num_clips)%nat
     then truediv actual_duration (inject_Z (Z.of_nat num_clips))
     else Ok actual_duration);
  Ok (fallback_loop sentences subtitle_duration actual_duration 0
        num_clips 0).

(** The subtitle step: timed subtitles when the configuration has them,
    the even spread otherwise, laid over the video when there is at least
    one caption. [text_layer] is the text clip of a caption. *)
Definition text_layer (text_size : string → Z * Z) (cap : caption) : clip :=
  {| clip_size := text_size (caption_text cap);
     clip_start := caption_start cap;
     clip_duration := caption_duration cap |}.

Definition subtitle_stage (text_size : string → Z * Z)
    (subtitle_enabled : pyval) (sentences : list string)
    (sentence_subtitles : list subtitle_cue) (num_clips : nat)
    (final_video : clip) : result clip :=
  let actual_duration := clip_duration final_video in
  if py_truthy subtitle_enabled
     && negb (String.eqb (nth 0 sentences EmptyString) EmptyString) then
    subtitle_clips ←
      match sentence_subtitles with
      | _ :: _ => Ok (precise_subtitle_clips actual_duration
                        sentence_subtitles)
      | [] => fallback_subtitle_clips sentences num_clips actual_duration
      end;
    match subtitle_clips with
    | [] => Ok final_video
    | _ =>
      Ok (CompositeVideoClip final_video
            (map (text_layer text_size) subtitle_clips) None)
    end
  else Ok final_video.

End RenderSteps.

(** ** Checking a task status response *)

Module TaskStatusCheck.

(** What [validate_task_status_response] can find wrong; one constructor
    per message of the source, with the offending value where the
    message shows it. *)
Inductive finding : Type :=
| MissingStatus
| MissingProgress
| MissingMessage
| InvalidStatus (value : pyval)
| MissingDownloadUrl
| MissingErrorMessage
| InvalidProgress (value : pyval)
| InvalidMessage (value : pyval).

(** [isinstance(v, int)]: a bool is an int. *)
Definition is_int (v : pyval) : bool :=
  match v with
  | VInt _ | VBool _ => true
  | _ => false
  end.

Definition int_value (v : pyval) : Z :=
  match v with
  | VInt z => z
  | VBool b => if b then 1 else 0
  | _ => 0
  end.

(** [isinstance(v, str)]. *)
Definition is_str (v : pyval) : bool :=
  match v with
  | VStr _ => true
  | _ => false
  end.

(** [key in response]. *)
Definition has_key (response : gmap string pyval) (key : string) : bool :=
  bool_decide (is_Some (response !! key)).

Definition validate_task_status_response (response : gmap string pyval)
  : bool * list finding :=
  let errors : list finding := [] in
  let errors :=
    if negb (has_key response "status") then errors ++ [MissingStatus]
    else errors in
  let errors :=
    if negb (has_key response "progress") then errors ++ [MissingProgress]
    else errors in
  let errors :=
    if negb (has_key response "message") then errors ++ [MissingMessage]
    else errors in
  let errors :=
    match response !! "status" with
    | Some status =>
      let valid_statuses := ["pending"; "processing"; "completed"; "failed"] in
      let errors :=
        if negb (py_in_list status valid_statuses)
        then errors ++ [InvalidStatus status] else errors in
      let errors :=
        if py_eq_str status "completed"
           && negb (has_key response "download_url")
        then errors ++ [MissingDownloadUrl] else errors in
      if py_eq_str status "failed"
         && negb (has_key response "error_message")
      then errors ++ [MissingErrorMessage] else errors
    | None => errors
    end in
  let errors :=
    match response !! "progress" with
    | Some progress =>
      if negb (is_int progress) || (int_value progress <? 0)
         || (100 <? int_value progress)
      then errors ++ [InvalidProgress progress] else errors
    | None => errors
    end in
  let errors :=
    match response !! "message" with
    | Some message =>
      if negb (is_str message) then errors ++ [InvalidMessage message]
      else errors
    | None => errors
    end in
  (bool_decide (length errors = 0%nat), errors).

End TaskStatusCheck.

(** ** Trimming a video *)

Module Trim.

Import RenderSteps.

(** The exceptions of [trim_video]. *)
Inductive trim_exn : Type :=
| FileNotFoundError
| VideoTrimError.

Inductive trim_result (A : Type) : Type :=
| Trimmed (a : A)
| TrimRaise (e : trim_exn).
Arguments Trimmed {A} a.
Arguments TrimRaise {A} e.

Definition validate_trim_time_range (start_time end_time video_duration : Q)
  : trim_result (Q * Q) :=
  if flt start_time 0 then TrimRaise VideoTrimError
  else if Qle_bool end_time start_time then TrimRaise VideoTrimError
  else if flt video_duration end_time then TrimRaise VideoTrimError
  else Trimmed (start_time, end_time).

Definition ALLOWED_VIDEO_EXTENSIONS : list string :=
  [ ".mp4"; ".mov"; ".avi"; ".mkv"; ".webm" ].

(** The dict that [trim_video] returns, with the trimmed clip in place of
    the file written from it. *)
Record trim_report : Type :=
  { report_start_time : Q; report_end_time : Q;
    report_expected_duration : Q; report_trimmed : clip }.

(** [trim_video]; [file_exists] is [os.path.exists(input_path)], [ext]
    the lower-cased extension of the path and [video] the clip read from
    it. Every exception other than the two of [trim_exn] is turned into
    [VideoTrimError]. *)
Definition trim_video (file_exists : bool) (ext : string) (video : clip)
    (start_time end_time : Q) : trim_result trim_report :=
  if negb file_exists then TrimRaise FileNotFoundError
  else if negb (str_in ext ALLOWED_VIDEO_EXTENSIONS) then
    TrimRaise VideoTrimError
  else
    let video_duration := clip_duration video in
    match validate_trim_time_range start_time end_time video_duration with
    | TrimRaise e => TrimRaise e
    | Trimmed (validated_start, validated_end) =>
      let expected_duration := (validated_end - validated_start)%Q in
      match video_subclip video validated_start validated_end with
      | Raise _ => TrimRaise VideoTrimError
      | Ok trimmed =>
        Trimmed {| report_start_time := validated_start;
                   report_end_time := validated_end;
                   report_expected_duration := expected_duration;
                   report_trimmed := trimmed |}
      end
    end.

(** [extract_video_thumbnails]: the times of the frames that are saved. *)
Definition thumbnail_times (duration : Q) (count : Z) : result (list Q) :=
  interval ← truediv duration (inject_Z (count + 1));
  Ok (map (λ i : nat, (interval * inject_Z (Z.of_nat i + 1))%Q)
        (seq 0 (Z.to_nat count))).

End Trim.

(** ** Task identifiers *)

Module TaskId.

(** The characters that [[0-9a-f]] and [[89ab]] match when case is
    ignored. *)
Definition HEX : list ascii :=
  list_ascii_of_string "0123456789abcdefABCDEF".

Definition VARIANT : list ascii := list_ascii_of_string "89abAB".

(** One character of a class at the head of the string; the rest of the
    string when it matches. *)
Definition one_of (class : list ascii) (s : string) : option string :=
  match s with
  | String c rest => if bool_decide (c ∈ class) then Some rest else None
  | EmptyString => None
  end.

(** [class{n}]. *)
Fixpoint repeat_of (class : list ascii) (n : nat) (s : string)
  : option string :=
  match n with
  | O => Some s
  | S n => one_of class s ≫= repeat_of class n
  end.

(** [$]: the end of the string, or a newline that ends the string. *)
Definition at_end (s : string) : bool :=
  match s with
  | EmptyString => true
  | String c EmptyString => Ascii.eqb c (ascii_of_nat 10)
  | _ => false
  end.

Definition DASH : list ascii := list_ascii_of_string "-".
Definition FOUR : list ascii := list_ascii_of_string "4".

(** A pattern made of character classes with a repeat count each,
    anchored at both ends: [^c1{n1}c2{n2}...$]. *)
Definition pattern : Type := list (list ascii * nat).

Definition match_parts (parts : pattern) (s : string) : option string :=
  foldl (λ rest part, rest ≫= repeat_of (fst part) (snd part)) (Some s)
    parts.

Definition matches (parts : pattern) (s : string) : bool :=
  match match_parts parts s with
  | Some rest => at_end rest
  | None => false
  end.

(** [^[0-9a-f]{8}-[0-9a-f]{4}-4[0-9a-f]{3}-[89ab][0-9a-f]{3}-[0-9a-f]{12}$],
    case ignored. *)
Definition UUID_V4_PATTERN : pattern :=
  [ (HEX, 8); (DASH, 1); (HEX, 4); (DASH, 1); (FOUR, 1); (HEX, 3);
    (DASH, 1); (VARIANT, 1); (HEX, 3); (DASH, 1); (HEX, 12) ]%nat.

(** [^[0-9a-f]{8}-[0-9a-f]{4}-[0-9a-f]{4}-[0-9a-f]{4}-[0-9a-f]{12}$],
    case ignored. *)
Definition UUID_PATTERN : pattern :=
  [ (HEX, 8); (DASH, 1); (HEX, 4); (DASH, 1); (HEX, 4); (DASH, 1);
    (HEX, 4); (DASH, 1); (HEX, 12) ]%nat.

Definition is_valid_uuid (task_id : string) : bool :=
  if String.eqb task_id EmptyString then false
  else matches UUID_V4_PATTERN task_id.

Definition is_valid_uuid_format (task_id : string) : bool :=
  if String.eqb task_id EmptyString then false
  else matches UUID_PATTERN task_id.

End TaskId.

(** ** Brightness, contrast and saturation of a pixel *)

Module Pixels.

(** [np.clip(x, 0, 255).astype(np.uint8)]. *)
Definition to_uint8 (x : Q) : Z := py_int (Qmin (Qmax x 0) 255).

(** One pixel of a frame: red, green and blue, each from 0 to 255. *)
Definition pixel : Type := Z * Z * Z.

Definition is_pixel (p : pixel) : Prop :=
  let '(r, g, b) := p in
  0 <= r <= 255 ∧ 0 <= g <= 255 ∧ 0 <= b <= 255.

(** [frame.astype(np.float32)]. *)
Definition astype_float (p : pixel) : Q * Q * Q :=
  let '(r, g, b) := p in (inject_Z r, inject_Z g, inject_Z b).

(** An operation on every channel of the pixel. *)
Definition channels (f : Q → Q) (img : Q * Q * Q) : Q * Q * Q :=
  let '(r, g, b) := img in (f r, f g, f b).

(** [np.mean(img, axis=2, keepdims=True)]. *)
Definition mean (img : Q * Q * Q) : Q :=
  let '(r, g, b) := img in ((r + g + b) / 3)%Q.

Definition astype_uint8 (img : Q * Q * Q) : pixel :=
  let '(r, g, b) := img in (to_uint8 r, to_uint8 g, to_uint8 b).

Definition brightness_effect (brightness : Q) (frame : pixel) : pixel :=
  let img := astype_float frame in
  let img := channels (λ x, x * brightness)%Q img in
  astype_uint8 img.

Definition contrast_effect (contrast : Q) (frame : pixel) : pixel :=
  let img := astype_float frame in
  let img := channels (λ x, (x - 128) * contrast + 128)%Q img in
  astype_uint8 img.

Definition saturation_effect (saturation : Q) (frame : pixel) : pixel :=
  let img := astype_float frame in
  let gray := mean img in
  let img := channels (λ x, gray + (x - gray) * saturation)%Q img in
  astype_uint8 img.

Definition combined_adjustment (brightness contrast saturation : Q)
    (frame : pixel) : pixel :=
  let img := astype_float frame in
  let img :=
    if negb (Qeq_bool brightness 1)
    then channels (λ x, x * brightness)%Q img else img in
  let img :=
    if negb (Qeq_bool contrast 1)
    then channels (λ x, (x - 128) * contrast + 128)%Q img else img in
  let img :=
    if negb (Qeq_bool saturation 1) then
      let gray := mean img in
      channels (λ x, gray + (x - gray) * saturation)%Q img
    else img in
  astype_uint8 img.

End Pixels.

(** ** The render from configuration to final clip *)

Module Pipeline.

Import CanvasSizer Canvas Render RenderSteps.

(** What the render reads from the file system and from the other
    services: the sentences of the script, the number of media files and
    the clip loaded for each segment, the narration and the BGM when
    their files exist, the timed subtitles, and the size of the text clip
    of a caption. *)
Record render_inputs : Type :=
  { in_sentences : list string;
    in_media_files : nat;
    in_sources : list segment_source;
    in_voice_audio : option audio_clip;
    in_bgm_audio : option audio_clip;
    in_sentence_subtitles : list subtitle_cue;
    in_text_size : string → Z * Z }.

(** What is handed to the encoder. *)
Record render_output : Type :=
  { out_video : clip; out_audio : option audio_clip; out_fps : pyval }.

(** [create_video_from_config] up to the export: canvas, styling, plan,
    segments and transitions, subtitles, audio. *)
Definition create_video_from_config (config : gmap string pyval)
    (inputs : render_inputs) : result render_output :=
  canvas ← resolve_canvas config;
  let '(size, fps) := canvas in
  st ← resolve_styling config;
  let sentences :=
    match in_sentences inputs with
    | [] => [EmptyString]
    | sentences => sentences
    end in
  min_dur ← py_num (dict_get config "clip_min_duration" (VFloat 3));
  max_dur ← py_num (dict_get config "clip_max_duration" (VFloat 10));
  let plan :=
    plan_timeline min_dur max_dur (in_media_files inputs)
      (length sentences) st in
  let seg_duration := plan_clip_duration plan in
  let sources :=
    if Qle_bool seg_duration 0 then [] else in_sources inputs in
  final_video ← render_timeline sources size st seg_duration
                  (plan_total_duration plan);
  let actual_duration := clip_duration final_video in
  final_video ← subtitle_stage (in_text_size inputs)
                  (dict_get config "subtitle_enabled" (VBool true))
                  sentences (in_sentence_subtitles inputs)
                  (plan_num_clips plan) final_video;
  final_audio ← audio_stage config (in_voice_audio inputs)
                  (in_bgm_audio inputs) actual_duration;
  Ok {| out_video := final_video; out_audio := final_audio;
        out_fps := fps |}.

(** A configuration whose values have the types of the request schema,
    whatever the values are. *)
Definition CLIP_KEYS : list string :=
  [ "clip_min_duration"; "clip_max_duration" ].

Definition typed (config : gmap string pyval) : Prop :=
  styling_typed config
  ∧ (∀ key v, key ∈ CANVAS_KEYS → config !! key = Some v → hashable v)
  ∧ (∀ key v, key ∈ BGM_KEYS ++ CLIP_KEYS →
              config !! key = Some v → is_number v).

(** Inputs as the render loads them for a segment duration: one source
    per segment, loaded at that duration, and audio tracks that are not
    empty. *)
Definition loaded_inputs (seg_duration : Q) (inputs : render_inputs)
  : Prop :=
  length (in_sources inputs)
  = Nat.max (Nat.max (in_media_files inputs)
               (length (in_sentences inputs))) 1
  ∧ Forall (loaded seg_duration) (in_sources inputs)
  ∧ (∀ a, in_voice_audio inputs = Some a → (0 < audio_duration a)%Q)
  ∧ (∀ a, in_bgm_audio inputs = Some a → (0 < audio_duration a)%Q).

End Pipeline.

(** * Properties *)

(** ** Facts about the Python runtime model *)

Section PyFacts.

Lemma py_int_floor (x : Q) : (0 <= x)%Q → py_int x = Qfloor x.
Proof.
  intros Hx. unfold py_int.
  destruct (Qle_bool 0 x) eqn:E; [reflexivity|].
  apply Qle_bool_iff in Hx. congruence.
Qed.

Lemma py_int_comp (x y : Q) : (x == y)%Q → py_int x = py_int y.
Proof.
  intros Hxy. unfold py_int, Qceiling.
  rewrite (Qleb_comp 0%Q 0%Q (Qeq_refl 0%Q) x y Hxy).
  rewrite (Qfloor_comp x y Hxy).
  assert (- x == - y)%Q as Hneg by (now rewrite Hxy).
  now rewrite (Qfloor_comp _ _ Hneg).
Qed.

(** An integer below a float stays below its truncation. *)
Lemma py_int_lower_bound (z : Z) (x : Q) :
  0 <= z → (inject_Z z <= x)%Q → z <= py_int x.
Proof.
  intros Hz Hx.
  assert (0 <= x)%Q as Hx0.
  { eapply Qle_trans; [|exact Hx]. unfold Qle; simpl. lia. }
  rewrite py_int_floor by exact Hx0.
  rewrite <- (Qfloor_Z z). now apply Qfloor_resp_le.
Qed.

Lemma flt_true (a b : Q) : flt a b = true ↔ (a < b)%Q.
Proof.
  unfold flt. rewrite negb_true_iff.
  split.
  - intros H. apply Qnot_le_lt. intros Hle.
    apply Qle_bool_iff in Hle. congruence.
  - intros H. destruct (Qle_bool b a) eqn:E; [|reflexivity].
    apply Qle_bool_iff in E. exfalso. now apply (Qlt_not_le a b).
Qed.

Lemma flt_false (a b : Q) : flt a b = false ↔ (b <= a)%Q.
Proof.
  unfold flt. rewrite negb_false_iff. apply Qle_bool_iff.
Qed.

Lemma str_in_true (key : string) (keys : list string) :
  str_in key keys = true ↔ key ∈ keys.
Proof. unfold str_in. apply bool_decide_eq_true. Qed.

Lemma str_in_false (key : string) (keys : list string) :
  str_in key keys = false ↔ key ∉ keys.
Proof. unfold str_in. apply bool_decide_eq_false. Qed.

End PyFacts.

(** ** Canvas sizer *)

Section CanvasSizerFacts.

Import CanvasSizer.

(** Splits a membership in a literal list into one goal per element. *)
Ltac each_entry H :=
  repeat (apply elem_of_cons in H as [H | H]; [inversion H; subst; clear H|]);
  try (apply elem_of_nil in H; contradiction).

(** C1. For every supported resolution and every supported layout,
    [calculate_video_size] returns a pair of positive even integers whose
    ratio is within 1% (relative error) of the layout's ratio; for a
    portrait layout the width is the height value of the resolution table. *)
Theorem calculate_video_size_even_and_ratio
    (resolution layout : string) (base : resolution_entry)
    (lay : layout_entry) :
  VIDEO_RESOLUTIONS !! resolution = Some base →
  VIDEO_LAYOUTS !! layout = Some lay →
  ∃ width height,
    calculate_video_size resolution layout = Ok (width, height)
    ∧ positive_even width
    ∧ positive_even height
    ∧ (ratio_error (width, height) (layout_ratio lay) < 1 # 100)%Q
    ∧ (fst (layout_ratio lay) < snd (layout_ratio lay) →
       width = res_height base).
Proof.
  intros Hres Hlay.
  unfold VIDEO_RESOLUTIONS in Hres. apply elem_of_list_to_map_2 in Hres.
  unfold VIDEO_LAYOUTS in Hlay. apply elem_of_list_to_map_2 in Hlay.
  each_entry Hres; each_entry Hlay;
    (eexists _, _; split; [vm_compute; reflexivity|];
     repeat split; try reflexivity; simpl; lia).
Qed.

Lemma calculate_video_size_even_and_ratio_witness :
  ∃ width height,
    calculate_video_size "1080p" "9:16" = Ok (width, height)
    ∧ positive_even width
    ∧ positive_even height
    ∧ (ratio_error (width, height) (9, 16)%Z < 1 # 100)%Q
    ∧ (9 < 16 → width = 1080).
Proof.
  apply (calculate_video_size_even_and_ratio "1080p" "9:16"
           {| res_width := 1920; res_height := 1080 |}
           {| layout_name := "竖屏短视频"; layout_ratio := (9, 16) |});
    reflexivity.
Defined.

End CanvasSizerFacts.

(** ** Media adapter *)

Section MediaAdapterFacts.

Lemma truediv_pos (a : Q) (b : Z) :
  0 < b → truediv a (inject_Z b) = Ok (a / inject_Z b)%Q.
Proof.
  intros Hb. unfold truediv.
  destruct (Qeq_bool (inject_Z b) 0) eqn:E; [|reflexivity].
  apply Qeq_bool_iff in E. unfold Qeq in E. simpl in E. lia.
Qed.

Lemma result_bind_Ok {A B : Type} (a : A) (k : A → result B) :
  (Ok a ≫= k) = k a.
Proof. reflexivity. Qed.

(** Runs the divisions by positive integers and the binds on them. *)
Ltac run_divisions :=
  repeat first [ rewrite truediv_pos by assumption
               | rewrite result_bind_Ok ].

(** Comparing two ratios of positive integers is comparing the cross
    products. *)
Lemma ratio_lt_cross (a b c d : Z) :
  0 < b → 0 < d →
  (inject_Z a / inject_Z b < inject_Z c / inject_Z d)%Q ↔ a * d < c * b.
Proof.
  intros Hb Hd.
  destruct b as [|b|b]; try lia. destruct d as [|d|d]; try lia.
  unfold Qlt, Qdiv, Qmult, Qinv, inject_Z. simpl. lia.
Qed.

Lemma ratio_le_cross (a b c d : Z) :
  0 < b → 0 < d →
  (inject_Z a / inject_Z b <= inject_Z c / inject_Z d)%Q ↔ a * d <= c * b.
Proof.
  intros Hb Hd.
  destruct b as [|b|b]; try lia. destruct d as [|d|d]; try lia.
  unfold Qle, Qdiv, Qmult, Qinv, inject_Z. simpl. lia.
Qed.

Lemma int_le_ratio (a b c : Z) :
  0 < b → a * b <= c → (inject_Z a <= inject_Z c / inject_Z b)%Q.
Proof.
  intros Hb H. destruct b as [|b|b]; try lia.
  unfold Qle, Qdiv, Qmult, Qinv, inject_Z. simpl. lia.
Qed.

(** [w * (t / h)] and [w * t / h] are the same number. *)
Lemma scale_assoc (w t h : Z) :
  (inject_Z w * (inject_Z t / inject_Z h) == inject_Z (w * t) / inject_Z h)%Q.
Proof.
  rewrite inject_Z_mult. unfold Qdiv. ring.
Qed.

(** A float below an integer keeps its truncation below it. *)
Lemma py_int_upper_bound (z : Z) (x : Q) :
  (0 <= x)%Q → (x <= inject_Z z)%Q → py_int x <= z.
Proof.
  intros Hx Hz. rewrite py_int_floor by exact Hx.
  rewrite <- (Qfloor_Z z). now apply Qfloor_resp_le.
Qed.

(** The truncation of a ratio of non-negative integers is the quotient. *)
Lemma py_int_ratio (a b : Z) :
  0 <= a → 0 < b →
  let q := py_int (inject_Z a / inject_Z b) in
  0 <= q ∧ q * b <= a < (q + 1) * b.
Proof.
  intros Ha Hb q.
  assert (0 <= inject_Z a / inject_Z b)%Q as Hpos.
  { apply Qle_shift_div_l; [unfold Qlt; simpl; lia|].
    unfold Qle; simpl; lia. }
  assert (q = a / b) as ->.
  { subst q. rewrite py_int_floor by exact Hpos.
    destruct b as [|b|b]; try lia.
    unfold Qfloor, Qdiv, Qmult, Qinv, inject_Z. simpl.
    now rewrite Z.mul_1_r. }
  pose proof (Z.div_pos a b Ha Hb).
  pose proof (Z.mul_div_le a b Hb).
  pose proof (Z.mul_succ_div_gt a b Hb). lia.
Qed.

(** The resizer returns the clip at the new size when the size has
    pixels, and fails when an axis has none. *)
Lemma resizer_Ok (c : clip) (w h : Z) :
  0 < w → 0 < h → resizer c (w, h) = Ok (with_size c (w, h)).
Proof.
  intros Hw Hh. unfold resizer. simpl.
  destruct (Z.leb_spec w 0); [lia|].
  destruct (Z.leb_spec h 0); [lia|]. reflexivity.
Qed.


(** A window of length [len] that fits in an axis has [len] pixels. *)
Lemma slice_length_inside (n i len : Z) :
  0 <= i → 0 <= len → i + len <= n →
  slice_length n i (i + len) = len.
Proof.
  intros Hi Hlen Hfit. unfold slice_length, slice_index.
  destruct (Z.ltb_spec (i + len) 0), (Z.ltb_spec i 0); lia.
Qed.

Lemma crop_window (c : clip) (x y w h : Z) :
  0 <= x → 0 <= y → 0 < w → 0 < h →
  x + w <= fst (clip_size c) → y + h <= snd (clip_size c) →
  clip_size (crop c x (x + w) y (y + h)) = (w, h).
Proof.
  intros Hx Hy Hw Hh Hfx Hfy. unfold crop.
  destruct (clip_size c) as [cw ch] eqn:Esize. simpl in *.
  destruct (Z.eqb_spec (x + w) 0); [lia|].
  destruct (Z.eqb_spec (y + h) 0); [lia|].
  now rewrite !slice_length_inside by lia.
Qed.

Lemma adapt_media_crop_size (c : clip) (target_w target_h : Z) :
  0 < fst (clip_size c) → 0 < snd (clip_size c) →
  0 < target_w → 0 < target_h →
  ∃ c', adapt_media_crop c (target_w, target_h) = Ok c'
        ∧ clip_size c' = (target_w, target_h)
        ∧ clip_duration c' = clip_duration c
        ∧ clip_start c' = clip_start c.
Proof.
  intros Hcw Hch Htw Hth. unfold adapt_media_crop.
  destruct (clip_size c) as [clip_w clip_h] eqn:Esize. simpl in Hcw, Hch.
  run_divisions.
  destruct (flt (Qabs _) (1 # 100)) eqn:Eclose.
  { unfold resize_newsize. rewrite resizer_Ok by assumption.
    eexists. split; [reflexivity|]. repeat split. }
  destruct (flt (inject_Z target_w / inject_Z target_h) _) eqn:Ewide.
  - (* wider source: scale to the target height, crop the width *)
    apply flt_true in Ewide.
    apply (ratio_lt_cross target_w target_h clip_w clip_h Hth Hch) in Ewide.
    unfold resize_height. rewrite Esize. run_divisions.
    rewrite (py_int_comp _ _ (scale_assoc clip_w target_h clip_h)).
    set (new_w := py_int (inject_Z (clip_w * target_h) / inject_Z clip_h)).
    assert (target_w <= new_w) as Hcover.
    { apply py_int_lower_bound; [lia|]. apply int_le_ratio; lia. }
    rewrite resizer_Ok, result_bind_Ok by lia.
    eexists. split; [reflexivity|].
    split; [|unfold crop; cbn [with_size clip_size]; split; reflexivity].
    assert (0 <= (new_w - target_w) / 2) by (apply Z.div_pos; lia).
    assert ((new_w - target_w) / 2 <= new_w - target_w)
      by (apply Z.div_le_upper_bound; lia).
    change target_h with (0 + target_h) at 2.
    apply crop_window; simpl; lia.
  - (* taller source: scale to the target width, crop the height *)
    apply flt_false in Ewide.
    apply (ratio_le_cross clip_w clip_h target_w target_h Hch Hth) in Ewide.
    unfold resize_width. rewrite Esize. run_divisions.
    rewrite (py_int_comp _ _ (scale_assoc clip_h target_w clip_w)).
    set (new_h := py_int (inject_Z (clip_h * target_w) / inject_Z clip_w)).
    assert (target_h <= new_h) as Hcover.
    { apply py_int_lower_bound; [lia|]. apply int_le_ratio; lia. }
    rewrite resizer_Ok, result_bind_Ok by lia.
    eexists. split; [reflexivity|].
    split; [|unfold crop; cbn [with_size clip_size]; split; reflexivity].
    assert (0 <= (new_h - target_h) / 2) by (apply Z.div_pos; lia).
    assert ((new_h - target_h) / 2 <= new_h - target_h)
      by (apply Z.div_le_upper_bound; lia).
    change target_w with (0 + target_w) at 2.
    apply crop_window; simpl; lia.
Qed.

Lemma adapt_media_stretch_size (c : clip) (target_w target_h : Z) :
  0 < target_w → 0 < target_h →
  adapt_media_stretch c (target_w, target_h)
  = Ok (with_size c (target_w, target_h)).
Proof.
  intros Htw Hth. unfold adapt_media_stretch, resize_newsize.
  now apply resizer_Ok.
Qed.

(** The scaling step of fit mode: the axis that follows the aspect ratio
    has [q] pixels with [q * den <= num < (q + 1) * den], so it keeps a
    pixel exactly when the source fits inside the target. *)
Lemma fit_scaled_axis (num den : Z) :
  0 <= num → 0 < den →
  (den <= num → 0 < py_int (inject_Z num / inject_Z den))
  ∧ (num < den → py_int (inject_Z num / inject_Z den) <= 0).
Proof.
  intros Hnum Hden.
  destruct (py_int_ratio num den Hnum Hden) as [Hq [Hlo Hhi]].
  split; intros H; nia.
Qed.

Lemma adapt_media_fit_size (c : clip) (target_w target_h : Z) :
  0 < fst (clip_size c) → 0 < snd (clip_size c) →
  0 < target_w → 0 < target_h →
  fits_inside (clip_size c) (target_w, target_h) →
  ∃ c', adapt_media_fit c (target_w, target_h) = Ok c'
        ∧ clip_size c' = (target_w, target_h).
Proof.
  intros Hcw Hch Htw Hth [Hfw Hfh]. unfold adapt_media_fit.
  destruct (clip_size c) as [clip_w clip_h] eqn:Esize.
  simpl in Hcw, Hch, Hfw, Hfh.
  run_divisions.
  unfold resize_width, resize_height. rewrite Esize.
  destruct (flt _ _); run_divisions.
  - rewrite resizer_Ok, result_bind_Ok;
      [eexists; split; reflexivity|assumption|].
    apply fit_scaled_axis; lia.
  - rewrite resizer_Ok, result_bind_Ok;
      [eexists; split; reflexivity| |assumption].
    apply fit_scaled_axis; lia.
Qed.





End MediaAdapterFacts.

(** ** Transition compositor *)

Section TransitionFacts.

Lemma validate_transition_duration_ok (d : Q) :
  valid_transition_duration d → validate_transition_duration d = Ok d.
Proof.
  intros [Hmin Hmax]. unfold validate_transition_duration.
  rewrite (proj2 (flt_false _ _) Hmin), (proj2 (flt_false _ _) Hmax).
  reflexivity.
Qed.

Lemma validate_transition_duration_raises (d : Q) :
  ¬ valid_transition_duration d →
  validate_transition_duration d = Raise ValueError.
Proof.
  intros Hbad. unfold validate_transition_duration.
  destruct (flt d TRANSITION_DURATION_MIN) eqn:E1; [reflexivity|].
  destruct (flt TRANSITION_DURATION_MAX d) eqn:E2; [reflexivity|].
  exfalso. apply Hbad. split; now apply flt_false.
Qed.

Lemma validate_transition_type_ok (t : string) :
  t ∈ TRANSITIONS → validate_transition_type t = Ok t.
Proof.
  intros Ht. unfold validate_transition_type.
  now rewrite (proj2 (str_in_true _ _) Ht).
Qed.

(** The overlap of a pairwise step: the requested duration when the first
    clip is longer, half of the first clip otherwise. *)
Lemma overlap_duration_long (A : clip) (d : Q) :
  (d < clip_duration A)%Q → overlap_duration A d = d.
Proof.
  intros H. unfold overlap_duration.
  destruct (Qle_bool (clip_duration A) d) eqn:E; [|reflexivity].
  apply Qle_bool_iff in E. exfalso. now apply (Qlt_not_le d (clip_duration A)).
Qed.

Lemma overlap_duration_short (A : clip) (d : Q) :
  (clip_duration A <= d)%Q →
  overlap_duration A d = (clip_duration A * (1 # 2))%Q.
Proof.
  intros H. unfold overlap_duration.
  now rewrite (proj2 (Qle_bool_iff _ _) H).
Qed.

Lemma overlap_duration_idem (A : clip) (d : Q) :
  overlap_duration A (overlap_duration A d) = overlap_duration A d.
Proof.
  unfold overlap_duration.
  destruct (Qle_bool (clip_duration A) d) eqn:E.
  - destruct (Qle_bool (clip_duration A) (clip_duration A * (1 # 2)));
      reflexivity.
  - now rewrite E.
Qed.

(** Duration of a cross-fade of [B] over the tail of [A]. *)
Lemma apply_fade_transition_duration (A B : clip) (d : Q) :
  fresh A → (overlap_duration A d <= clip_duration B)%Q →
  (clip_duration (apply_fade_transition A B d)
   == clip_duration A + clip_duration B - overlap_duration A d)%Q.
Proof.
  unfold fresh. intros HA HB.
  unfold apply_fade_transition, CompositeVideoClip, max_end, crossfadein,
    crossfadeout, set_start, clip_end. simpl.
  rewrite Q.max_r; [lra|]. lra.
Qed.

Lemma apply_slide_transition_duration (A B : clip) (dir : string) (d : Q) :
  (clip_duration (apply_slide_transition A B dir d)
   == clip_duration A + clip_duration B - overlap_duration A d)%Q.
Proof. reflexivity. Qed.

Lemma apply_transition_step (A B : clip) (t : string) (d : Q) :
  t ∈ TRANSITIONS → t ≠ "none" → valid_transition_duration d →
  ∃ r, apply_transition A B t d = Ok r ∧ pairwise_step A B d r.
Proof.
  intros Ht Hnone Hd. unfold apply_transition.
  rewrite (validate_transition_type_ok t Ht), result_bind_Ok.
  unfold TRANSITIONS in Ht.
  repeat (apply elem_of_cons in Ht as [-> | Ht]);
    try (apply elem_of_nil in Ht; contradiction);
    try congruence;
    simpl; rewrite (validate_transition_duration_ok d Hd), result_bind_Ok;
    eexists; (split; [reflexivity|]); constructor.
Qed.

Lemma pairwise_step_duration (A B : clip) (d : Q) (r : clip) :
  pairwise_step A B d r →
  fresh A → (overlap_duration A d <= clip_duration B)%Q →
  fresh r
  ∧ (clip_duration r
     == clip_duration A + clip_duration B - overlap_duration A d)%Q.
Proof.
  intros Hstep HA HB. destruct Hstep.
  - split; [reflexivity|]. now apply apply_fade_transition_duration.
  - split; [reflexivity|]. apply apply_slide_transition_duration.
  - split; [reflexivity|].
    exact (apply_fade_transition_duration A B d HA HB).
  - split; [reflexivity|]. unfold apply_wipe_transition.
    rewrite apply_fade_transition_duration;
      rewrite ?overlap_duration_idem; [reflexivity|assumption..].
Qed.

Lemma fold_transitions_duration (t : string) (d : Q) :
  t ∈ TRANSITIONS → t ≠ "none" → valid_transition_duration d →
  ∀ (rest : list clip) (acc : clip),
    fresh acc → (d < clip_duration acc)%Q →
    Forall (λ c, (d < clip_duration c)%Q) rest →
    ∃ r, fold_transitions acc rest t d = Ok r
         ∧ fresh r
         ∧ (clip_duration r
            == clip_duration acc + total_duration rest
               - inject_Z (Z.of_nat (length rest)) * d)%Q.
Proof.
  intros Ht Hnone Hd rest.
  induction rest as [|c rest IH]; intros acc Hfresh Hlong Hrest.
  - exists acc. repeat split; [assumption|]. simpl.
    change (inject_Z (Z.of_nat 0)) with 0%Q. lra.
  - apply Forall_cons in Hrest as [Hc Hrest].
    destruct (apply_transition_step acc c t d Ht Hnone Hd) as (r1 & Hr1 & Hstep).
    pose proof (overlap_duration_long acc d Hlong) as Hov.
    destruct (pairwise_step_duration acc c d r1 Hstep Hfresh) as [Hf1 Hd1].
    { rewrite Hov. now apply Qlt_le_weak. }
    rewrite Hov in Hd1.
    destruct (IH r1 Hf1) as (r & Hr & Hfr & Hdr); [rewrite Hd1; lra|assumption|].
    exists r. split; [|split; [assumption|]].
    + simpl. now rewrite Hr1, result_bind_Ok.
    + rewrite Hdr, Hd1. simpl total_duration. simpl length.
      rewrite Nat2Z.inj_succ, <- Z.add_1_r, inject_Z_plus.
      change (inject_Z 1) with 1%Q. ring.
Qed.

(** Outside the accepted range the compositor refuses the duration before
    it touches the segments. *)
Lemma apply_transitions_to_clips_rejects_duration
    (first second : clip) (rest : list clip) (t : string) (d : Q) :
  t ∈ TRANSITIONS → t ≠ "none" → ¬ valid_transition_duration d →
  apply_transitions_to_clips (first :: second :: rest) t d = Raise ValueError.
Proof.
  intros Ht Hnone Hd. unfold apply_transitions_to_clips.
  rewrite (validate_transition_type_ok t Ht), result_bind_Ok.
  destruct (String.eqb t "none") eqn:E.
  { apply String.eqb_eq in E. contradiction. }
  simpl negb. cbv iota.
  now rewrite (validate_transition_duration_raises d Hd).
Qed.

Lemma validate_transition_type_raises (t : string) :
  t ∉ TRANSITIONS → validate_transition_type t = Raise ValueError.
Proof.
  intros Ht. unfold validate_transition_type.
  now rewrite (proj2 (str_in_false _ _) Ht).
Qed.

(** A transition type outside the table is refused as well. *)
Lemma apply_transitions_to_clips_rejects_type
    (first second : clip) (rest : list clip) (t : string) (d : Q) :
  t ∉ TRANSITIONS →
  apply_transitions_to_clips (first :: second :: rest) t d = Raise ValueError.
Proof.
  intros Ht. unfold apply_transitions_to_clips.
  now rewrite (validate_transition_type_raises t Ht).
Qed.

(** C3, as the code has it. For a transition type other than ["none"]:
    with a supported type and a transition duration [d] within
    [[0.3, 2.0]], at least two segments that each start at 0 on their own
    timeline and are strictly longer than [d] are composed into one clip
    whose duration is the sum of the segment durations minus
    [(n - 1) * d]; with an unsupported type or a [d] outside [[0.3, 2.0]],
    at least two segments are refused with [ValueError], whatever their
    durations; and in a pairwise step whose first clip [A] starts at 0 and
    is not longer than [d], followed by a clip [B] longer than [d], the
    overlap is half the duration of [A] and the result lasts
    [A + B - A / 2]. *)
Theorem apply_transitions_to_clips_duration
    (clips : list clip) (transition_type : string) (d : Q) :
  transition_type ≠ "none" →
  (transition_type ∈ TRANSITIONS → valid_transition_duration d →
   (2 ≤ length clips)%nat →
   Forall (λ c, fresh c ∧ (d < clip_duration c)%Q) clips →
   ∃ r, apply_transitions_to_clips clips transition_type d = Ok r
        ∧ (clip_duration r
           == total_duration clips
              - inject_Z (Z.of_nat (length clips) - 1) * d)%Q)
  ∧ (transition_type ∉ TRANSITIONS ∨ ¬ valid_transition_duration d →
     (2 ≤ length clips)%nat →
     apply_transitions_to_clips clips transition_type d = Raise ValueError)
  ∧ (transition_type ∈ TRANSITIONS → valid_transition_duration d →
     ∀ A B : clip,
       fresh A → (clip_duration A <= d)%Q → (d < clip_duration B)%Q →
       (overlap_duration A d == clip_duration A / 2)%Q
       ∧ ∃ r, apply_transition A B transition_type d = Ok r
              ∧ (clip_duration r
                 == clip_duration A + clip_duration B
                    - clip_duration A / 2)%Q).
Proof.
  intros Hnone. split; [|split].
  - intros Ht Hd Hn Hall.
    destruct clips as [|first [|second rest]]; simpl in Hn; try lia.
    apply Forall_cons in Hall as [[Hfresh Hlong] Hall].
    assert (Forall (λ c, (d < clip_duration c)%Q) (second :: rest)) as Hrest.
    { eapply Forall_impl; [exact Hall|]. now intros c [_ H]. }
    destruct (fold_transitions_duration transition_type d Ht Hnone Hd
                (second :: rest) first Hfresh Hlong Hrest)
      as (r & Hr & _ & Hdur).
    exists r. split.
    + unfold apply_transitions_to_clips.
      rewrite (validate_transition_type_ok _ Ht), result_bind_Ok.
      destruct (String.eqb transition_type "none") eqn:E.
      { apply String.eqb_eq in E. contradiction. }
      simpl negb. cbv iota.
      now rewrite (validate_transition_duration_ok d Hd), result_bind_Ok.
    + rewrite Hdur.
      change (total_duration (first :: second :: rest))
        with (clip_duration first + total_duration (second :: rest))%Q.
      change (length (first :: second :: rest))
        with (S (length (second :: rest))).
      rewrite Nat2Z.inj_succ.
      replace (Z.succ (Z.of_nat (length (second :: rest))) - 1)
        with (Z.of_nat (length (second :: rest))) by lia.
      ring.
  - intros Hbad Hn.
    destruct clips as [|first [|second rest]]; simpl in Hn; try lia.
    destruct (decide (transition_type ∈ TRANSITIONS)) as [Ht | Ht].
    + destruct Hbad as [Hbad | Hbad]; [contradiction|].
      now apply apply_transitions_to_clips_rejects_duration.
    + now apply apply_transitions_to_clips_rejects_type.
  - intros Ht Hd A B HA Hshort HB.
    pose proof (overlap_duration_short A d Hshort) as Hov.
    assert (overlap_duration A d == clip_duration A / 2)%Q as Hhalf.
    { rewrite Hov. unfold Qdiv. reflexivity. }
    split; [exact Hhalf|].
    destruct (apply_transition_step A B transition_type d Ht Hnone Hd)
      as (r & Hr & Hstep).
    exists r. split; [exact Hr|].
    destruct (pairwise_step_duration A B d r Hstep HA) as [_ Hdur].
    { destruct Hd as [Hmin _]. unfold TRANSITION_DURATION_MIN in Hmin.
      rewrite Hhalf.
      destruct (Qlt_le_dec (clip_duration A) 0) as [Hneg | Hpos].
      - apply Qlt_le_weak.
        apply Qle_lt_trans with (y := 0%Q); [|lra].
        apply Qle_shift_div_r; [reflexivity|]. lra.
      - apply Qle_trans with (y := clip_duration A); [|lra].
        apply Qle_shift_div_r; [reflexivity|]. lra. }
    now rewrite Hdur, Hhalf.
Qed.

Lemma apply_transitions_to_clips_duration_witness :
  let seg := ColorClip (1080, 1920) 3 in
  ("fade" ≠ "none" ∧ "fade" ∈ TRANSITIONS
   ∧ valid_transition_duration (1 # 2))
  ∧ ∃ r, apply_transitions_to_clips [seg; seg] "fade" (1 # 2) = Ok r
         ∧ (clip_duration r
            == total_duration [seg; seg] - inject_Z (2 - 1) * (1 # 2))%Q.
Proof.
  intros seg.
  assert ("fade" ≠ "none") as Hnone by discriminate.
  assert ("fade" ∈ TRANSITIONS) as Ht
    by (apply list_elem_of_further, list_elem_of_here).
  assert (valid_transition_duration (1 # 2)) as Hd
    by (split; unfold Qle; simpl; lia).
  split; [repeat split; [exact Hnone | exact Ht | apply Hd | apply Hd]|].
  apply (proj1 (apply_transitions_to_clips_duration
                  [seg; seg] "fade" (1 # 2) Hnone) Ht Hd).
  - simpl. lia.
  - repeat constructor; unfold Qlt; simpl; lia.
Defined.

(** C3, counterexample to the claim as stated: two segments of 3 seconds
    that start at 0 are each strictly longer than the transition duration
    of 2.5 seconds, and the fade is other than ["none"], yet
    [apply_transitions_to_clips] raises [ValueError] instead of producing
    a clip of [3 + 3 - 2.5] seconds, because 2.5 is outside
    [[0.3, 2.0]]. *)
Theorem apply_transitions_to_clips_long_transition :
  Forall (λ c, fresh c ∧ (5 # 2 < clip_duration c)%Q)
    [ColorClip (1080, 1920) 3; ColorClip (1080, 1920) 3]
  ∧ "fade" ∈ TRANSITIONS ∧ "fade" ≠ "none"
  ∧ apply_transitions_to_clips
      [ColorClip (1080, 1920) 3; ColorClip (1080, 1920) 3] "fade" (5 # 2)
    = Raise ValueError.
Proof.
  split; [|split; [|split]].
  - repeat (apply Forall_cons_2;
            [split; [reflexivity|unfold Qlt; simpl; lia]|]).
    apply Forall_nil_2.
  - apply list_elem_of_further, list_elem_of_here.
  - discriminate.
  - vm_compute. reflexivity.
Qed.

(** C4, as the code has it. A single segment is returned unchanged,
    whatever the transition type and duration, and nothing can fail; an
    empty list of segments is refused with [ValueError]. *)
Theorem apply_transitions_to_clips_one_or_none
    (transition_type : string) (d : Q) :
  (∀ c : clip, apply_transitions_to_clips [c] transition_type d = Ok c)
  ∧ apply_transitions_to_clips [] transition_type d = Raise ValueError.
Proof. split; reflexivity. Qed.

(** C4, as stated, fails on the empty list: the compositor raises instead
    of returning the (empty) input. *)
Lemma apply_transitions_to_clips_empty_raises :
  apply_transitions_to_clips [] "fade" (1 # 2) = Raise ValueError
  ∧ ¬ ∃ r, apply_transitions_to_clips [] "fade" (1 # 2) = Ok r.
Proof.
  split; [reflexivity|]. intros [r Hr]. discriminate Hr.
Qed.

End TransitionFacts.

(** ** Subtitle renderer *)

Section SubtitleFacts.

Lemma precise_caption_spec (D : Q) (sub : subtitle_cue) :
  match precise_caption D sub with
  | Some cap => cue_shown D sub = true ∧ caption_of_cue D sub cap
  | None => cue_shown D sub = false
  end.
Proof.
  unfold precise_caption, cue_shown, cue_has_text, caption_of_cue,
    cue_end, cue_start.
  destruct (sub_text sub) as [text|]; [|reflexivity].
  destruct (String.eqb text EmptyString) eqn:Etext; [reflexivity|].
  set (start := default 0%Q (sub_start sub)).
  set (stop := default (start + 2)%Q (sub_end sub)).
  destruct (Qle_bool (stop - start) 0) eqn:Elen.
  { apply Qle_bool_iff in Elen. simpl.
    assert (flt start stop = false) as -> by (apply flt_false; lra).
    reflexivity. }
  assert (start < stop)%Q as Hlen.
  { apply Qnot_le_lt. intros H.
    assert (Qle_bool (stop - start) 0 = true) by (apply Qle_bool_iff; lra).
    congruence. }
  rewrite (proj2 (flt_true _ _) Hlen).
  destruct (Qle_bool D start) eqn:Elate.
  { apply Qle_bool_iff in Elate. simpl.
    now apply flt_false. }
  assert (start < D)%Q as Hbefore.
  { apply Qnot_le_lt. intros H. apply Qle_bool_iff in H. congruence. }
  rewrite (proj2 (flt_true _ _) Hbefore).
  split; [reflexivity|].
  unfold caption_end, caption_set_start, create_text_clip. simpl.
  repeat split.
  - intros Hover. rewrite (proj2 (flt_true _ _) Hover). ring.
  - intros Hin. rewrite (proj2 (flt_false _ _) Hin). ring.
Qed.

(** C5, as the code has it. With precise cues, the captions are, in
    order, one per cue that has a non-empty text, a positive length
    (end after start) and a start before the end of the composed video;
    every other cue is dropped, in particular every cue that starts at or
    after the composed duration. A caption has the text and the start of
    its cue; it ends with the cue, or exactly at the composed duration
    when the cue runs past it. *)
Theorem precise_subtitle_clips_one_per_shown_cue
    (D : Q) (cues : list subtitle_cue) :
  Forall2 (caption_of_cue D)
    (List.filter (cue_shown D) cues) (precise_subtitle_clips D cues)
  ∧ (∀ sub, sub ∈ cues → (D <= cue_start sub)%Q → cue_shown D sub = false).
Proof.
  split.
  - unfold precise_subtitle_clips.
    induction cues as [|sub cues IH]; [constructor|].
    simpl. pose proof (precise_caption_spec D sub) as Hsub.
    destruct (precise_caption D sub) as [cap|].
    + destruct Hsub as [-> Hcap]. now constructor.
    + now rewrite Hsub.
  - intros sub _ Hlate. unfold cue_shown.
    rewrite (proj2 (flt_false _ _) Hlate). apply andb_false_r.
Qed.

Lemma precise_subtitle_clips_one_per_shown_cue_witness :
  let inside := {| sub_text := Some "first";
                   sub_start := Some 8%Q; sub_end := Some 12%Q |} in
  let late := {| sub_text := Some "second";
                 sub_start := Some 11%Q; sub_end := Some 13%Q |} in
  (late ∈ [inside; late] ∧ (10 <= cue_start late)%Q)
  ∧ Forall2 (caption_of_cue 10)
      (List.filter (cue_shown 10) [inside; late])
      (precise_subtitle_clips 10 [inside; late])
  ∧ cue_shown 10 late = false.
Proof.
  intros inside late.
  assert (late ∈ [inside; late]) as Hin
    by (apply list_elem_of_further, list_elem_of_here).
  assert (10 <= cue_start late)%Q as Hlate by (unfold Qle; simpl; lia).
  destruct (precise_subtitle_clips_one_per_shown_cue 10 [inside; late])
    as [Hcaptions Hdropped].
  split; [split; assumption|].
  split; [exact Hcaptions|exact (Hdropped late Hin Hlate)].
Defined.

(** C5, as stated, fails for a cue of length zero: it has a non-empty
    text and starts before the end of the video, yet gets no caption. *)
Lemma zero_length_cue_gets_no_caption :
  let sub := {| sub_text := Some "hello";
                sub_start := Some 1%Q; sub_end := Some 1%Q |} in
  cue_has_text sub = true
  ∧ (cue_start sub < 10)%Q
  ∧ precise_subtitle_clips 10 [sub] = [].
Proof.
  simpl. repeat split.
Qed.

End SubtitleFacts.

(** ** Audio mixer *)

Section AudioMixerFacts.

Lemma validate_bgm_volume_ok (v : Q) :
  in_range BGM_VOLUME_MIN BGM_VOLUME_MAX v → validate_bgm_volume v = Ok v.
Proof.
  intros [Hlo Hhi]. unfold validate_bgm_volume.
  now rewrite (proj2 (flt_false _ _) Hlo), (proj2 (flt_false _ _) Hhi).
Qed.

Lemma validate_bgm_fade_in_ok (f : Q) :
  in_range BGM_FADE_IN_MIN BGM_FADE_IN_MAX f → validate_bgm_fade_in f = Ok f.
Proof.
  intros [Hlo Hhi]. unfold validate_bgm_fade_in.
  now rewrite (proj2 (flt_false _ _) Hlo), (proj2 (flt_false _ _) Hhi).
Qed.

Lemma validate_bgm_fade_out_ok (f : Q) :
  in_range BGM_FADE_OUT_MIN BGM_FADE_OUT_MAX f →
  validate_bgm_fade_out f = Ok f.
Proof.
  intros [Hlo Hhi]. unfold validate_bgm_fade_out.
  now rewrite (proj2 (flt_false _ _) Hlo), (proj2 (flt_false _ _) Hhi).
Qed.

(** Fades shape the envelope of a track and leave its duration alone. *)
Lemma apply_bgm_fade_effects_duration (a : audio_clip) (fade_in fade_out : Q) :
  in_range BGM_FADE_IN_MIN BGM_FADE_IN_MAX fade_in →
  in_range BGM_FADE_OUT_MIN BGM_FADE_OUT_MAX fade_out →
  ∃ a', apply_bgm_fade_effects a fade_in fade_out = Ok a'
        ∧ audio_duration a' = audio_duration a.
Proof.
  intros Hin Hout. unfold apply_bgm_fade_effects.
  rewrite (validate_bgm_fade_in_ok _ Hin), result_bind_Ok.
  rewrite (validate_bgm_fade_out_ok _ Hout), result_bind_Ok.
  eexists. split; [reflexivity|].
  unfold audio_fadein, audio_fadeout.
  destruct (flt 0 fade_in), (flt 0 fade_out); reflexivity.
Qed.

(** Cutting a track at a time inside it. *)
Lemma subclip_from_zero (a : audio_clip) (t : Q) :
  (0 <= audio_duration a)%Q → (0 <= t)%Q →
  ∃ a', subclip a 0 t = Ok a' ∧ (audio_duration a' == t)%Q.
Proof.
  intros Hdur Ht. unfold subclip.
  change (flt 0 0) with false. cbv iota.
  rewrite (proj2 (flt_false _ _) Hdur), (proj2 (flt_false _ _) Ht).
  eexists. split; [reflexivity|]. simpl. ring.
Qed.

(** Looping a track up to a target duration. *)
Lemma audio_loop_duration (a : audio_clip) (t : Q) :
  (0 < audio_duration a)%Q →
  ∃ a', audio_loop a t = Ok a' ∧ audio_duration a' = t.
Proof.
  intros Hdur. unfold audio_loop, truediv.
  destruct (Qeq_bool (audio_duration a) 0) eqn:E.
  { apply Qeq_bool_iff in E. lra. }
  rewrite result_bind_Ok. eexists. split; reflexivity.
Qed.

(** C6. For a BGM volume in [0, 1] and fades in [0, 5], mixing a BGM
    track with no narration and an explicit target duration gives a
    track of exactly the target duration (looped when shorter, cut when
    longer); with neither narration nor BGM the result is [None]. *)
Theorem mix_audio_tracks_bgm_only (bgm_volume bgm_fade_in bgm_fade_out : Q) :
  in_range BGM_VOLUME_MIN BGM_VOLUME_MAX bgm_volume →
  in_range BGM_FADE_IN_MIN BGM_FADE_IN_MAX bgm_fade_in →
  in_range BGM_FADE_OUT_MIN BGM_FADE_OUT_MAX bgm_fade_out →
  (∀ (bgm : audio_clip) (target : Q),
     (0 < audio_duration bgm)%Q → (0 <= target)%Q →
     ∃ mixed,
       mix_audio_tracks None (Some bgm) bgm_volume bgm_fade_in bgm_fade_out
         (Some target) = Ok (Some mixed)
       ∧ (audio_duration mixed == target)%Q)
  ∧ (∀ any_target,
       mix_audio_tracks None None bgm_volume bgm_fade_in bgm_fade_out
         any_target = Ok None).
Proof.
  intros Hvol Hin Hout. split.
  - intros bgm target Hbgm Htarget. unfold mix_audio_tracks.
    rewrite (validate_bgm_volume_ok _ Hvol), result_bind_Ok.
    rewrite (validate_bgm_fade_in_ok _ Hin), result_bind_Ok.
    rewrite (validate_bgm_fade_out_ok _ Hout), result_bind_Ok.
    simpl final_duration_of. cbv iota. rewrite result_bind_Ok.
    assert (∃ fitted,
              (if flt (audio_duration bgm) target
               then audio_loop bgm target
               else if flt target (audio_duration bgm)
                    then subclip bgm 0 target
                    else Ok bgm) = Ok fitted
              ∧ (audio_duration fitted == target)%Q)
      as (fitted & -> & Hfitted).
    { destruct (flt (audio_duration bgm) target) eqn:Eshort.
      - destruct (audio_loop_duration bgm target Hbgm) as (looped & -> & Hloop).
        exists looped. split; [reflexivity|]. now rewrite Hloop.
      - destruct (flt target (audio_duration bgm)) eqn:Elong.
        + apply subclip_from_zero; [lra|assumption].
        + exists bgm. split; [reflexivity|].
          apply flt_false in Eshort, Elong. lra. }
    rewrite result_bind_Ok.
    destruct (apply_bgm_fade_effects_duration
                (volumex fitted bgm_volume) bgm_fade_in bgm_fade_out Hin Hout)
      as (faded & -> & Hfaded).
    rewrite !result_bind_Ok. simpl app.
    exists faded. split; [reflexivity|].
    rewrite Hfaded. exact Hfitted.
  - intros any_target. unfold mix_audio_tracks.
    rewrite (validate_bgm_volume_ok _ Hvol), result_bind_Ok.
    rewrite (validate_bgm_fade_in_ok _ Hin), result_bind_Ok.
    rewrite (validate_bgm_fade_out_ok _ Hout), result_bind_Ok.
    destruct any_target; reflexivity.
Qed.

Lemma mix_audio_tracks_bgm_only_witness :
  let bgm := {| audio_duration := 3; audio_gain := 1 |} in
  (∃ mixed,
     mix_audio_tracks None (Some bgm) (3 # 10) 1 2 (Some 10%Q)
       = Ok (Some mixed)
     ∧ (audio_duration mixed == 10)%Q)
  ∧ (∀ any_target,
       mix_audio_tracks None None (3 # 10) 1 2 any_target = Ok None).
Proof.
  intros bgm.
  assert (in_range BGM_VOLUME_MIN BGM_VOLUME_MAX (3 # 10)) as Hvol
    by (split; unfold Qle; simpl; lia).
  assert (in_range BGM_FADE_IN_MIN BGM_FADE_IN_MAX 1) as Hin
    by (split; unfold Qle; simpl; lia).
  assert (in_range BGM_FADE_OUT_MIN BGM_FADE_OUT_MAX 2) as Hout
    by (split; unfold Qle; simpl; lia).
  destruct (mix_audio_tracks_bgm_only (3 # 10) 1 2 Hvol Hin Hout)
    as [Hbgm Hnone].
  split; [|exact Hnone].
  apply (Hbgm bgm 10%Q); unfold Qle, Qlt; simpl; lia.
Defined.

End AudioMixerFacts.

(** ** Task status response *)

Section TaskStatusFacts.

Import TaskStatus.

(** The status name is decided by the status code. *)
Lemma get_task_status_name_cases (status_code : Z) :
  (status_code = TASK_STATUS_PENDING
   ∧ get_task_status_name status_code = "pending")
  ∨ (status_code = TASK_STATUS_PROCESSING
     ∧ get_task_status_name status_code = "processing")
  ∨ (status_code = TASK_STATUS_COMPLETED
     ∧ get_task_status_name status_code = "completed")
  ∨ (status_code = TASK_STATUS_FAILED
     ∧ get_task_status_name status_code = "failed")
  ∨ (status_code ≠ TASK_STATUS_COMPLETED
     ∧ status_code ≠ TASK_STATUS_FAILED
     ∧ get_task_status_name status_code = "unknown").
Proof.
  unfold TASK_STATUS_PENDING, TASK_STATUS_PROCESSING, TASK_STATUS_COMPLETED,
    TASK_STATUS_FAILED.
  destruct (decide (status_code = 0)) as [->|H0]; [left; split; reflexivity|].
  destruct (decide (status_code = 1)) as [->|H1];
    [right; left; split; reflexivity|].
  destruct (decide (status_code = 2)) as [->|H2];
    [right; right; left; split; reflexivity|].
  destruct (decide (status_code = 3)) as [->|H3];
    [right; right; right; left; split; reflexivity|].
  right; right; right; right. repeat split; try assumption.
  unfold get_task_status_name, TASK_STATUS_NAMES. simpl.
  unfold TASK_STATUS_PENDING, TASK_STATUS_PROCESSING, TASK_STATUS_COMPLETED,
    TASK_STATUS_FAILED.
  rewrite !lookup_insert_ne by congruence. now rewrite lookup_empty.
Qed.

(** The conditional keys of the serialized response. *)
Lemma to_dict_download_url (r : TaskStatusResponse) :
  status r ≠ "completed" → to_dict r !! "download_url" = None.
Proof.
  intros Hs. apply String.eqb_neq in Hs. unfold to_dict, set_if_some.
  rewrite Hs. simpl.
  destruct (String.eqb (status r) "failed"), (nonempty (task_id r)),
    (nonempty (error_message r)); simpl; by simplify_map_eq.
Qed.

Lemma to_dict_duration (r : TaskStatusResponse) :
  status r ≠ "completed" → to_dict r !! "duration" = None.
Proof.
  intros Hs. apply String.eqb_neq in Hs. unfold to_dict, set_if_some.
  rewrite Hs. simpl.
  destruct (String.eqb (status r) "failed"), (nonempty (task_id r)),
    (nonempty (error_message r)); simpl; by simplify_map_eq.
Qed.

Lemma to_dict_error_message (r : TaskStatusResponse) :
  status r ≠ "failed" → to_dict r !! "error_message" = None.
Proof.
  intros Hs. apply String.eqb_neq in Hs. unfold to_dict, set_if_some.
  rewrite Hs. simpl.
  destruct (String.eqb (status r) "completed"), (nonempty (task_id r)),
    (nonempty (download_url r)), (duration r); simpl; by simplify_map_eq.
Qed.

Lemma to_dict_progress (r : TaskStatusResponse) :
  to_dict r !! "progress" = Some (VInt (progress r)).
Proof.
  unfold to_dict, set_if_some.
  destruct (String.eqb (status r) "completed"),
    (String.eqb (status r) "failed"), (nonempty (task_id r)),
    (nonempty (download_url r)), (duration r), (nonempty (error_message r));
    simpl; by simplify_map_eq.
Qed.

(** C7. For every status code and every integer progress, the response
    of [build_task_status_response] has a progress within [0, 100], which
    is 100 when the status is completed and 0 when it is failed; its
    serialized form carries [download_url] and [duration] only when the
    status is completed, and [error_message] only when it is failed. *)
Theorem build_task_status_response_invariant
    (status_code progress_in : Z)
    (progress_message error_message_in download_url_in : option string)
    (duration_in : option Q) (task_id_in : option string) :
  let r := build_task_status_response status_code progress_in
             progress_message error_message_in download_url_in
             duration_in task_id_in in
  0 <= progress r <= 100
  ∧ to_dict r !! "progress" = Some (VInt (progress r))
  ∧ (status_code = TASK_STATUS_COMPLETED →
     status r = "completed" ∧ progress r = 100)
  ∧ (status_code = TASK_STATUS_FAILED →
     status r = "failed" ∧ progress r = 0)
  ∧ (is_Some (to_dict r !! "download_url") →
     status_code = TASK_STATUS_COMPLETED ∧ status r = "completed")
  ∧ (is_Some (to_dict r !! "duration") →
     status_code = TASK_STATUS_COMPLETED ∧ status r = "completed")
  ∧ (is_Some (to_dict r !! "error_message") →
     status_code = TASK_STATUS_FAILED ∧ status r = "failed").
Proof.
  intros r.
  assert (status r = get_task_status_name status_code) as Hstatus
    by reflexivity.
  assert (progress r =
          if status_code =? TASK_STATUS_FAILED then 0
          else if status_code =? TASK_STATUS_COMPLETED then 100
               else Z.max 0 (Z.min 100 progress_in)) as Hprogress
    by reflexivity.
  assert (status_code ≠ TASK_STATUS_COMPLETED → status r ≠ "completed")
    as Hnot_completed.
  { intros Hne. rewrite Hstatus.
    destruct (get_task_status_name_cases status_code)
      as [[_ ->]|[[_ ->]|[[? _]|[[_ ->]|(_ & _ & ->)]]]];
      congruence. }
  assert (status_code ≠ TASK_STATUS_FAILED → status r ≠ "failed")
    as Hnot_failed.
  { intros Hne. rewrite Hstatus.
    destruct (get_task_status_name_cases status_code)
      as [[_ ->]|[[_ ->]|[[_ ->]|[[? _]|(_ & _ & ->)]]]];
      congruence. }
  repeat split.
  - rewrite Hprogress.
    destruct (status_code =? TASK_STATUS_FAILED),
      (status_code =? TASK_STATUS_COMPLETED); lia.
  - rewrite Hprogress.
    destruct (status_code =? TASK_STATUS_FAILED),
      (status_code =? TASK_STATUS_COMPLETED); lia.
  - apply to_dict_progress.
  - subst status_code. reflexivity.
  - subst status_code. reflexivity.
  - subst status_code. reflexivity.
  - subst status_code. reflexivity.
  - destruct (decide (status_code = TASK_STATUS_COMPLETED)); [assumption|].
    rewrite to_dict_download_url in H by auto. now destruct H.
  - destruct (decide (status_code = TASK_STATUS_COMPLETED)) as [->|];
      [reflexivity|].
    rewrite to_dict_download_url in H by auto. now destruct H.
  - destruct (decide (status_code = TASK_STATUS_COMPLETED)); [assumption|].
    rewrite to_dict_duration in H by auto. now destruct H.
  - destruct (decide (status_code = TASK_STATUS_COMPLETED)) as [->|];
      [reflexivity|].
    rewrite to_dict_duration in H by auto. now destruct H.
  - destruct (decide (status_code = TASK_STATUS_FAILED)); [assumption|].
    rewrite to_dict_error_message in H by auto. now destruct H.
  - destruct (decide (status_code = TASK_STATUS_FAILED)) as [->|];
      [reflexivity|].
    rewrite to_dict_error_message in H by auto. now destruct H.
Qed.

Lemma build_task_status_response_invariant_witness :
  let r := build_task_status_response TASK_STATUS_COMPLETED 150 None None
             (Some "http://example.com/download") (Some (21 # 2)) None in
  (TASK_STATUS_COMPLETED = TASK_STATUS_COMPLETED
   ∧ is_Some (to_dict r !! "download_url"))
  ∧ (status r = "completed" ∧ progress r = 100)
  ∧ (TASK_STATUS_COMPLETED = TASK_STATUS_COMPLETED ∧ status r = "completed").
Proof.
  intros r.
  assert (is_Some (to_dict r !! "download_url")) as Hurl
    by (eexists; reflexivity).
  destruct (build_task_status_response_invariant TASK_STATUS_COMPLETED 150
              None None (Some "http://example.com/download")
              (Some (21 # 2)) None)
    as (_ & _ & Hdone & _ & Hurl_only & _).
  split; [split; [reflexivity|exact Hurl]|].
  split; [exact (Hdone eq_refl)|exact (Hurl_only Hurl)].
Defined.

End TaskStatusFacts.

(** ** Configuration defaults *)

Section ConfigFacts.

Import Config.

(** The loop over the caller's keys is a left-biased union. *)
Lemma map_fold_keep_extra (result config : gmap string pyval) :
  map_fold keep_extra result config = result ∪ config.
Proof.
  apply (map_fold_weak_ind (λ r m, r = result ∪ m)).
  - now rewrite (right_id_L ∅ (∪)).
  - intros key value m r Hfresh ->. unfold keep_extra.
    destruct ((result ∪ m) !! key) as [old|] eqn:Hold.
    + apply map_eq. intros k. rewrite !lookup_union.
      destruct (decide (k = key)) as [->|Hne].
      * rewrite lookup_union, Hfresh in Hold.
        rewrite lookup_insert_eq, Hfresh.
        destruct (result !! key); [reflexivity|discriminate].
      * now rewrite lookup_insert_ne by congruence.
    + apply lookup_union_None in Hold as [Hres _].
      now apply insert_union_r.
Qed.

(** The entries that are always present: the caller's value, else the
    default. *)
Lemma lookup_filled_defaults (config : gmap string pyval)
    (defaults : list (string * pyval)) (key : string) :
  (list_to_map
     (map (λ entry, (fst entry, dict_get config (fst entry) (snd entry)))
          defaults) : gmap string pyval) !! key
  = dict_get config key <$> (list_to_map defaults : gmap string pyval) !! key.
Proof.
  induction defaults as [|[k d] defaults IH]; simpl.
  - now rewrite !lookup_empty.
  - destruct (decide (k = key)) as [->|Hne].
    + now rewrite !lookup_insert_eq.
    + now rewrite !lookup_insert_ne by assumption.
Qed.

Lemma lookup_get_config_with_defaults (config : option (gmap string pyval))
    (key : string) :
  get_config_with_defaults config !! key
  = match (list_to_map CONFIG_DEFAULTS : gmap string pyval) !! key with
    | Some dflt => Some (dict_get (default ∅ config) key dflt)
    | None => default ∅ config !! key
    end.
Proof.
  unfold get_config_with_defaults.
  rewrite map_fold_keep_extra, lookup_union, lookup_filled_defaults.
  destruct (list_to_map CONFIG_DEFAULTS !! key) as [dflt|]; simpl.
  - now destruct (default ∅ config !! key).
  - now destruct (default ∅ config !! key).
Qed.

(** C8. [get_config_with_defaults] is idempotent: normalizing a
    normalized configuration gives the same dictionary. *)
Theorem get_config_with_defaults_idempotent
    (config : option (gmap string pyval)) :
  get_config_with_defaults (Some (get_config_with_defaults config))
  = get_config_with_defaults config.
Proof.
  apply map_eq. intros key.
  rewrite (lookup_get_config_with_defaults (Some _)). simpl default.
  rewrite lookup_get_config_with_defaults.
  destruct (list_to_map CONFIG_DEFAULTS !! key) as [dflt|] eqn:Hkey;
    [|reflexivity].
  unfold dict_get at 1.
  now rewrite lookup_get_config_with_defaults, Hkey.
Qed.

End ConfigFacts.

(** ** Orchestrator: styling parameters *)

Section StylingFacts.

Import Render.

Lemma recognized_str (keys : list string) (s : string) :
  recognized keys (VStr s) ↔ s ∈ keys.
Proof.
  split.
  - intros (s' & Heq & Hin). now inversion Heq.
  - intros Hin. now exists s.
Qed.

Lemma py_member_spec (keys : list string) (dflt : string) (v : pyval) :
  hashable v → dflt ∈ keys →
  ∃ o, py_member v keys = Ok o
       ∧ enum_resolved keys dflt v (default dflt o)
       ∧ (o = None ↔ ¬ recognized keys v).
Proof.
  intros Hv Hdflt.
  assert (∀ w, (∀ s, w ≠ VStr s) → ¬ recognized keys w) as Hother.
  { intros w Hw (s & -> & _). now apply (Hw s). }
  assert ((∀ s, v ≠ VStr s) →
          ∃ o, py_member v keys = Ok o
               ∧ enum_resolved keys dflt v (default dflt o)
               ∧ (o = None ↔ ¬ recognized keys v)) as Hnone.
  { intros Hns. exists None. split.
    { destruct v; try contradiction; try reflexivity.
      exfalso. now eapply Hns. }
    split.
    - split; [exact Hdflt|]. split; [|reflexivity].
      intros Hrec. exfalso. exact (Hother v Hns Hrec).
    - split; [intros _; exact (Hother v Hns)|reflexivity]. }
  destruct v as [| b | z | q | s | l | d]; try (apply Hnone; discriminate).
  clear Hnone. unfold py_member, py_in. rewrite result_bind_Ok.
  destruct (str_in s keys) eqn:E.
  - apply str_in_true in E. exists (Some s). split; [reflexivity|].
    split; [|split; [discriminate|]].
    + split; [exact E|]. split; [intros _; reflexivity|].
      intros Hno. exfalso. apply Hno. now apply recognized_str.
    + intros Hno. exfalso. apply Hno. now apply recognized_str.
  - apply str_in_false in E. exists None. split; [reflexivity|].
    assert (¬ recognized keys (VStr s)) as Hno
      by (now rewrite recognized_str).
    split; [|split; [intros _; exact Hno|reflexivity]].
    split; [exact Hdflt|]. split; [|intros _; reflexivity].
    intros Hrec. contradiction.
Qed.

Lemma py_num_number (v : pyval) : is_number v → ∃ x, py_num v = Ok x.
Proof. destruct v; try contradiction; intros _; eexists; reflexivity. Qed.

Lemma py_min_py_max_clamped (lo hi x : Q) :
  (lo <= hi)%Q → clamped lo hi x (py_max lo (py_min hi x)).
Proof.
  intros Hle. unfold clamped, in_range, py_max, py_min.
  destruct (Qle_bool hi x) eqn:Ehi; simpl.
  - apply Qle_bool_iff in Ehi.
    destruct (Qle_bool hi lo) eqn:Elo; simpl.
    + apply Qle_bool_iff in Elo. repeat split; try lra; intros; lra.
    + repeat split; try lra; intros; lra.
  - assert (x < hi)%Q as Hx.
    { apply Qnot_le_lt. intros H. apply Qle_bool_iff in H. congruence. }
    destruct (Qle_bool x lo) eqn:Elo; simpl.
    + apply Qle_bool_iff in Elo. repeat split; try lra; intros; lra.
    + assert (lo < x)%Q as Hx'.
      { apply Qnot_le_lt. intros H. apply Qle_bool_iff in H. congruence. }
      repeat split; try lra; intros; lra.
Qed.

Lemma dict_get_typed (P : pyval → Prop) (config : gmap string pyval)
    (key : string) (dflt : pyval) :
  (∀ v, config !! key = Some v → P v) → P dflt →
  P (dict_get config key dflt).
Proof.
  intros Hconfig Hdflt. unfold dict_get.
  destruct (config !! key) as [v|]; simpl; auto.
Qed.

Lemma checked_duration_spec (x : Q) :
  let d := if flt x TRANSITION_DURATION_MIN || flt TRANSITION_DURATION_MAX x
           then TRANSITION_DURATION_DEFAULT else x in
  valid_transition_duration d
  ∧ (valid_transition_duration x → d = x)
  ∧ (¬ valid_transition_duration x → d = TRANSITION_DURATION_DEFAULT).
Proof.
  unfold valid_transition_duration.
  destruct (flt x TRANSITION_DURATION_MIN) eqn:Elo; simpl.
  - apply flt_true in Elo. repeat split.
    + unfold Qle; simpl; lia.
    + unfold Qle; simpl; lia.
    + intros [Hlo _]. exfalso. now apply (Qlt_not_le _ _ Elo).
  - apply flt_false in Elo.
    destruct (flt TRANSITION_DURATION_MAX x) eqn:Ehi; simpl.
    + apply flt_true in Ehi. repeat split.
      * unfold Qle; simpl; lia.
      * unfold Qle; simpl; lia.
      * intros [_ Hhi]. exfalso. now apply (Qlt_not_le _ _ Ehi).
    + apply flt_false in Ehi. repeat split; try assumption.
      intros Hbad. exfalso. apply Hbad. now split.
Qed.

(** Membership in a literal list. *)
Ltac in_list :=
  repeat first [ apply list_elem_of_here | apply list_elem_of_further ].

(** C10, as the code has it. For a configuration whose transition
    duration, brightness, contrast and saturation are numbers and whose
    fit mode, transition type, effect type and color filter are hashable
    values, reading the styling parameters does not raise, whatever the
    values are: an unrecognized fit mode, transition type or color filter
    is replaced by its default ("crop", "fade", "none"); an unrecognized
    effect type that is not empty is replaced by "none", while an empty or
    null effect type is kept and requests no effect; a transition duration
    outside [0.3, 2.0] is replaced by 0.5; brightness, contrast and
    saturation are clamped into their ranges. *)
Theorem resolve_styling_never_raises (config : gmap string pyval) :
  styling_typed config →
  ∃ st,
    resolve_styling config = Ok st
    ∧ enum_resolved FIT_MODES "crop"
        (dict_get config "fit_mode" (VStr "crop")) (st_fit_mode st)
    ∧ enum_resolved TRANSITIONS "fade"
        (dict_get config "transition_type" (VStr "fade"))
        (st_transition_type st)
    ∧ enum_resolved COLOR_FILTERS "none"
        (dict_get config "color_filter" (VStr "none")) (st_color_filter st)
    ∧ (let raw := dict_get config "effect_type" (VStr "none") in
       (py_truthy raw = true → ¬ recognized EFFECT_TYPES raw →
        st_effect_type st = VStr "none")
       ∧ (py_truthy raw = true → recognized EFFECT_TYPES raw →
          st_effect_type st = raw)
       ∧ (py_truthy raw = false →
          st_effect_type st = raw
          ∧ effect_requested (st_effect_type st) = false))
    ∧ (∃ x, py_num (raw_transition_duration config) = Ok x
            ∧ valid_transition_duration (st_transition_duration st)
            ∧ (valid_transition_duration x →
               st_transition_duration st = x)
            ∧ (¬ valid_transition_duration x →
               st_transition_duration st = TRANSITION_DURATION_DEFAULT))
    ∧ (∃ x, py_num (raw_brightness config) = Ok x
            ∧ clamped BRIGHTNESS_MIN BRIGHTNESS_MAX x (st_brightness st))
    ∧ (∃ x, py_num (raw_contrast config) = Ok x
            ∧ clamped CONTRAST_MIN CONTRAST_MAX x (st_contrast st))
    ∧ (∃ x, py_num (raw_saturation config) = Ok x
            ∧ clamped SATURATION_MIN SATURATION_MAX x (st_saturation st)).
Proof.
  intros [Hnum Henum].
  assert (∀ key dflt, key ∈ ENUM_STYLING_KEYS →
                      hashable (dict_get config key (VStr dflt))) as Hhash.
  { intros key dflt Hkey. apply dict_get_typed; [|exact I].
    intros v. now apply Henum. }
  assert (∀ key dflt, key ∈ NUMERIC_STYLING_KEYS →
                      ∃ x, py_num (dict_get config key (VFloat dflt)) = Ok x)
    as Hnumber.
  { intros key dflt Hkey. apply py_num_number.
    apply dict_get_typed; [|exact I]. intros v. now apply Hnum. }
  destruct (py_member_spec FIT_MODES "crop"
              (dict_get config "fit_mode" (VStr "crop")))
    as (fit & Efit & Rfit & _);
    [apply Hhash; unfold ENUM_STYLING_KEYS; in_list
    |unfold FIT_MODES; in_list|].
  destruct (py_member_spec TRANSITIONS "fade"
              (dict_get config "transition_type" (VStr "fade")))
    as (tr & Etr & Rtr & _);
    [apply Hhash; unfold ENUM_STYLING_KEYS; in_list
    |unfold TRANSITIONS; in_list|].
  destruct (py_member_spec COLOR_FILTERS "none"
              (dict_get config "color_filter" (VStr "none")))
    as (cf & Ecf & Rcf & _);
    [apply Hhash; unfold ENUM_STYLING_KEYS; in_list
    |unfold COLOR_FILTERS; in_list|].
  destruct (py_member_spec EFFECT_TYPES "none"
              (dict_get config "effect_type" (VStr "none")))
    as (fx & Efx & _ & Rfx);
    [apply Hhash; unfold ENUM_STYLING_KEYS; in_list
    |unfold EFFECT_TYPES; in_list|].
  destruct (Hnumber "transition_duration" TRANSITION_DURATION_DEFAULT)
    as (td & Etd); [unfold NUMERIC_STYLING_KEYS; in_list|].
  destruct (Hnumber "brightness" BRIGHTNESS_DEFAULT)
    as (br & Ebr); [unfold NUMERIC_STYLING_KEYS; in_list|].
  destruct (Hnumber "contrast" CONTRAST_DEFAULT)
    as (ct & Ect); [unfold NUMERIC_STYLING_KEYS; in_list|].
  destruct (Hnumber "saturation" SATURATION_DEFAULT)
    as (sa & Esa); [unfold NUMERIC_STYLING_KEYS; in_list|].
  unfold resolve_styling, clamp. cbv zeta.
  rewrite Efit, result_bind_Ok, Etr, result_bind_Ok, Etd, result_bind_Ok.
  assert ((if py_truthy (dict_get config "effect_type" (VStr "none"))
           then py_member (dict_get config "effect_type" (VStr "none"))
                  EFFECT_TYPES
                ≫= λ effect_key,
                  Ok match effect_key with
                     | Some _ => dict_get config "effect_type" (VStr "none")
                     | None => VStr "none"
                     end
           else Ok (dict_get config "effect_type" (VStr "none")))
          = Ok (if py_truthy (dict_get config "effect_type" (VStr "none"))
                then match fx with
                     | Some _ => dict_get config "effect_type" (VStr "none")
                     | None => VStr "none"
                     end
                else dict_get config "effect_type" (VStr "none"))) as ->.
  { destruct (py_truthy _); [|reflexivity].
    now rewrite Efx, result_bind_Ok. }
  rewrite result_bind_Ok, Ecf, result_bind_Ok.
  rewrite Ebr, !result_bind_Ok, Ect, !result_bind_Ok, Esa, !result_bind_Ok.
  eexists. split; [reflexivity|]. cbn [st_fit_mode st_transition_type
    st_color_filter st_effect_type st_transition_duration st_brightness
    st_contrast st_saturation].
  split; [exact Rfit|]. split; [exact Rtr|]. split; [exact Rcf|].
  split.
  { cbv zeta. destruct (py_truthy _) eqn:Etruthy.
    - split; [|split; [|discriminate]].
      + intros _ Hno. apply Rfx in Hno. now subst fx.
      + intros _ Hyes. destruct fx; [reflexivity|].
        exfalso. now apply (proj1 Rfx eq_refl).
    - split; [discriminate|]. split; [discriminate|].
      intros _. split; [reflexivity|].
      unfold effect_requested. now rewrite Etruthy. }
  split.
  { exists td. split; [exact Etd|]. apply checked_duration_spec. }
  split.
  { exists br. split; [exact Ebr|].
    apply py_min_py_max_clamped. unfold Qle; simpl; lia. }
  split.
  { exists ct. split; [exact Ect|].
    apply py_min_py_max_clamped. unfold Qle; simpl; lia. }
  exists sa. split; [exact Esa|].
  apply py_min_py_max_clamped. unfold Qle; simpl; lia.
Qed.

Lemma resolve_styling_never_raises_witness :
  let config : gmap string pyval :=
    <["fit_mode" := VStr "zoom"]>
      (<["transition_duration" := VFloat 5]>
         (<["effect_type" := VStr "sparkle"]>
            (<["brightness" := VInt 3]> ∅))) in
  styling_typed config ∧ ∃ st, resolve_styling config = Ok st.
Proof.
  intros config.
  assert (styling_typed config) as Htyped.
  { split; intros key v Hkey Hget;
      unfold NUMERIC_STYLING_KEYS, ENUM_STYLING_KEYS in Hkey;
      repeat (apply elem_of_cons in Hkey as [-> | Hkey]);
      try (apply elem_of_nil in Hkey; contradiction);
      vm_compute in Hget; inversion Hget; exact I. }
  split; [exact Htyped|].
  destruct (resolve_styling_never_raises config Htyped) as (st & Hst & _).
  exists st. exact Hst.
Defined.

(** C10, counterexample to the claim as stated (for every configuration):
    a brightness given as text is not clamped and a fit mode given as a
    list is not replaced by its default, reading the styling parameters
    raises [TypeError]; and a null effect type is kept, not replaced by
    "none". *)
Theorem resolve_styling_untyped_raises :
  resolve_styling {[ "brightness" := VStr "bright" ]} = Raise TypeError
  ∧ resolve_styling {[ "fit_mode" := VList [VStr "crop"] ]} = Raise TypeError
  ∧ ∃ st, resolve_styling {[ "effect_type" := VNone ]} = Ok st
          ∧ st_effect_type st = VNone.
Proof.
  split; [vm_compute; reflexivity|].
  split; [vm_compute; reflexivity|].
  eexists. split; [vm_compute; reflexivity|]. reflexivity.
Qed.

End StylingFacts.

(** ** Orchestrator: soft failure of transforms and transitions *)

Section SoftFailFacts.

Import Render.

Variable apply_video_effect : clip → pyval → Q → result clip.
Variable apply_color_filter : clip → string → result clip.
Variable apply_video_adjustments : clip → Q → Q → Q → result clip.
Variable apply_transitions : list clip → string → Q → result clip.

Lemma effect_stage_soft (c : clip) (effect_type : pyval) (seg : Q) (e : exn) :
  apply_video_effect c effect_type seg = Raise e →
  effect_stage apply_video_effect c effect_type seg = c.
Proof.
  intros Hfail. unfold effect_stage. rewrite Hfail.
  now destruct (effect_requested effect_type).
Qed.

Lemma filter_stage_soft (c : clip) (color_filter : string) (e : exn) :
  apply_color_filter c color_filter = Raise e →
  filter_stage apply_color_filter c color_filter = c.
Proof.
  intros Hfail. unfold filter_stage. rewrite Hfail.
  now destruct (_ && _).
Qed.

Lemma adjust_stage_soft (c : clip) (b ct s : Q) (e : exn) :
  apply_video_adjustments c b ct s = Raise e →
  adjust_stage apply_video_adjustments c b ct s = c.
Proof.
  intros Hfail. unfold adjust_stage. rewrite Hfail.
  now destruct (_ || _).
Qed.

Lemma compose_segments_soft (first second : clip) (rest : list clip)
    (size : Z * Z) (total : Q) (st : styling) (e : exn) :
  apply_transitions (first :: second :: rest) (st_transition_type st)
    (st_transition_duration st) = Raise e →
  compose_segments apply_transitions (first :: second :: rest) size total st
  = concatenate_videoclips first (second :: rest).
Proof.
  intros Hfail. unfold compose_segments. rewrite Hfail.
  now destruct (_ && _).
Qed.

(** A segment is lost only when adapting it to the canvas raises. *)
Lemma build_segment_raises_only_in_adapt (src : segment_source)
    (size : Z * Z) (st : styling) (seg : Q) (e : exn) :
  build_segment apply_video_effect apply_color_filter
    apply_video_adjustments src size st seg = Raise e →
  ∃ c, adapt_media_to_size c size (st_fit_mode st) = Raise e.
Proof.
  unfold build_segment. destruct src as [image|video|].
  - destruct (adapt_media_to_size _ size (st_fit_mode st)) as [c|e'] eqn:E.
    + rewrite result_bind_Ok. discriminate.
    + intros [= <-]. eauto.
  - destruct (adapt_media_to_size _ size (st_fit_mode st)) as [c|e'] eqn:E.
    + rewrite result_bind_Ok. discriminate.
    + intros [= <-]. eauto.
  - rewrite result_bind_Ok. discriminate.
Qed.

(** The whole timeline is lost only when adapting a segment raises. *)
Lemma render_timeline_raises_only_in_adapt (sources : list segment_source)
    (size : Z * Z) (st : styling) (seg total : Q) (e : exn) :
  render_timeline apply_video_effect apply_color_filter
    apply_video_adjustments apply_transitions sources size st seg total
  = Raise e →
  ∃ c, adapt_media_to_size c size (st_fit_mode st) = Raise e.
Proof.
  unfold render_timeline.
  set (build := λ src, build_segment apply_video_effect apply_color_filter
                         apply_video_adjustments src size st seg).
  assert (∀ e', mapM build sources = Raise e' →
                ∃ c, adapt_media_to_size c size (st_fit_mode st) = Raise e')
    as Hsegments.
  { induction sources as [|src sources IH]; intros e'; simpl.
    - discriminate.
    - destruct (build src) as [c|e1] eqn:Esrc.
      + rewrite result_bind_Ok.
        destruct (mapM build sources) as [cs|e2].
        * rewrite result_bind_Ok. discriminate.
        * intros [= <-]. now apply IH.
      + intros [= <-].
        now apply (build_segment_raises_only_in_adapt src size st seg). }
  destruct (mapM build sources) as [cs|e'] eqn:Eall.
  - rewrite result_bind_Ok. discriminate.
  - intros [= <-]. now apply Hsegments.
Qed.

(** When every transform raises, the segment is the adapted source. *)
Lemma build_segment_all_fail (image : clip) (size : Z * Z) (st : styling)
    (seg : Q) :
  (∀ c t d, ∃ e, apply_video_effect c t d = Raise e) →
  (∀ c f, ∃ e, apply_color_filter c f = Raise e) →
  (∀ c b ct s, ∃ e, apply_video_adjustments c b ct s = Raise e) →
  build_segment apply_video_effect apply_color_filter
    apply_video_adjustments (ImageSource image) size st seg
  = adapt_media_to_size image size (st_fit_mode st).
Proof.
  intros Hfx Hcf Hadj. unfold build_segment.
  destruct (Hfx image (st_effect_type st) seg) as [e He].
  rewrite (effect_stage_soft _ _ _ _ He).
  destruct (adapt_media_to_size image size (st_fit_mode st)) as [c|e'];
    [|reflexivity].
  rewrite result_bind_Ok.
  destruct (Hcf c (st_color_filter st)) as [e1 He1].
  rewrite (filter_stage_soft _ _ _ He1).
  destruct (Hadj c (st_brightness st) (st_contrast st) (st_saturation st))
    as [e2 He2].
  now rewrite (adjust_stage_soft _ _ _ _ _ He2).
Qed.

End SoftFailFacts.

Section SoftFailClaim.

Import Render.

(** C9. If the motion effect, the color filter, the
    brightness/contrast/saturation adjustment or the transition raises
    during a render, the render does not abort: the clip is used as it
    was before the transform (for transitions, the segments are
    concatenated without transition), and neither a segment nor the
    composed timeline is ever lost because of a transform or a transition:
    the only step that can still raise is the adaptation to the canvas. *)
Theorem transform_failure_is_soft
    (apply_video_effect : clip → pyval → Q → result clip)
    (apply_color_filter : clip → string → result clip)
    (apply_video_adjustments : clip → Q → Q → Q → result clip)
    (apply_transitions : list clip → string → Q → result clip) :
  (∀ c effect_type seg e,
     apply_video_effect c effect_type seg = Raise e →
     effect_stage apply_video_effect c effect_type seg = c)
  ∧ (∀ c color_filter e,
       apply_color_filter c color_filter = Raise e →
       filter_stage apply_color_filter c color_filter = c)
  ∧ (∀ c brightness contrast saturation e,
       apply_video_adjustments c brightness contrast saturation = Raise e →
       adjust_stage apply_video_adjustments c brightness contrast saturation
       = c)
  ∧ (∀ first second rest size total st e,
       apply_transitions (first :: second :: rest) (st_transition_type st)
         (st_transition_duration st) = Raise e →
       compose_segments apply_transitions (first :: second :: rest)
         size total st
       = concatenate_videoclips first (second :: rest))
  ∧ (∀ src size st seg e,
       build_segment apply_video_effect apply_color_filter
         apply_video_adjustments src size st seg = Raise e →
       ∃ c, adapt_media_to_size c size (st_fit_mode st) = Raise e)
  ∧ (∀ sources size st seg total e,
       render_timeline apply_video_effect apply_color_filter
         apply_video_adjustments apply_transitions sources size st seg total
       = Raise e →
       ∃ c, adapt_media_to_size c size (st_fit_mode st) = Raise e)
  ∧ (∀ image size st seg,
       (∀ c t d, ∃ e, apply_video_effect c t d = Raise e) →
       (∀ c f, ∃ e, apply_color_filter c f = Raise e) →
       (∀ c b ct s, ∃ e, apply_video_adjustments c b ct s = Raise e) →
       build_segment apply_video_effect apply_color_filter
         apply_video_adjustments (ImageSource image) size st seg
       = adapt_media_to_size image size (st_fit_mode st)).
Proof.
  split; [apply effect_stage_soft|].
  split; [apply filter_stage_soft|].
  split; [apply adjust_stage_soft|].
  split; [apply compose_segments_soft|].
  split; [apply build_segment_raises_only_in_adapt|].
  split; [apply render_timeline_raises_only_in_adapt|].
  apply build_segment_all_fail.
Qed.

Lemma transform_failure_is_soft_witness :
  let broken_effect : clip → pyval → Q → result clip :=
    λ _ _ _, Raise RuntimeError in
  let broken_filter : clip → string → result clip :=
    λ _ _, Raise RuntimeError in
  let broken_adjust : clip → Q → Q → Q → result clip :=
    λ _ _ _ _, Raise RuntimeError in
  let broken_transitions : list clip → string → Q → result clip :=
    λ _ _ _, Raise RuntimeError in
  let image := ColorClip (800, 600) 3 in
  let st := {| st_fit_mode := "stretch";
               st_transition_enabled := VBool true;
               st_transition_type := "fade";
               st_transition_duration := 1 # 2;
               st_effect_type := VStr "shake";
               st_color_filter := "warm";
               st_brightness := 3 # 2;
               st_contrast := 1;
               st_saturation := 1 |} in
  (broken_effect image (VStr "shake") 3%Q = Raise RuntimeError
   ∧ broken_transitions [image; image] "fade" (1 # 2)%Q = Raise RuntimeError)
  ∧ effect_stage broken_effect image (VStr "shake") 3 = image
  ∧ compose_segments broken_transitions [image; image] (800, 600) 6 st
    = concatenate_videoclips image [image]
  ∧ build_segment broken_effect broken_filter broken_adjust
      (ImageSource image) (1080, 1920) st 3
    = adapt_media_to_size image (1080, 1920) "stretch".
Proof.
  intros broken_effect broken_filter broken_adjust broken_transitions
    image st.
  destruct (transform_failure_is_soft broken_effect broken_filter
              broken_adjust broken_transitions)
    as (Hfx & _ & _ & Htr & _ & _ & Hall).
  split; [split; reflexivity|].
  split; [exact (Hfx image (VStr "shake") 3%Q RuntimeError eq_refl)|].
  split; [exact (Htr image image [] (800, 600) 6%Q st RuntimeError eq_refl)|].
  apply (Hall image (1080, 1920) st 3%Q);
    intros; exists RuntimeError; reflexivity.
Defined.

End SoftFailClaim.

(** * Further properties of the engine *)

(** ** Configuration defaults *)

Section ConfigMoreFacts.

Import Config.

(** X1. [get_config_with_defaults] never overrides the caller: every key
    of the input, known or not, keeps its value in the result. *)
Theorem get_config_with_defaults_keeps_input
    (config : gmap string pyval) (key : string) (value : pyval) :
  config !! key = Some value →
  get_config_with_defaults (Some config) !! key = Some value.
Proof.
  intros Hkey. rewrite lookup_get_config_with_defaults. simpl default.
  destruct (list_to_map CONFIG_DEFAULTS !! key) as [dflt|].
  - unfold dict_get. now rewrite Hkey.
  - exact Hkey.
Qed.

Lemma get_config_with_defaults_keeps_input_witness :
  let config : gmap string pyval :=
    <["brightness" := VFloat (3 # 2)]> (<["watermark" := VStr "logo"]> ∅) in
  get_config_with_defaults (Some config) !! "watermark" = Some (VStr "logo").
Proof.
  intros config.
  apply (get_config_with_defaults_keeps_input config "watermark" (VStr "logo")).
  reflexivity.
Defined.

(** X2. A key that the input lacks is in the result exactly when it is one
    of the 26 known keys, and then with its default value: missing values
    are filled in and nothing else is invented. The same holds for a
    missing ([None]) input. *)
Theorem get_config_with_defaults_fills_only_defaults
    (config : option (gmap string pyval)) (key : string) :
  default ∅ config !! key = None →
  get_config_with_defaults config !! key
  = (list_to_map CONFIG_DEFAULTS : gmap string pyval) !! key.
Proof.
  intros Hkey. rewrite lookup_get_config_with_defaults.
  destruct (list_to_map CONFIG_DEFAULTS !! key) as [dflt|]; [|exact Hkey].
  unfold dict_get. now rewrite Hkey.
Qed.

Lemma get_config_with_defaults_fills_only_defaults_witness :
  get_config_with_defaults (Some (<["brightness" := VFloat (3 # 2)]> ∅))
    !! "video_fps"
  = (list_to_map CONFIG_DEFAULTS : gmap string pyval) !! "video_fps".
Proof.
  apply (get_config_with_defaults_fills_only_defaults
           (Some (<["brightness" := VFloat (3 # 2)]> ∅)) "video_fps").
  reflexivity.
Defined.

End ConfigMoreFacts.

(** ** Transition catalogue *)

Section TransitionConfigFacts.

Import TransitionConfig.

(** Splits a membership in a literal list into one goal per element. *)
Ltac each_member H :=
  repeat (apply elem_of_cons in H as [-> | H]);
  try (apply elem_of_nil in H; contradiction).

Lemma TRANSITIONS_are_table_keys : TRANSITIONS = TRANSITION_ENTRIES.*1.
Proof. reflexivity. Qed.

Lemma transition_table_lookup (t : string) :
  t ∈ TRANSITIONS →
  ∃ name dflt, TRANSITION_TABLE !! t = Some (name, dflt)
               ∧ dflt = (if String.eqb t "none" then 0%Q else (1 # 2)%Q).
Proof.
  intros Ht. unfold TRANSITIONS in Ht.
  each_member Ht; eexists _, _; split; reflexivity.
Qed.

(** X3. [get_transition_config]: an unknown type is refused; for ["none"]
    the duration is 0 whatever duration is asked for, even an invalid one;
    for any other type the duration is the default 0.5 when none is given,
    the given one when it lies in [0.3, 2.0], and a [ValueError]
    otherwise. The type is always reported back. *)
Theorem get_transition_config_cases (t : string) (duration : option Q) :
  (t ∉ TRANSITIONS → get_transition_config t duration = Raise ValueError)
  ∧ (t ∈ TRANSITIONS →
     (t = "none" →
      ∃ c, get_transition_config t duration = Ok c
           ∧ tc_type c = t ∧ tc_duration c = 0%Q)
     ∧ (t ≠ "none" → duration = None →
        ∃ c, get_transition_config t duration = Ok c
             ∧ tc_type c = t ∧ tc_duration c = (1 # 2)%Q)
     ∧ (t ≠ "none" → ∀ d, duration = Some d →
        valid_transition_duration d →
        ∃ c, get_transition_config t duration = Ok c
             ∧ tc_type c = t ∧ tc_duration c = d)
     ∧ (t ≠ "none" → ∀ d, duration = Some d →
        ¬ valid_transition_duration d →
        get_transition_config t duration = Raise ValueError)).
Proof.
  split.
  - intros Ht. unfold get_transition_config, validate_transition_type.
    now rewrite (proj2 (str_in_false _ _) Ht).
  - intros Ht.
    destruct (transition_table_lookup t Ht) as (name & dflt & Hrow & Hdflt).
    unfold get_transition_config.
    rewrite (validate_transition_type_ok t Ht), result_bind_Ok, Hrow.
    repeat split.
    + intros ->. simpl in Hdflt. subst dflt.
      destruct duration; simpl; eexists; repeat split.
    + intros Hnone ->. apply String.eqb_neq in Hnone. rewrite Hnone in Hdflt.
      subst dflt. rewrite result_bind_Ok. eexists; repeat split.
    + intros Hnone d -> Hd. apply String.eqb_neq in Hnone. rewrite Hnone.
      simpl negb. cbv iota.
      rewrite (validate_transition_duration_ok d Hd), !result_bind_Ok.
      eexists; repeat split.
    + intros Hnone d -> Hd. apply String.eqb_neq in Hnone. rewrite Hnone.
      simpl negb. cbv iota.
      now rewrite (validate_transition_duration_raises d Hd).
Qed.

Lemma get_transition_config_cases_witness :
  (("bounce" ∉ TRANSITIONS) ∧ ("none" ∈ TRANSITIONS))
  ∧ get_transition_config "bounce" (Some (1 # 2)) = Raise ValueError
  ∧ ∃ c, get_transition_config "none" (Some 9%Q) = Ok c
         ∧ tc_type c = "none" ∧ tc_duration c = 0%Q.
Proof.
  assert ("bounce" ∉ TRANSITIONS) as Hbad.
  { apply str_in_false. vm_compute. reflexivity. }
  assert ("none" ∈ TRANSITIONS) as Hgood by apply list_elem_of_here.
  split; [split; assumption|]. split.
  - exact (proj1 (get_transition_config_cases "bounce" (Some (1 # 2))) Hbad).
  - destruct (proj2 (get_transition_config_cases "none" (Some 9%Q)) Hgood)
      as (Hnone & _).
    exact (Hnone eq_refl).
Defined.

End TransitionConfigFacts.

(** ** Transition compositor: hard cuts and canvas size *)

Section TransitionMoreFacts.

Lemma concatenate_two_duration (A B : clip) :
  (clip_duration (concatenate_videoclips A [B])
   == clip_duration A + clip_duration B)%Q.
Proof. reflexivity. Qed.

Lemma fold_transitions_none (d : Q) (rest : list clip) :
  ∀ acc : clip,
    ∃ r, fold_transitions acc rest "none" d = Ok r
         ∧ clip_size r = clip_size acc
         ∧ (clip_duration r == clip_duration acc + total_duration rest)%Q.
Proof.
  induction rest as [|c rest IH]; intros acc.
  - exists acc. repeat split. simpl. ring.
  - destruct (IH (concatenate_videoclips acc [c])) as (r & Hr & Hsize & Hdur).
    exists r. split; [exact Hr|]. split; [exact Hsize|].
    rewrite Hdur, concatenate_two_duration. simpl total_duration. ring.
Qed.

(** X4. With the transition type ["none"] the compositor is a hard cut:
    for every non-empty list of segments and every duration argument,
    valid or not, it returns one clip whose duration is the plain sum of
    the segment durations. *)
Theorem apply_transitions_to_clips_none_is_hard_cut
    (clips : list clip) (d : Q) :
  clips ≠ [] →
  ∃ r, apply_transitions_to_clips clips "none" d = Ok r
       ∧ (clip_duration r == total_duration clips)%Q.
Proof.
  intros Hne. destruct clips as [|first [|second rest]]; [contradiction| |].
  - exists first. split; [reflexivity|]. simpl. ring.
  - destruct (fold_transitions_none d (second :: rest) first)
      as (r & Hr & _ & Hdur).
    exists r. split; [exact Hr|]. rewrite Hdur. reflexivity.
Qed.

Lemma apply_transitions_to_clips_none_is_hard_cut_witness :
  let seg := ColorClip (1080, 1920) 3 in
  [seg; seg; seg] ≠ []
  ∧ ∃ r, apply_transitions_to_clips [seg; seg; seg] "none" 7%Q = Ok r
         ∧ (clip_duration r == total_duration [seg; seg; seg])%Q.
Proof.
  intros seg. split; [discriminate|].
  apply (apply_transitions_to_clips_none_is_hard_cut [seg; seg; seg] 7%Q).
  discriminate.
Defined.

Lemma pairwise_step_size (A B : clip) (d : Q) (r : clip) :
  pairwise_step A B d r → clip_size r = clip_size A.
Proof. intros Hstep. destruct Hstep; reflexivity. Qed.

Lemma fold_transitions_size (t : string) (d : Q) :
  t ∈ TRANSITIONS → t ≠ "none" → valid_transition_duration d →
  ∀ (rest : list clip) (acc : clip),
    ∃ r, fold_transitions acc rest t d = Ok r ∧ clip_size r = clip_size acc.
Proof.
  intros Ht Hnone Hd rest.
  induction rest as [|c rest IH]; intros acc.
  - exists acc. split; reflexivity.
  - destruct (apply_transition_step acc c t d Ht Hnone Hd)
      as (r1 & Hr1 & Hstep).
    destruct (IH r1) as (r & Hr & Hsize).
    exists r. split.
    + simpl. now rewrite Hr1, result_bind_Ok.
    + rewrite Hsize. now apply (pairwise_step_size acc c d).
Qed.

(** X5. For a non-empty list of segments of any durations, a supported
    transition type and a duration in [0.3, 2.0] (any duration for
    ["none"]), the compositor succeeds and the composed clip has the pixel
    size of the first segment: transitions never change the canvas. *)
Theorem apply_transitions_to_clips_keeps_size
    (first : clip) (rest : list clip) (t : string) (d : Q) :
  t ∈ TRANSITIONS →
  t = "none" ∨ valid_transition_duration d →
  ∃ r, apply_transitions_to_clips (first :: rest) t d = Ok r
       ∧ clip_size r = clip_size first.
Proof.
  intros Ht Hd.
  destruct rest as [|second rest]; [exists first; split; reflexivity|].
  destruct (decide (t = "none")) as [->|Hnone].
  - destruct (fold_transitions_none d (second :: rest) first)
      as (r & Hr & Hsize & _).
    exists r. split; [exact Hr|exact Hsize].
  - destruct Hd as [?|Hd]; [contradiction|].
    destruct (fold_transitions_size t d Ht Hnone Hd (second :: rest) first)
      as (r & Hr & Hsize).
    exists r. split; [|exact Hsize].
    unfold apply_transitions_to_clips.
    rewrite (validate_transition_type_ok t Ht), result_bind_Ok.
    apply String.eqb_neq in Hnone. rewrite Hnone. simpl negb. cbv iota.
    now rewrite (validate_transition_duration_ok d Hd), result_bind_Ok.
Qed.

Lemma apply_transitions_to_clips_keeps_size_witness :
  let short := ColorClip (1080, 1920) (1 # 10) in
  ("wipe_left" ∈ TRANSITIONS ∧ valid_transition_duration 2)
  ∧ ∃ r, apply_transitions_to_clips [short; short; short] "wipe_left" 2 = Ok r
         ∧ clip_size r = (1080, 1920).
Proof.
  intros short.
  assert ("wipe_left" ∈ TRANSITIONS) as Ht
    by (apply str_in_true; vm_compute; reflexivity).
  assert (valid_transition_duration 2) as Hd
    by (split; unfold Qle; simpl; lia).
  split; [split; assumption|].
  apply (apply_transitions_to_clips_keeps_size short [short; short]
           "wipe_left" 2 Ht (or_intror Hd)).
Defined.

End TransitionMoreFacts.

(** ** Slide transition: positions of the two clips *)

Section SlideFacts.

Import TransitionConfig.

Lemma truediv_nonzero (a b : Q) :
  ¬ (b == 0)%Q → truediv a b = Ok (a / b)%Q.
Proof.
  intros Hb. unfold truediv.
  destruct (Qeq_bool b 0) eqn:E; [|reflexivity].
  apply Qeq_bool_iff in E. contradiction.
Qed.

Lemma py_max_spec (a b : Q) :
  ((a <= b)%Q → py_max a b == b)%Q ∧ ((b <= a)%Q → py_max a b == a)%Q.
Proof.
  unfold py_max. destruct (Qle_bool b a) eqn:E; simpl.
  - apply Qle_bool_iff in E. split; intros; lra.
  - assert (a < b)%Q.
    { apply Qnot_le_lt. intros H. apply Qle_bool_iff in H. congruence. }
    split; intros; lra.
Qed.

Lemma py_min_spec (a b : Q) :
  ((a <= b)%Q → py_min a b == a)%Q ∧ ((b <= a)%Q → py_min a b == b)%Q.
Proof.
  unfold py_min. destruct (Qle_bool a b) eqn:E; simpl.
  - apply Qle_bool_iff in E. split; intros; lra.
  - assert (b < a)%Q.
    { apply Qnot_le_lt. intros H. apply Qle_bool_iff in H. congruence. }
    split; intros; lra.
Qed.

Lemma clamp01_spec (p : Q) :
  (0 <= clamp01 p)%Q ∧ (clamp01 p <= 1)%Q
  ∧ ((p <= 0)%Q → (clamp01 p == 0)%Q)
  ∧ ((1 <= p)%Q → (clamp01 p == 1)%Q)
  ∧ ((0 <= p)%Q → (p <= 1)%Q → (clamp01 p == p)%Q).
Proof.
  unfold clamp01.
  destruct (py_max_spec 0 p) as [Hmax1 Hmax2].
  destruct (py_min_spec 1 (py_max 0 p)) as [Hmin1 Hmin2].
  destruct (Qlt_le_dec p 0) as [Hneg|Hpos].
  - assert (py_max 0 p == 0)%Q as H0 by (apply Hmax2; lra).
    assert (py_min 1 (py_max 0 p) == 0)%Q as H1
      by (rewrite Hmin2; [exact H0|rewrite H0; lra]).
    rewrite H1. repeat split; intros; lra.
  - assert (py_max 0 p == p)%Q as H0 by (apply Hmax1; lra).
    destruct (Qlt_le_dec p 1) as [Hlt|Hge].
    + assert (py_min 1 (py_max 0 p) == p)%Q as H1
        by (rewrite Hmin2; [exact H0|rewrite H0; lra]).
      rewrite H1. repeat split; intros; lra.
    + assert (py_min 1 (py_max 0 p) == 1)%Q as H1
        by (apply Hmin1; rewrite H0; lra).
      rewrite H1. repeat split; intros; lra.
Qed.

Lemma overlap_duration_positive (clip1 : clip) (d : Q) :
  (0 < clip_duration clip1)%Q → (0 < d)%Q → (0 < overlap_duration clip1 d)%Q.
Proof.
  intros Hclip Hd. unfold overlap_duration.
  destruct (Qle_bool (clip_duration clip1) d); lra.
Qed.

(** X6. During a slide the two clips stay exactly one canvas width (for
    left and right) or height (for up and down) apart at every time, so
    they move as one strip without gap or overlap; the outgoing clip
    rests at the origin until the transition starts and the incoming clip
    rests at the origin once the first clip has ended. *)
Theorem slide_positions_are_adjacent
    (clip1 : clip) (direction : string) (d t : Q) :
  direction ∈ SLIDE_DIRECTIONS →
  (0 < clip_duration clip1)%Q → (0 < d)%Q →
  ∃ out inn,
    slide_out_of clip1 direction d t = Ok out
    ∧ slide_in_of clip1 direction d t = Ok inn
    ∧ pos_eq ((fst inn - fst out)%Q, (snd inn - snd out)%Q)
        (slide_gap (clip_size clip1) direction)
    ∧ ((t <= clip_duration clip1 - overlap_duration clip1 d)%Q →
       pos_eq out (0%Q, 0%Q))
    ∧ ((clip_duration clip1 <= t)%Q → pos_eq inn (0%Q, 0%Q)).
Proof.
  intros Hdir Hclip Hd.
  pose proof (overlap_duration_positive clip1 d Hclip Hd) as Hov.
  unfold slide_out_of, slide_in_of, slide_position, slide_in_position.
  cbv zeta.
  set (o := overlap_duration clip1 d) in *.
  set (start := (clip_duration clip1 - o)%Q).
  destruct (clip_size clip1) as [w h]. cbn [fst snd].
  destruct (flt t start) eqn:Ebefore.
  - apply flt_true in Ebefore. unfold SLIDE_DIRECTIONS in Hdir.
    repeat (apply elem_of_cons in Hdir as [-> | Hdir]);
      try (apply elem_of_nil in Hdir; contradiction);
      simpl; eexists _, _; (split; [reflexivity|]);
      (split; [reflexivity|]); unfold pos_eq, slide_gap; simpl;
      (repeat split; intros; try ring; subst start; lra).
  - apply flt_false in Ebefore.
    rewrite (truediv_nonzero (t - start) o) by lra.
    rewrite !result_bind_Ok.
    destruct (clamp01_spec ((t - start) / o)) as (_ & _ & Hzero & Hone & _).
    assert ((t <= start)%Q → (clamp01 ((t - start) / o) == 0)%Q) as Hrest.
    { intros Hle. apply Hzero.
      apply Qle_shift_div_r; [exact Hov|]. lra. }
    assert ((clip_duration clip1 <= t)%Q →
            (clamp01 ((t - start) / o) == 1)%Q) as Hdone.
    { intros Hle. apply Hone.
      apply Qle_shift_div_l; [exact Hov|]. subst start. lra. }
    set (p := clamp01 ((t - start) / o)) in *.
    unfold SLIDE_DIRECTIONS in Hdir.
    repeat (apply elem_of_cons in Hdir as [-> | Hdir]);
      try (apply elem_of_nil in Hdir; contradiction);
      simpl; eexists _, _; (split; [reflexivity|]);
      (split; [reflexivity|]); unfold pos_eq, slide_gap; simpl;
      (split; [split; ring|]);
      (split; [intros Hle; rewrite (Hrest Hle); split; ring
              |intros Hle; rewrite (Hdone Hle); split; ring]).
Qed.

Lemma slide_positions_are_adjacent_witness :
  let clip1 := ColorClip (1080, 1920) 3 in
  ("left" ∈ SLIDE_DIRECTIONS)
  ∧ ∃ out inn,
      slide_out_of clip1 "left" (1 # 2) (11 # 4) = Ok out
      ∧ slide_in_of clip1 "left" (1 # 2) (11 # 4) = Ok inn
      ∧ pos_eq ((fst inn - fst out)%Q, (snd inn - snd out)%Q)
          (inject_Z 1080, 0%Q).
Proof.
  intros clip1.
  assert ("left" ∈ SLIDE_DIRECTIONS) as Hdir by apply list_elem_of_here.
  split; [exact Hdir|].
  destruct (slide_positions_are_adjacent clip1 "left" (1 # 2) (11 # 4) Hdir)
    as (out & inn & Hout & Hin & Hgap & _);
    [unfold Qlt; simpl; lia..|].
  exists out, inn. repeat split; try assumption; apply Hgap.
Defined.

End SlideFacts.

(** ** Scaling and cropping a clip to the canvas *)

Section MediaAdapterMoreFacts.

Import MediaAdapterParts.

Ltac divisions :=
  repeat first [ rewrite truediv_pos by assumption
               | rewrite result_bind_Ok ].

(** X8. In fit mode a source that fits inside the canvas (its scaled
    axis keeps at least one pixel) is scaled to lie inside the canvas and
    to touch it along one axis, and its other dimension is the largest
    whole number of pixels that does not exceed the source's aspect ratio;
    [adapt_media_fit] is this scaled clip centered on a background of the
    canvas size. *)
Theorem adapt_media_fit_letterbox (c : clip) (target_w target_h : Z) :
  0 < fst (clip_size c) → 0 < snd (clip_size c) →
  0 < target_w → 0 < target_h →
  fits_inside (clip_size c) (target_w, target_h) →
  ∃ scaled,
    fit_scaled c (target_w, target_h) = Ok scaled
    ∧ adapt_media_fit c (target_w, target_h)
      = Ok (fit_on_background scaled (target_w, target_h))
    ∧ (0 < fst (clip_size scaled) <= target_w)
    ∧ (0 < snd (clip_size scaled) <= target_h)
    ∧ ((fst (clip_size scaled) = target_w
        ∧ snd (clip_size scaled) * fst (clip_size c)
          <= snd (clip_size c) * target_w
          < (snd (clip_size scaled) + 1) * fst (clip_size c))
       ∨ (snd (clip_size scaled) = target_h
          ∧ fst (clip_size scaled) * snd (clip_size c)
            <= fst (clip_size c) * target_h
            < (fst (clip_size scaled) + 1) * snd (clip_size c))).
Proof.
  intros Hcw Hch Htw Hth [Hfw Hfh].
  unfold fit_scaled, adapt_media_fit, fit_on_background.
  destruct (clip_size c) as [clip_w clip_h] eqn:Esize.
  simpl in Hcw, Hch, Hfw, Hfh.
  cbn [fst snd]. divisions.
  destruct (flt (inject_Z target_w / inject_Z target_h) _) eqn:Ewide.
  - apply flt_true in Ewide.
    apply (ratio_lt_cross target_w target_h clip_w clip_h Hth Hch) in Ewide.
    unfold resize_width. rewrite Esize. divisions.
    destruct (py_int_ratio (clip_h * target_w) clip_w) as (Hq0 & Hq1 & Hq2);
      [lia..|].
    set (new_h := py_int (inject_Z (clip_h * target_w) / inject_Z clip_w)) in *.
    assert (0 < new_h) as Hpixel by nia.
    rewrite resizer_Ok by assumption. divisions.
    eexists. split; [reflexivity|]. split; [reflexivity|].
    cbn [with_size clip_size fst snd].
    split; [lia|]. split; [nia|]. left. split; [reflexivity|]. lia.
  - apply flt_false in Ewide.
    apply (ratio_le_cross clip_w clip_h target_w target_h Hch Hth) in Ewide.
    unfold resize_height. rewrite Esize. divisions.
    destruct (py_int_ratio (clip_w * target_h) clip_h) as (Hq0 & Hq1 & Hq2);
      [lia..|].
    set (new_w := py_int (inject_Z (clip_w * target_h) / inject_Z clip_h)) in *.
    assert (0 < new_w) as Hpixel by nia.
    rewrite resizer_Ok by assumption. divisions.
    eexists. split; [reflexivity|]. split; [reflexivity|].
    cbn [with_size clip_size fst snd].
    split; [nia|]. split; [lia|]. right. split; [reflexivity|]. lia.
Qed.

Lemma adapt_media_fit_letterbox_witness :
  let c := ColorClip (1920, 1080) 5 in
  fits_inside (clip_size c) (1080, 1920)
  ∧ ∃ scaled,
      fit_scaled c (1080, 1920) = Ok scaled
      ∧ adapt_media_fit c (1080, 1920)
        = Ok (fit_on_background scaled (1080, 1920))
      ∧ (0 < fst (clip_size scaled) <= 1080)
      ∧ (0 < snd (clip_size scaled) <= 1920).
Proof.
  intros c.
  assert (fits_inside (clip_size c) (1080, 1920)) as Hfits
    by (unfold fits_inside; simpl; lia).
  split; [exact Hfits|].
  destruct (adapt_media_fit_letterbox c 1080 1920)
    as (scaled & Hrun & Hfit & Hw & Hh & _);
    [simpl; lia | simpl; lia | lia | lia | exact Hfits |].
  exists scaled. repeat split; try assumption; lia.
Defined.

Lemma Qmax_same (a b : Q) : (a == b)%Q → (Qmax a b == b)%Q.
Proof.
  intros H. apply Q.max_r. rewrite H. apply Qle_refl.
Qed.

(** Adapting keeps the duration and the start of a segment. *)
Lemma adapt_media_to_size_duration
    (c : clip) (target_w target_h : Z) (fit_mode : string) :
  fit_mode ∈ FIT_MODES →
  0 < fst (clip_size c) → 0 < snd (clip_size c) →
  0 < target_w → 0 < target_h →
  (fit_mode = "fit" → fits_inside (clip_size c) (target_w, target_h)) →
  fresh c →
  ∃ c', adapt_media_to_size c (target_w, target_h) fit_mode = Ok c'
    ∧ (clip_duration c' == clip_duration c)%Q
    ∧ fresh c'.
Proof.
  intros Hmode Hcw Hch Htw Hth Hfits Hfresh.
  unfold FIT_MODES in Hmode.
  repeat (apply elem_of_cons in Hmode as [-> | Hmode]);
    try (apply elem_of_nil in Hmode; contradiction).
  - change (adapt_media_to_size c (target_w, target_h) "crop")
      with (adapt_media_crop c (target_w, target_h)).
    destruct (adapt_media_crop_size c target_w target_h)
      as (c' & Hrun & _ & Hdur & Hstart); try assumption.
    exists c'. split; [exact Hrun|]. rewrite Hdur.
    split; [reflexivity|]. unfold fresh in *. now rewrite Hstart.
  - change (adapt_media_to_size c (target_w, target_h) "fit")
      with (adapt_media_fit c (target_w, target_h)).
    destruct (Hfits eq_refl) as [Hfw Hfh].
    unfold adapt_media_fit.
    destruct (clip_size c) as [clip_w clip_h] eqn:Esize.
    simpl in Hcw, Hch, Hfw, Hfh.
    divisions. unfold resize_width, resize_height. rewrite Esize.
    unfold fresh in *.
    destruct (flt _ _); divisions;
      (rewrite resizer_Ok, result_bind_Ok
         by (try assumption; apply fit_scaled_axis; lia));
      (eexists; split; [reflexivity|]; split; [|reflexivity]);
      unfold CompositeVideoClip, max_end, clip_end, ColorClip, set_position;
      cbn [foldl clip_duration clip_start with_size];
      (rewrite Qmax_same by (rewrite Hfresh; reflexivity));
      rewrite Hfresh; ring.
  - change (adapt_media_to_size c (target_w, target_h) "stretch")
      with (adapt_media_stretch c (target_w, target_h)).
    rewrite adapt_media_stretch_size by assumption.
    eexists. split; [reflexivity|]. split; [reflexivity|exact Hfresh].
Qed.

(** X9. Adapting a segment to the canvas keeps its duration and leaves it
    at the start of its own timeline, in crop and stretch mode and, for a
    source that fits inside the canvas, in fit mode: the adapted segments
    can be handed on to the transitions as they are. *)
Theorem adapt_media_to_size_keeps_duration
    (c : clip) (target_w target_h : Z) (fit_mode : string) :
  fit_mode ∈ FIT_MODES →
  0 < fst (clip_size c) → 0 < snd (clip_size c) →
  0 < target_w → 0 < target_h →
  (fit_mode = "fit" → fits_inside (clip_size c) (target_w, target_h)) →
  fresh c →
  ∃ c', adapt_media_to_size c (target_w, target_h) fit_mode = Ok c'
    ∧ (clip_duration c' == clip_duration c)%Q
    ∧ fresh c'.
Proof.
  intros Hmode Hcw Hch Htw Hth Hfits Hfresh.
  destruct (adapt_media_to_size_duration c target_w target_h fit_mode)
    as (c' & Hrun & Hdur & Hstart); try assumption.
  exists c'. split; [exact Hrun|]. split; [exact Hdur|exact Hstart].
Qed.

Lemma adapt_media_to_size_keeps_duration_witness :
  let c := ColorClip (1920, 1080) 5 in
  ("fit" ∈ FIT_MODES ∧ fits_inside (clip_size c) (1080, 1920))
  ∧ ∃ c', adapt_media_to_size c (1080, 1920) "fit" = Ok c'
      ∧ (clip_duration c' == 5)%Q.
Proof.
  intros c.
  assert ("fit" ∈ FIT_MODES) as Hmode
    by (apply list_elem_of_further, list_elem_of_here).
  assert (fits_inside (clip_size c) (1080, 1920)) as Hfits
    by (unfold fits_inside; simpl; lia).
  split; [split; assumption|].
  destruct (adapt_media_to_size_keeps_duration c 1080 1920 "fit" Hmode)
    as (c' & Hrun & Hdur & _);
    [simpl; lia | simpl; lia | lia | lia | intros _; exact Hfits
    | reflexivity |].
  exists c'. split; assumption.
Defined.

End MediaAdapterMoreFacts.

(** ** Canvas of a render *)

Section CanvasFacts.

Import CanvasSizer Canvas Render.

Ltac entries H :=
  repeat (apply elem_of_cons in H as [H | H]; [inversion H; subst; clear H|]);
  try (apply elem_of_nil in H; contradiction).

(** [calculate_video_size] returns two positive even numbers or raises
    [ValueError]. *)
Lemma calculate_video_size_result (resolution layout : string) :
  (∃ width height,
     calculate_video_size resolution layout = Ok (width, height)
     ∧ positive_even width ∧ positive_even height)
  ∨ calculate_video_size resolution layout = Raise ValueError.
Proof.
  unfold calculate_video_size.
  destruct (VIDEO_RESOLUTIONS !! resolution) as [base|] eqn:Hres;
    [|right; reflexivity].
  destruct (VIDEO_LAYOUTS !! layout) as [lay|] eqn:Hlay;
    [|right; reflexivity].
  left.
  unfold VIDEO_RESOLUTIONS in Hres. apply elem_of_list_to_map_2 in Hres.
  unfold VIDEO_LAYOUTS in Hlay. apply elem_of_list_to_map_2 in Hlay.
  entries Hres; entries Hlay;
    (eexists _, _; split; [vm_compute; reflexivity|];
     repeat split; try reflexivity; simpl; lia).
Qed.

(** The legacy table gives two positive even numbers for every value that
    can be looked up. *)
Lemma get_video_size_result (size layout : pyval) :
  hashable size →
  ∃ width height,
    get_video_size size layout = Ok (width, height)
    ∧ positive_even width ∧ positive_even height.
Proof.
  intros Hsize. unfold get_video_size.
  assert (∀ s, is_Some (VIDEO_SIZES !! s) →
               ∀ lay : pyval,
               ∃ width height,
                 match VIDEO_SIZES !! s with
                 | Some entry =>
                   Ok (if py_in_list lay ["portrait"] then size_portrait entry
                       else size_landscape entry)
                 | None => Raise RuntimeError
                 end = Ok (width, height)
                 ∧ positive_even width ∧ positive_even height) as Htable.
  { intros s [entry Hentry] lay. rewrite Hentry.
    unfold VIDEO_SIZES in Hentry. apply elem_of_list_to_map_2 in Hentry.
    entries Hentry; destruct (py_in_list lay ["portrait"]);
      (eexists _, _; split; [reflexivity|];
       repeat split; try reflexivity; simpl; lia). }
  assert (is_Some (VIDEO_SIZES !! "1080p")) as Hdefault
    by (eexists; vm_compute; reflexivity).
  destruct size as [| b | z | q | s | l | d]; simpl in Hsize;
    try contradiction; simpl as_key; rewrite result_bind_Ok;
    try (apply Htable; exact Hdefault).
  destruct (bool_decide (is_Some (VIDEO_SIZES !! s))) eqn:E.
  - apply bool_decide_eq_true in E. now apply Htable.
  - apply Htable; exact Hdefault.
Qed.

(** The size step of [resolve_canvas]: the computed size, or the legacy
    one after a [ValueError]. *)
Lemma canvas_size_result (resolution layout : pyval) :
  hashable resolution → hashable layout →
  ∃ width height,
    match calculate_video_size_of resolution layout with
    | Raise ValueError =>
      get_video_size resolution
        (VStr (if py_in_list layout ["9:16"; "3:4"] then "portrait"
               else "landscape"))
    | r => r
    end = Ok (width, height)
    ∧ positive_even width ∧ positive_even height.
Proof.
  intros Hres Hlay.
  assert (calculate_video_size_of resolution layout = Raise ValueError
          ∨ ∃ width height,
              calculate_video_size_of resolution layout = Ok (width, height)
              ∧ positive_even width ∧ positive_even height) as [Hfail|Hok].
  { unfold calculate_video_size_of.
    destruct resolution as [| b | z | q | r | l | d]; simpl in Hres;
      try contradiction; simpl as_key; rewrite result_bind_Ok;
      try (left; reflexivity).
    destruct (bool_decide _); [|left; reflexivity].
    destruct layout as [| b | z | q | lay | l | d]; simpl in Hlay;
      try contradiction; simpl as_key; rewrite result_bind_Ok;
      try (left; reflexivity).
    destruct (calculate_video_size_result r lay) as [Hok|Hfail];
      [right; exact Hok|left; exact Hfail]. }
  - rewrite Hfail. now apply get_video_size_result.
  - destruct Hok as (width & height & -> & Hw & Hh). eauto.
Qed.

(** The canvas step on a configuration whose three values can be looked
    up. *)
Lemma resolve_canvas_result (config : gmap string pyval) :
  (∀ key v, key ∈ CANVAS_KEYS → config !! key = Some v → hashable v) →
  ∃ width height fps,
    resolve_canvas config = Ok ((width, height), fps)
    ∧ positive_even width ∧ positive_even height.
Proof.
  intros Htyped.
  assert (∀ key dflt, key ∈ CANVAS_KEYS → hashable dflt →
                      hashable (dict_get config key dflt)) as Hget.
  { intros key dflt Hkey Hdflt. unfold dict_get.
    destruct (config !! key) as [v|] eqn:E; [|exact Hdflt].
    exact (Htyped key v Hkey E). }
  unfold resolve_canvas.
  assert (∃ preset,
            (if py_truthy (dict_get config "platform_preset" VNone) then
               key ← as_key (dict_get config "platform_preset" VNone);
               Ok (key ≫= λ s, PLATFORM_PRESETS !! s)
             else Ok None) = Ok preset) as [preset ->].
  { destruct (py_truthy _); [|eauto].
    pose proof (Hget "platform_preset" VNone
                  ltac:(apply list_elem_of_here) I) as Hp.
    destruct (dict_get config "platform_preset" VNone); simpl in Hp;
      try contradiction; simpl as_key; rewrite result_bind_Ok; eauto. }
  rewrite result_bind_Ok.
  destruct preset as [p|].
  - destruct (canvas_size_result (VStr (preset_resolution p))
                (VStr (preset_layout p)) I I)
      as (width & height & -> & Hw & Hh).
    rewrite result_bind_Ok. eauto 6.
  - destruct (canvas_size_result
                (dict_get config "video_resolution" (VStr "1080p"))
                (dict_get config "video_layout" (VStr "9:16")))
      as (width & height & -> & Hw & Hh).
    + apply Hget; [|exact I].
      apply list_elem_of_further, list_elem_of_here.
    + apply Hget; [|exact I].
      do 2 apply list_elem_of_further. apply list_elem_of_here.
    + rewrite result_bind_Ok. eauto 6.
Qed.

(** X10. Whatever the configuration says about platform, resolution and
    layout, as long as the three values can be looked up at all (no list
    and no dict), the render gets a canvas: computing the size never
    fails, unknown names fall back to the legacy table, and both
    dimensions are positive even numbers. *)
Theorem resolve_canvas_never_fails (config : gmap string pyval) :
  (∀ key v, key ∈ CANVAS_KEYS → config !! key = Some v → hashable v) →
  ∃ width height fps,
    resolve_canvas config = Ok ((width, height), fps)
    ∧ positive_even width ∧ positive_even height.
Proof.
  exact (resolve_canvas_result config).
Qed.

Lemma resolve_canvas_never_fails_witness :
  let config : gmap string pyval :=
    {[ "video_resolution" := VStr "8k"; "video_layout" := VInt 7 ]} in
  ∃ width height fps,
    resolve_canvas config = Ok ((width, height), fps)
    ∧ positive_even width ∧ positive_even height.
Proof.
  intros config. apply resolve_canvas_never_fails.
  intros key v _ Hv. subst config.
  destruct (decide (key = "video_resolution")) as [->|Hne1].
  - rewrite lookup_insert in Hv. injection Hv as <-. exact I.
  - rewrite lookup_insert_ne in Hv by congruence.
    destruct (decide (key = "video_layout")) as [->|Hne2].
    + rewrite lookup_singleton in Hv. injection Hv as <-. exact I.
    + rewrite lookup_singleton_ne in Hv by congruence. discriminate.
Defined.

(** X11. A platform preset named in the configuration decides the canvas
    alone: the size is the one computed from the preset's resolution and
    layout and the frame rate is the preset's, whatever resolution,
    layout and frame rate the configuration also holds. *)
Theorem resolve_canvas_preset_wins
    (config : gmap string pyval) (name : string) (p : platform_preset) :
  PLATFORM_PRESETS !! name = Some p →
  config !! "platform_preset" = Some (VStr name) →
  ∃ size,
    calculate_video_size (preset_resolution p) (preset_layout p) = Ok size
    ∧ resolve_canvas config = Ok (size, VInt (preset_fps p)).
Proof.
  intros Hpreset Hconfig.
  unfold resolve_canvas, dict_get. rewrite Hconfig. simpl default.
  assert (py_truthy (VStr name) = true) as ->.
  { simpl. destruct (String.eqb_spec name EmptyString) as [->|]; [|reflexivity].
    vm_compute in Hpreset. discriminate. }
  simpl as_key. rewrite result_bind_Ok.
  change (Some name ≫= λ s, PLATFORM_PRESETS !! s)
    with (PLATFORM_PRESETS !! name).
  rewrite Hpreset.
  rewrite result_bind_Ok.
  unfold PLATFORM_PRESETS in Hpreset.
  apply elem_of_list_to_map_2 in Hpreset.
  entries Hpreset; (eexists; split; vm_compute; reflexivity).
Qed.

Lemma resolve_canvas_preset_wins_witness :
  let config : gmap string pyval :=
    {[ "platform_preset" := VStr "bilibili";
       "video_resolution" := VStr "480p" ]} in
  ∃ size,
    calculate_video_size "1080p" "16:9" = Ok size
    ∧ resolve_canvas config = Ok (size, VInt 30).
Proof.
  intros config.
  apply (resolve_canvas_preset_wins config "bilibili"
           {| preset_resolution := "1080p"; preset_layout := "16:9";
              preset_fps := 30; preset_name := "B站" |});
    reflexivity.
Defined.

End CanvasFacts.

(** ** Motion effects *)

Section EffectFacts.

Import TransitionConfig Effects.

Lemma py_int_inject_Z (z : Z) : py_int (inject_Z z) = z.
Proof.
  unfold py_int, Qceiling.
  destruct (Qle_bool 0 (inject_Z z)).
  - apply Qfloor_Z.
  - rewrite <- inject_Z_opp, Qfloor_Z. lia.
Qed.

Lemma clamp01_bounds (p : Q) : (0 <= clamp01 p)%Q ∧ (clamp01 p <= 1)%Q.
Proof.
  unfold clamp01, py_min, py_max.
  destruct (Qle_bool p 0) eqn:E0; simpl.
  - change (Qle_bool 1 0) with false. simpl. split; lra.
  - assert (0 < p)%Q as Hp.
    { apply Qnot_le_lt. intros H. apply Qle_bool_iff in H. congruence. }
    destruct (Qle_bool 1 p) eqn:E1; simpl.
    + split; lra.
    + assert (p < 1)%Q.
      { apply Qnot_le_lt. intros H. apply Qle_bool_iff in H. congruence. }
      split; lra.
Qed.

Lemma clamp01_low (p : Q) : (p <= 0)%Q → (clamp01 p == 0)%Q.
Proof.
  intros Hp. unfold clamp01, py_min, py_max.
  rewrite (proj2 (Qle_bool_iff p 0) Hp). simpl.
  change (Qle_bool 1 0) with false. reflexivity.
Qed.

Lemma clamp01_high (p : Q) : (1 <= p)%Q → (clamp01 p == 1)%Q.
Proof.
  intros Hp. unfold clamp01, py_min, py_max.
  destruct (Qle_bool p 0) eqn:E0; simpl.
  - apply Qle_bool_iff in E0. lra.
  - rewrite (proj2 (Qle_bool_iff 1 p) Hp). reflexivity.
Qed.

(** The progress of an effect is always defined and lies in [[0, 1]]. *)
Lemma effect_progress_spec (effect_duration t : Q) :
  ∃ p, effect_progress effect_duration t = Ok p
       ∧ (0 <= p)%Q ∧ (p <= 1)%Q
       ∧ ((t <= 0)%Q → (p == 0)%Q)
       ∧ ((0 < effect_duration)%Q → (effect_duration <= t)%Q → (p == 1)%Q).
Proof.
  unfold effect_progress.
  destruct (flt 0 effect_duration) eqn:E.
  - apply flt_true in E.
    rewrite truediv_nonzero by lra. rewrite result_bind_Ok.
    eexists. split; [reflexivity|].
    destruct (clamp01_bounds (t / effect_duration)) as [Hlo Hhi].
    repeat split; try assumption.
    + intros Ht. apply clamp01_low.
      apply Qle_shift_div_r; [exact E|]. lra.
    + intros _ Ht. apply clamp01_high.
      apply Qle_shift_div_l; [exact E|]. lra.
  - apply flt_false in E. rewrite result_bind_Ok.
    eexists. split; [reflexivity|].
    assert (clamp01 0 == 0)%Q as H0 by (apply clamp01_low; lra).
    rewrite H0. repeat split; lra.
Qed.

(** The zoom factor of a Ken Burns frame lies between 1 and the zoom
    ratio. *)
Lemma ken_burns_zoom_bounds (zoom_ratio : Q) (direction : string) (p : Q) :
  (1 <= zoom_ratio)%Q → (0 <= p)%Q → (p <= 1)%Q →
  (1 <= ken_burns_zoom zoom_ratio direction p)%Q
  ∧ (ken_burns_zoom zoom_ratio direction p <= zoom_ratio)%Q.
Proof.
  intros Hz Hp0 Hp1. unfold ken_burns_zoom.
  assert (0 <= (zoom_ratio - 1) * p)%Q as Hlo
    by (apply Qmult_le_0_compat; lra).
  assert (0 <= (zoom_ratio - 1) * (1 - p))%Q as Hhi
    by (apply Qmult_le_0_compat; lra).
  assert ((zoom_ratio - 1) * (1 - p) == zoom_ratio - 1 - (zoom_ratio - 1) * p)%Q
    as Heq by ring.
  rewrite Heq in Hhi.
  destruct (String.eqb direction "in"); split; lra.
Qed.

(** An axis of [n] pixels scaled by a factor of at least 1 and cut back
    to [n] pixels around the center: the cut lies inside the scaled axis
    and its two margins differ by at most one pixel. *)
Lemma zoom_axis (n : Z) (zoom : Q) :
  0 <= n → (1 <= zoom)%Q →
  let scaled := py_int (inject_Z n * zoom) in
  let low := (scaled - n) / 2 in
  n <= scaled ∧ 0 <= low ∧ low + n <= scaled
  ∧ 0 <= (scaled - (low + n)) - low <= 1.
Proof.
  intros Hn Hzoom scaled low.
  assert (n <= scaled) as Hcover.
  { apply py_int_lower_bound; [exact Hn|].
    assert (0 <= inject_Z n)%Q as Hn' by (unfold Qle; simpl; lia).
    assert (0 <= inject_Z n * (zoom - 1))%Q as Hprod
      by (apply Qmult_le_0_compat; lra).
    assert (inject_Z n * (zoom - 1) == inject_Z n * zoom - inject_Z n)%Q
      as Heq by ring.
    rewrite Heq in Hprod. lra. }
  pose proof (Z.div_mod (scaled - n) 2 ltac:(lia)) as Hdiv.
  pose proof (Z.mod_pos_bound (scaled - n) 2 ltac:(lia)) as Hmod.
  subst low. lia.
Qed.

(** X12. A Ken Burns frame never shows a border: for a zoom ratio above
    1, at every time and for every effect duration, the frame is resized
    to at least its own size and at most the zoom ratio, the box cut out
    of it lies inside the resized frame, has the original size, and is
    centered up to one pixel. Zooming in starts, and zooming out ends,
    with the untouched frame. *)
Theorem ken_burns_frame_inside
    (width height : Z) (zoom_ratio : Q) (direction : string)
    (effect_duration t : Q) :
  0 <= width → 0 <= height → (1 < zoom_ratio)%Q →
  ∃ frame,
    ken_burns_frame (width, height) zoom_ratio direction effect_duration t
    = Ok frame
    ∧ (let '(new_width, new_height) := zoomed_size frame in
       let '(x1, y1, x2, y2) := crop_box frame in
       width <= new_width <= py_int (inject_Z width * zoom_ratio)
       ∧ height <= new_height <= py_int (inject_Z height * zoom_ratio)
       ∧ 0 <= x1 ∧ x2 <= new_width ∧ 0 <= y1 ∧ y2 <= new_height
       ∧ 0 <= (new_width - x2) - x1 <= 1
       ∧ 0 <= (new_height - y2) - y1 <= 1)
    ∧ box_size (crop_box frame) = (width, height)
    ∧ (direction = "in" → (t <= 0)%Q →
       zoomed_size frame = (width, height))
    ∧ (direction ≠ "in" → (0 < effect_duration)%Q →
       (effect_duration <= t)%Q →
       zoomed_size frame = (width, height)).
Proof.
  intros Hw Hh Hzoom. unfold ken_burns_frame.
  destruct (effect_progress_spec effect_duration t)
    as (p & -> & Hp0 & Hp1 & Hstart & Hend).
  rewrite result_bind_Ok. cbn [fst snd].
  destruct (ken_burns_zoom_bounds zoom_ratio direction p) as [Hz1 Hz2];
    [lra|assumption..|].
  set (zoom := ken_burns_zoom zoom_ratio direction p) in *.
  destruct (zoom_axis width zoom Hw Hz1) as (Hw1 & Hw2 & Hw3 & Hw4).
  destruct (zoom_axis height zoom Hh Hz1) as (Hh1 & Hh2 & Hh3 & Hh4).
  assert (∀ n, 0 <= n →
               py_int (inject_Z n * zoom) <= py_int (inject_Z n * zoom_ratio))
    as Hmost.
  { intros n Hn.
    assert (0 <= inject_Z n)%Q as Hn' by (unfold Qle; simpl; lia).
    assert (0 <= inject_Z n * zoom)%Q by (apply Qmult_le_0_compat; lra).
    assert (inject_Z n * zoom <= inject_Z n * zoom_ratio)%Q as Hle.
    { assert (0 <= inject_Z n * (zoom_ratio - zoom))%Q as Hprod
        by (apply Qmult_le_0_compat; lra).
      assert (inject_Z n * (zoom_ratio - zoom)
              == inject_Z n * zoom_ratio - inject_Z n * zoom)%Q as Heq by ring.
      rewrite Heq in Hprod. lra. }
    rewrite !py_int_floor by lra. now apply Qfloor_resp_le. }
  assert ((zoom == 1)%Q →
          (py_int (inject_Z width * zoom), py_int (inject_Z height * zoom))
          = (width, height)) as Hrest.
  { intros Hone. f_equal.
    - rewrite <- (py_int_inject_Z width) at 2. apply py_int_comp.
      rewrite Hone. ring.
    - rewrite <- (py_int_inject_Z height) at 2. apply py_int_comp.
      rewrite Hone. ring. }
  eexists. split; [reflexivity|]. cbn [zoomed_size crop_box box_size].
  split; [|split; [|split]].
  - pose proof (Hmost width Hw). pose proof (Hmost height Hh). lia.
  - f_equal; lia.
  - intros -> Ht. apply Hrest. subst zoom. unfold ken_burns_zoom.
    simpl String.eqb. cbv iota. rewrite (Hstart Ht). ring.
  - intros Hdir Hpos Ht. apply Hrest. subst zoom. unfold ken_burns_zoom.
    destruct (String.eqb_spec direction "in") as [->|_]; [contradiction|].
    rewrite (Hend Hpos Ht). ring.
Qed.

Lemma ken_burns_frame_inside_witness :
  ∃ frame,
    ken_burns_frame (1080, 1920) (12 # 10) "in" 5 (5 # 2) = Ok frame
    ∧ box_size (crop_box frame) = (1080, 1920).
Proof.
  destruct (ken_burns_frame_inside 1080 1920 (12 # 10) "in" 5 (5 # 2))
    as (frame & Hrun & _ & Hbox & _);
    [lia | lia | unfold Qlt; simpl; lia |].
  exists frame. split; assumption.
Defined.

(** X13. A pan never moves the picture by more than a tenth of the frame
    width, in any direction (the vertical pans use the width as well), and
    along one axis only. The frame is pasted inside the enlarged black
    canvas, the box cut out of the canvas lies inside it and has the
    original size, and the picture appears in the box shifted by the
    offset. Before the start of the effect the offset is zero. *)
Theorem pan_frame_shift_bounded
    (width height : Z) (direction : string) (effect_duration t : Q) :
  0 <= width → 0 <= height →
  ∃ frame,
    pan_frame_at (width, height) direction effect_duration t = Ok frame
    ∧ (let '(x_offset, y_offset) := pan_offset frame in
       let '(canvas_w, canvas_h) := canvas_size frame in
       let '(paste_x, paste_y) := paste_at frame in
       let '(x1, y1, x2, y2) := pan_box frame in
       10 * Z.abs x_offset <= width ∧ 10 * Z.abs y_offset <= width
       ∧ (x_offset = 0 ∨ y_offset = 0)
       ∧ 0 <= paste_x ∧ paste_x + width <= canvas_w
       ∧ 0 <= paste_y ∧ paste_y + height <= canvas_h
       ∧ 0 <= x1 ∧ x2 <= canvas_w ∧ 0 <= y1 ∧ y2 <= canvas_h
       ∧ paste_x - x1 = x_offset ∧ paste_y - y1 = y_offset)
    ∧ box_size (pan_box frame) = (width, height)
    ∧ ((t <= 0)%Q → pan_offset frame = (0, 0)).
Proof.
  intros Hw Hh. unfold pan_frame_at.
  destruct (effect_progress_spec effect_duration t)
    as (p & -> & Hp0 & Hp1 & Hstart & _).
  rewrite result_bind_Ok. cbn [fst snd].
  set (pan_distance := py_int (inject_Z width * (1 # 10))).
  assert (0 <= pan_distance ∧ 10 * pan_distance <= width) as [Hd0 Hd1].
  { assert (inject_Z width * (1 # 10) == inject_Z width / inject_Z 10)%Q
      as Heq by (unfold Qdiv; reflexivity).
    subst pan_distance. rewrite (py_int_comp _ _ Heq).
    destruct (py_int_ratio width 10) as (H0 & H1 & _); lia. }
  set (step := py_int (inject_Z pan_distance * p)).
  assert (0 <= step <= pan_distance) as Hstep.
  { assert (0 <= inject_Z pan_distance)%Q as Hd' by (unfold Qle; simpl; lia).
    assert (0 <= inject_Z pan_distance * p)%Q
      by (apply Qmult_le_0_compat; lra).
    split.
    - apply py_int_lower_bound; [lia|]. exact H.
    - apply py_int_upper_bound; [exact H|].
      assert (0 <= inject_Z pan_distance * (1 - p))%Q as Hprod
        by (apply Qmult_le_0_compat; lra).
      assert (inject_Z pan_distance * (1 - p)
              == inject_Z pan_distance - inject_Z pan_distance * p)%Q
        as Heq by ring.
      rewrite Heq in Hprod. lra. }
  assert ((t <= 0)%Q → step = 0) as Hzero.
  { intros Ht. subst step.
    rewrite <- (py_int_inject_Z 0). apply py_int_comp.
    rewrite (Hstart Ht). ring. }
  destruct (String.eqb direction "left");
    [|destruct (String.eqb direction "right");
      [|destruct (String.eqb direction "up");
        [|destruct (String.eqb direction "down")]]];
    (eexists; split; [reflexivity|];
     cbn [pan_offset canvas_size paste_at pan_box box_size];
     split; [lia|]; split; [f_equal; lia|];
     intros Ht; try rewrite (Hzero Ht); reflexivity).
Qed.

Lemma pan_frame_shift_bounded_witness :
  ∃ frame,
    pan_frame_at (1080, 1920) "up" 4 3 = Ok frame
    ∧ box_size (pan_box frame) = (1080, 1920).
Proof.
  destruct (pan_frame_shift_bounded 1080 1920 "up" 4 3)
    as (frame & Hrun & _ & Hbox & _); [lia..|].
  exists frame. split; assumption.
Defined.

Lemma apply_ken_burns_effect_ok (c : clip) (duration : option Q)
    (zoom_ratio : Q) (direction : string) :
  direction ∈ ["in"; "out"] → (1 < zoom_ratio)%Q →
  ∃ c', apply_ken_burns_effect c duration zoom_ratio direction = Ok c'
        ∧ has_attributes c' (clip_size c)
            (default (clip_duration c) duration).
Proof.
  intros Hdir Hzoom. unfold apply_ken_burns_effect.
  rewrite (proj2 (str_in_true direction _) Hdir). simpl negb. cbv iota.
  destruct (Qle_bool zoom_ratio 1) eqn:E.
  { apply Qle_bool_iff in E. lra. }
  unfold ken_burns_frame.
  destruct (effect_progress_spec (default (clip_duration c) duration) 0)
    as (p & -> & _).
  rewrite !result_bind_Ok. eexists. split; [reflexivity|].
  unfold has_attributes, VideoClip. cbn [clip_size clip_start clip_duration
    crop_box box_size].
  destruct (clip_size c) as [w h]. cbn [fst snd].
  repeat split; f_equal; lia.
Qed.

Lemma apply_pan_effect_ok (c : clip) (duration : option Q)
    (direction : string) :
  ∃ c', apply_pan_effect c duration direction = Ok c'
        ∧ has_attributes c' (clip_size c)
            (default (clip_duration c) duration).
Proof.
  unfold apply_pan_effect, pan_frame_at.
  destruct (effect_progress_spec (default (clip_duration c) duration) 0)
    as (p & -> & _).
  rewrite !result_bind_Ok.
  destruct (clip_size c) as [w h]. cbn [fst snd].
  destruct (String.eqb direction "left");
    [|destruct (String.eqb direction "right");
      [|destruct (String.eqb direction "up");
        [|destruct (String.eqb direction "down")]]];
    (eexists; split; [reflexivity|];
     unfold has_attributes, VideoClip;
     cbn [clip_size clip_start clip_duration pan_box box_size];
     repeat split; f_equal; lia).
Qed.

(** Every supported effect gives a clip of the same size; all but
    ["none"] and ["shake"] give it the duration asked for. *)
Lemma apply_video_effect_attributes (c : clip) (effect_type : string)
    (d : Q) :
  effect_type ∈ EFFECT_TYPES →
  ∃ c', apply_video_effect c effect_type (Some d) None = Ok c'
        ∧ clip_size c' = clip_size c
        ∧ (if str_in effect_type ["none"; "shake"] then c' = c
           else clip_start c' = 0%Q ∧ clip_duration c' = d).
Proof.
  intros Htype. unfold apply_video_effect, validate_effect_type.
  rewrite (proj2 (str_in_true effect_type _) Htype). simpl negb. cbv iota.
  rewrite result_bind_Ok.
  assert ("in" ∈ ["in"; "out"]) as Hin by apply list_elem_of_here.
  assert ("out" ∈ ["in"; "out"]) as Hout
    by apply list_elem_of_further, list_elem_of_here.
  assert (1 < 12 # 10)%Q as H12 by (unfold Qlt; simpl; lia).
  assert (1 < 13 # 10)%Q as H13 by (unfold Qlt; simpl; lia).
  unfold EFFECT_TYPES in Htype.
  repeat (apply elem_of_cons in Htype as [-> | Htype]);
    try (apply elem_of_nil in Htype; contradiction).
  - exists c. repeat split.
  - destruct (apply_ken_burns_effect_ok c (Some d) (12 # 10) "in" Hin H12)
      as (c' & Hrun & Hsize & Hstart & Hdur).
    exists c'. split; [exact Hrun|]. repeat split; assumption.
  - destruct (apply_ken_burns_effect_ok c (Some d) (12 # 10) "out" Hout H12)
      as (c' & Hrun & Hsize & Hstart & Hdur).
    exists c'. split; [exact Hrun|]. repeat split; assumption.
  - exists c. repeat split.
  - destruct (apply_ken_burns_effect_ok c (Some d) (13 # 10) "in" Hin H13)
      as (c' & Hrun & Hsize & Hstart & Hdur).
    exists c'. split; [exact Hrun|]. repeat split; assumption.
  - destruct (apply_ken_burns_effect_ok c (Some d) (13 # 10) "out" Hout H13)
      as (c' & Hrun & Hsize & Hstart & Hdur).
    exists c'. split; [exact Hrun|]. repeat split; assumption.
  - destruct (apply_pan_effect_ok c (Some d) "left")
      as (c' & Hrun & Hsize & Hstart & Hdur).
    exists c'. split; [exact Hrun|]. repeat split; assumption.
  - destruct (apply_pan_effect_ok c (Some d) "right")
      as (c' & Hrun & Hsize & Hstart & Hdur).
    exists c'. split; [exact Hrun|]. repeat split; assumption.
  - destruct (apply_pan_effect_ok c (Some d) "up")
      as (c' & Hrun & Hsize & Hstart & Hdur).
    exists c'. split; [exact Hrun|]. repeat split; assumption.
  - destruct (apply_pan_effect_ok c (Some d) "down")
      as (c' & Hrun & Hsize & Hstart & Hdur).
    exists c'. split; [exact Hrun|]. repeat split; assumption.
Qed.

(** X14. [apply_video_effect] refuses an effect type outside
    [EFFECT_TYPES] with [ValueError]; for every supported type and every
    duration it succeeds and returns a clip of the size it was given. The
    types ["none"] and ["shake"] leave the clip as it is (its duration
    too); all others return a clip of the duration asked for that starts
    at 0. *)
Theorem apply_video_effect_keeps_size (c : clip) (effect_type : string)
    (d : Q) :
  (effect_type ∉ EFFECT_TYPES →
   apply_video_effect c effect_type (Some d) None = Raise ValueError)
  ∧ (effect_type ∈ EFFECT_TYPES →
     ∃ c', apply_video_effect c effect_type (Some d) None = Ok c'
           ∧ clip_size c' = clip_size c
           ∧ (if str_in effect_type ["none"; "shake"] then c' = c
              else clip_start c' = 0%Q ∧ clip_duration c' = d)).
Proof.
  split.
  - intros Htype. unfold apply_video_effect, validate_effect_type.
    now rewrite (proj2 (str_in_false effect_type _) Htype).
  - apply apply_video_effect_attributes.
Qed.

Lemma apply_video_effect_keeps_size_witness :
  let c := ColorClip (1080, 1920) 3 in
  ∃ c', apply_video_effect c "pan_left" (Some 5%Q) None = Ok c'
        ∧ clip_size c' = (1080, 1920)
        ∧ clip_duration c' = 5%Q.
Proof.
  intros c.
  destruct (proj2 (apply_video_effect_keeps_size c "pan_left" 5))
    as (c' & Hrun & Hsize & _ & Hdur).
  { apply str_in_true. vm_compute. reflexivity. }
  exists c'. repeat split; assumption.
Defined.

End EffectFacts.

(** ** Audio mixing *)

Section AudioMixerMoreFacts.

Import Render RenderSteps.

(** The BGM after it is looped or cut to the final duration. *)
Lemma fit_bgm_duration (bgm : audio_clip) (final_duration : Q) :
  (0 < audio_duration bgm)%Q → (0 <= final_duration)%Q →
  ∃ fitted,
    (if flt (audio_duration bgm) final_duration then
       audio_loop bgm final_duration
     else if flt final_duration (audio_duration bgm) then
       subclip bgm 0 final_duration
     else Ok bgm) = Ok fitted
    ∧ (audio_duration fitted == final_duration)%Q.
Proof.
  intros Hbgm Hfinal.
  destruct (flt (audio_duration bgm) final_duration) eqn:Eshort.
  - destruct (audio_loop_duration bgm final_duration Hbgm)
      as (looped & -> & Hloop).
    exists looped. split; [reflexivity|]. now rewrite Hloop.
  - apply flt_false in Eshort.
    destruct (flt final_duration (audio_duration bgm)) eqn:Elong.
    + apply subclip_from_zero; lra.
    + apply flt_false in Elong. exists bgm. split; [reflexivity|]. lra.
Qed.

(** The BGM track as it enters the mix. *)
Lemma bgm_track_duration (bgm : audio_clip)
    (bgm_volume bgm_fade_in bgm_fade_out final_duration : Q) :
  in_range BGM_FADE_IN_MIN BGM_FADE_IN_MAX bgm_fade_in →
  in_range BGM_FADE_OUT_MIN BGM_FADE_OUT_MAX bgm_fade_out →
  (0 < audio_duration bgm)%Q → (0 <= final_duration)%Q →
  ∃ track,
    ((if flt (audio_duration bgm) final_duration then
        audio_loop bgm final_duration
      else if flt final_duration (audio_duration bgm) then
        subclip bgm 0 final_duration
      else Ok bgm) ≫= λ fitted,
     apply_bgm_fade_effects (volumex fitted bgm_volume) bgm_fade_in
       bgm_fade_out ≫= λ faded, Ok [faded]) = Ok [track]
    ∧ (audio_duration track == final_duration)%Q.
Proof.
  intros Hin Hout Hbgm Hfinal.
  destruct (fit_bgm_duration bgm final_duration Hbgm Hfinal)
    as (fitted & -> & Hfitted).
  rewrite result_bind_Ok.
  destruct (apply_bgm_fade_effects_duration (volumex fitted bgm_volume)
              bgm_fade_in bgm_fade_out Hin Hout) as (faded & -> & Hfaded).
  rewrite result_bind_Ok. exists faded. split; [reflexivity|].
  rewrite Hfaded. exact Hfitted.
Qed.

(** The narration as it enters the mix: untouched when it is not longer
    than the target, cut to the target otherwise. *)
Lemma voice_track (voice : audio_clip) (target : option Q) :
  (0 <= audio_duration voice)%Q →
  (∀ t, target = Some t → (0 <= t)%Q) →
  ∃ track,
    match target with
    | Some t =>
      if negb (Qeq_bool (audio_duration voice) t) then
        if flt (audio_duration voice) t then Ok voice
        else subclip voice 0 t
      else Ok voice
    | None => Ok voice
    end = Ok track
    ∧ audio_gain track = audio_gain voice
    ∧ (∀ t, target = Some t → (audio_duration voice <= t)%Q → track = voice)
    ∧ (∀ t, target = Some t → (t < audio_duration voice)%Q →
            (audio_duration track == t)%Q)
    ∧ (target = None → track = voice).
Proof.
  intros Hvoice Htarget. destruct target as [t|].
  - pose proof (Htarget t eq_refl) as Ht.
    destruct (Qeq_bool (audio_duration voice) t) eqn:Esame; simpl negb;
      cbv iota.
    + apply Qeq_bool_iff in Esame. exists voice.
      repeat split; try reflexivity.
      intros t' [= <-] Hlt. lra.
    + destruct (flt (audio_duration voice) t) eqn:Eshort.
      * apply flt_true in Eshort. exists voice.
        repeat split; try reflexivity.
        intros t' [= <-] Hlt. lra.
      * apply flt_false in Eshort.
        unfold subclip. change (flt 0 0) with false. cbv iota.
        rewrite (proj2 (flt_false _ _) Hvoice), (proj2 (flt_false _ _) Ht).
        eexists. split; [reflexivity|]. cbn [audio_gain audio_duration].
        repeat split.
        -- intros t' [= <-] Hle.
           assert (audio_duration voice == t)%Q as Heq by lra.
           apply Qeq_bool_iff in Heq. congruence.
        -- intros t' [= <-] _. ring.
        -- discriminate.
  - exists voice. repeat split; try reflexivity; discriminate.
Qed.

(** X15. With a narration and a BGM, settings in their ranges and clips
    of positive duration, the mix is one track whose duration is the
    target duration when there is one and the duration of the narration
    otherwise: the BGM is looped or cut to it and a longer narration is
    cut to the target. *)
Theorem mix_audio_tracks_both
    (voice bgm : audio_clip) (bgm_volume bgm_fade_in bgm_fade_out : Q)
    (target : option Q) :
  in_range BGM_VOLUME_MIN BGM_VOLUME_MAX bgm_volume →
  in_range BGM_FADE_IN_MIN BGM_FADE_IN_MAX bgm_fade_in →
  in_range BGM_FADE_OUT_MIN BGM_FADE_OUT_MAX bgm_fade_out →
  (0 < audio_duration voice)%Q → (0 < audio_duration bgm)%Q →
  (∀ t, target = Some t → (0 <= t)%Q) →
  ∃ mixed,
    mix_audio_tracks (Some voice) (Some bgm) bgm_volume bgm_fade_in
      bgm_fade_out target = Ok (Some mixed)
    ∧ (audio_duration mixed == default (audio_duration voice) target)%Q.
Proof.
  intros Hvol Hin Hout Hvoice Hbgm Htarget. unfold mix_audio_tracks.
  rewrite (validate_bgm_volume_ok _ Hvol), result_bind_Ok.
  rewrite (validate_bgm_fade_in_ok _ Hin), result_bind_Ok.
  rewrite (validate_bgm_fade_out_ok _ Hout), result_bind_Ok.
  set (final := default (audio_duration voice) target).
  assert (final_duration_of (Some voice) (Some bgm) target = Some final)
    as -> by (subst final; destruct target; reflexivity).
  assert (0 <= final)%Q as Hfinal.
  { subst final. destruct target as [t|]; simpl; [now apply Htarget|lra]. }
  destruct (voice_track voice target) as (v & -> & _ & Hkeep & Hcut & Hnone);
    [lra|exact Htarget|].
  rewrite !result_bind_Ok.
  destruct (bgm_track_duration bgm bgm_volume bgm_fade_in bgm_fade_out final
              Hin Hout Hbgm Hfinal) as (track & -> & Htrack).
  rewrite result_bind_Ok. eexists. split; [reflexivity|].
  cbn [app CompositeAudioClip audio_duration foldl].
  rewrite Htrack.
  assert (audio_duration v <= final)%Q as Hle.
  { subst final. destruct target as [t|]; simpl.
    - destruct (Qlt_le_dec t (audio_duration voice)) as [Hlong|Hshort].
      + rewrite (Hcut t eq_refl Hlong). lra.
      + rewrite (Hkeep t eq_refl Hshort). exact Hshort.
    - rewrite (Hnone eq_refl). lra. }
  apply Q.max_r. exact Hle.
Qed.

Lemma mix_audio_tracks_both_witness :
  let voice := {| audio_duration := 12; audio_gain := 1 |} in
  let bgm := {| audio_duration := 5; audio_gain := 1 |} in
  ∃ mixed,
    mix_audio_tracks (Some voice) (Some bgm) (3 # 10) 1 2 (Some 8%Q)
    = Ok (Some mixed)
    ∧ (audio_duration mixed == 8)%Q.
Proof.
  intros voice bgm.
  apply (mix_audio_tracks_both voice bgm (3 # 10) 1 2 (Some 8%Q));
    try (split; unfold Qle; simpl; lia);
    try (unfold Qlt; simpl; lia).
  intros t [= <-]. unfold Qle; simpl; lia.
Defined.

(** X16. A narration without BGM is never stretched or looped: with no
    target, or a target not shorter than the narration, the result is the
    narration itself; with a shorter target it is the narration cut to
    the target, at its own volume. *)
Theorem mix_audio_tracks_narration_only
    (voice : audio_clip) (bgm_volume bgm_fade_in bgm_fade_out : Q) :
  in_range BGM_VOLUME_MIN BGM_VOLUME_MAX bgm_volume →
  in_range BGM_FADE_IN_MIN BGM_FADE_IN_MAX bgm_fade_in →
  in_range BGM_FADE_OUT_MIN BGM_FADE_OUT_MAX bgm_fade_out →
  (0 <= audio_duration voice)%Q →
  mix_audio_tracks (Some voice) None bgm_volume bgm_fade_in bgm_fade_out
    None = Ok (Some voice)
  ∧ (∀ target, (audio_duration voice <= target)%Q →
       mix_audio_tracks (Some voice) None bgm_volume bgm_fade_in
         bgm_fade_out (Some target) = Ok (Some voice))
  ∧ (∀ target, (0 <= target)%Q → (target < audio_duration voice)%Q →
       ∃ cut,
         mix_audio_tracks (Some voice) None bgm_volume bgm_fade_in
           bgm_fade_out (Some target) = Ok (Some cut)
         ∧ (audio_duration cut == target)%Q
         ∧ audio_gain cut = audio_gain voice).
Proof.
  intros Hvol Hin Hout Hvoice.
  assert (∀ target,
            (∀ t, target = Some t → (0 <= t)%Q) →
            ∃ v,
              mix_audio_tracks (Some voice) None bgm_volume bgm_fade_in
                bgm_fade_out target = Ok (Some v)
              ∧ audio_gain v = audio_gain voice
              ∧ (∀ t, target = Some t → (audio_duration voice <= t)%Q →
                      v = voice)
              ∧ (∀ t, target = Some t → (t < audio_duration voice)%Q →
                      (audio_duration v == t)%Q)
              ∧ (target = None → v = voice)) as Hmix.
  { intros target Htarget. unfold mix_audio_tracks.
    rewrite (validate_bgm_volume_ok _ Hvol), result_bind_Ok.
    rewrite (validate_bgm_fade_in_ok _ Hin), result_bind_Ok.
    rewrite (validate_bgm_fade_out_ok _ Hout), result_bind_Ok.
    assert (∃ final, final_duration_of (Some voice) None target = Some final)
      as [final ->] by (destruct target; eexists; reflexivity).
    destruct (voice_track voice target Hvoice Htarget)
      as (v & -> & Hgain & Hrest).
    rewrite !result_bind_Ok. exists v. split; [reflexivity|].
    split; assumption. }
  split; [|split].
  - destruct (Hmix None) as (v & -> & _ & _ & _ & Hnone); [discriminate|].
    now rewrite (Hnone eq_refl).
  - intros target Hshort.
    destruct (Hmix (Some target)) as (v & -> & _ & Hkeep & _).
    { intros t [= <-]. lra. }
    now rewrite (Hkeep target eq_refl Hshort).
  - intros target Hpos Hlong.
    destruct (Hmix (Some target)) as (v & -> & Hgain & _ & Hcut & _).
    { intros t [= <-]. exact Hpos. }
    exists v. split; [reflexivity|]. split; [|exact Hgain].
    exact (Hcut target eq_refl Hlong).
Qed.

Lemma mix_audio_tracks_narration_only_witness :
  let voice := {| audio_duration := 4; audio_gain := 1 |} in
  mix_audio_tracks (Some voice) None (3 # 10) 0 0 (Some 10%Q)
  = Ok (Some voice).
Proof.
  intros voice.
  apply (mix_audio_tracks_narration_only voice (3 # 10) 0 0);
    try (split; unfold Qle; simpl; lia); unfold Qle; simpl; lia.
Defined.

(** X17. The three BGM settings are checked before anything else: when
    one of them is outside its range, [mix_audio_tracks] raises
    [ValueError] whatever the tracks and the target are, even when there
    is nothing to mix. *)
Theorem mix_audio_tracks_checks_settings_first
    (voice_audio bgm_audio : option audio_clip)
    (bgm_volume bgm_fade_in bgm_fade_out : Q) (target : option Q) :
  ¬ (in_range BGM_VOLUME_MIN BGM_VOLUME_MAX bgm_volume
     ∧ in_range BGM_FADE_IN_MIN BGM_FADE_IN_MAX bgm_fade_in
     ∧ in_range BGM_FADE_OUT_MIN BGM_FADE_OUT_MAX bgm_fade_out) →
  mix_audio_tracks voice_audio bgm_audio bgm_volume bgm_fade_in
    bgm_fade_out target = Raise ValueError.
Proof.
  intros Hbad. unfold mix_audio_tracks.
  unfold validate_bgm_volume.
  destruct (flt bgm_volume BGM_VOLUME_MIN) eqn:V1; [reflexivity|].
  destruct (flt BGM_VOLUME_MAX bgm_volume) eqn:V2; [reflexivity|].
  simpl orb. cbv iota. rewrite result_bind_Ok.
  unfold validate_bgm_fade_in.
  destruct (flt bgm_fade_in BGM_FADE_IN_MIN) eqn:I1; [reflexivity|].
  destruct (flt BGM_FADE_IN_MAX bgm_fade_in) eqn:I2; [reflexivity|].
  simpl orb. cbv iota. rewrite result_bind_Ok.
  unfold validate_bgm_fade_out.
  destruct (flt bgm_fade_out BGM_FADE_OUT_MIN) eqn:O1; [reflexivity|].
  destruct (flt BGM_FADE_OUT_MAX bgm_fade_out) eqn:O2; [reflexivity|].
  exfalso. apply Hbad. unfold in_range.
  apply flt_false in V1, V2, I1, I2, O1, O2. tauto.
Qed.

Lemma mix_audio_tracks_checks_settings_first_witness :
  mix_audio_tracks None None (3 # 2) 0 0 None = Raise ValueError.
Proof.
  apply mix_audio_tracks_checks_settings_first.
  intros [[_ Hhi] _]. revert Hhi. unfold Qle; simpl; lia.
Defined.

(** The audio step on numeric settings. *)
Lemma audio_stage_result
    (config : gmap string pyval) (voice_audio bgm_audio : option audio_clip)
    (actual_duration : Q) :
  (∀ key v, key ∈ BGM_KEYS → config !! key = Some v → is_number v) →
  (∀ a, voice_audio = Some a → (0 < audio_duration a)%Q) →
  (∀ a, bgm_audio = Some a → (0 < audio_duration a)%Q) →
  (0 <= actual_duration)%Q →
  ∃ audio,
    audio_stage config voice_audio bgm_audio actual_duration = Ok audio
    ∧ (audio = None ↔ voice_audio = None ∧ bgm_audio = None)
    ∧ (∀ mixed, bgm_audio ≠ None → audio = Some mixed →
                (audio_duration mixed == actual_duration)%Q).
Proof.
  intros Htyped Hvoice Hbgm Hduration. unfold audio_stage.
  assert (∀ key dflt lo hi,
            key ∈ BGM_KEYS → is_number dflt → (lo <= hi)%Q →
            ∃ x, clamp lo hi (dict_get config key dflt) = Ok x
                 ∧ in_range lo hi x) as Hclamp.
  { intros key dflt lo hi Hkey Hdflt Hle. unfold clamp.
    destruct (py_num_number (dict_get config key dflt)) as [x ->].
    { apply dict_get_typed; [|exact Hdflt].
      intros v Hv. exact (Htyped key v Hkey Hv). }
    rewrite result_bind_Ok. eexists. split; [reflexivity|].
    exact (proj1 (py_min_py_max_clamped lo hi x Hle)). }
  destruct (Hclamp "bgm_volume" (VFloat BGM_VOLUME_DEFAULT)
              BGM_VOLUME_MIN BGM_VOLUME_MAX) as (vol & -> & Hvol);
    [apply list_elem_of_here | exact I | unfold Qle; simpl; lia |].
  rewrite result_bind_Ok.
  destruct (Hclamp "bgm_fade_in" (VFloat BGM_FADE_IN_DEFAULT)
              BGM_FADE_IN_MIN BGM_FADE_IN_MAX) as (fin & -> & Hin);
    [apply list_elem_of_further, list_elem_of_here | exact I
    | unfold Qle; simpl; lia |].
  rewrite result_bind_Ok.
  destruct (Hclamp "bgm_fade_out" (VFloat BGM_FADE_OUT_DEFAULT)
              BGM_FADE_OUT_MIN BGM_FADE_OUT_MAX) as (fout & -> & Hout);
    [do 2 apply list_elem_of_further; apply list_elem_of_here | exact I
    | unfold Qle; simpl; lia |].
  rewrite result_bind_Ok.
  unfold mix_audio_tracks.
  rewrite (validate_bgm_volume_ok _ Hvol), result_bind_Ok.
  rewrite (validate_bgm_fade_in_ok _ Hin), result_bind_Ok.
  rewrite (validate_bgm_fade_out_ok _ Hout), result_bind_Ok.
  change (final_duration_of voice_audio bgm_audio (Some actual_duration))
    with (Some actual_duration).
  cbv iota.
  destruct voice_audio as [voice|], bgm_audio as [bgm|].
  - destruct (voice_track voice (Some actual_duration))
      as (v & -> & _ & Hkeep & Hcut & _).
    { pose proof (Hvoice voice eq_refl). lra. }
    { intros t [= <-]. exact Hduration. }
    rewrite !result_bind_Ok.
    destruct (bgm_track_duration bgm vol fin fout actual_duration Hin Hout
                (Hbgm bgm eq_refl) Hduration) as (track & -> & Htrack).
    rewrite result_bind_Ok. eexists. split; [reflexivity|].
    split; [split; [discriminate|intros [? _]; discriminate]|].
    intros mixed _ [= <-].
    cbn [app CompositeAudioClip audio_duration foldl].
    rewrite Htrack. apply Q.max_r.
    destruct (Qlt_le_dec actual_duration (audio_duration voice))
      as [Hlong|Hshort].
    + rewrite (Hcut _ eq_refl Hlong). lra.
    + rewrite (Hkeep _ eq_refl Hshort). exact Hshort.
  - destruct (voice_track voice (Some actual_duration))
      as (v & -> & _).
    { pose proof (Hvoice voice eq_refl). lra. }
    { intros t [= <-]. exact Hduration. }
    rewrite !result_bind_Ok. eexists. split; [reflexivity|].
    split; [split; [discriminate|intros [? _]; discriminate]|].
    intros mixed Hno. contradiction.
  - rewrite result_bind_Ok.
    destruct (bgm_track_duration bgm vol fin fout actual_duration Hin Hout
                (Hbgm bgm eq_refl) Hduration) as (track & -> & Htrack).
    rewrite result_bind_Ok. eexists. split; [reflexivity|].
    split; [split; [discriminate|intros [_ ?]; discriminate]|].
    intros mixed _ [= <-]. exact Htrack.
  - rewrite !result_bind_Ok. eexists. split; [reflexivity|].
    split; [split; [split; reflexivity|reflexivity]|].
    intros mixed Hno. contradiction.
Qed.

(** X18. The audio step of the render cannot be refused for its
    settings: whatever numbers the configuration holds for the BGM
    volume and fades, they are clamped into their ranges before the mix.
    For tracks of positive duration the step succeeds; it gives no audio
    exactly when there is neither narration nor BGM, and with a BGM the
    audio lasts exactly as long as the video. *)
Theorem audio_stage_never_rejects_settings
    (config : gmap string pyval) (voice_audio bgm_audio : option audio_clip)
    (actual_duration : Q) :
  (∀ key v, key ∈ BGM_KEYS → config !! key = Some v → is_number v) →
  (∀ a, voice_audio = Some a → (0 < audio_duration a)%Q) →
  (∀ a, bgm_audio = Some a → (0 < audio_duration a)%Q) →
  (0 <= actual_duration)%Q →
  ∃ audio,
    audio_stage config voice_audio bgm_audio actual_duration = Ok audio
    ∧ (audio = None ↔ voice_audio = None ∧ bgm_audio = None)
    ∧ (∀ mixed, bgm_audio ≠ None → audio = Some mixed →
                (audio_duration mixed == actual_duration)%Q).
Proof.
  exact (audio_stage_result config voice_audio bgm_audio actual_duration).
Qed.

Lemma audio_stage_never_rejects_settings_witness :
  let config : gmap string pyval := {[ "bgm_volume" := VInt 7 ]} in
  let bgm := {| audio_duration := 5; audio_gain := 1 |} in
  ∃ audio,
    audio_stage config None (Some bgm) 8 = Ok audio
    ∧ (∀ mixed, audio = Some mixed → (audio_duration mixed == 8)%Q).
Proof.
  intros config bgm.
  destruct (audio_stage_never_rejects_settings config None (Some bgm) 8)
    as (audio & Hrun & _ & Hdur).
  - intros key v _ Hv. subst config.
    destruct (decide (key = "bgm_volume")) as [->|Hne].
    + rewrite lookup_singleton in Hv. injection Hv as <-. exact I.
    + rewrite lookup_singleton_ne in Hv by congruence. discriminate.
  - discriminate.
  - intros a [= <-]. unfold Qlt; simpl; lia.
  - unfold Qle; simpl; lia.
  - exists audio. split; [exact Hrun|].
    intros mixed Hmixed. apply Hdur; [discriminate|exact Hmixed].
Defined.

End AudioMixerMoreFacts.

(** ** The timeline of a render, with its transforms in place *)

Section TimelineFacts.

Import Render RenderSteps Effects.

(** What the render needs from a segment: the canvas size, the start of
    its own timeline and the segment duration. *)
Lemma adapt_media_to_size_attributes
    (c : clip) (target_w target_h : Z) (fit_mode : string) :
  fit_mode ∈ FIT_MODES →
  0 < fst (clip_size c) → 0 < snd (clip_size c) →
  0 < target_w → 0 < target_h →
  (fit_mode = "fit" → fits_inside (clip_size c) (target_w, target_h)) →
  fresh c →
  ∃ c', adapt_media_to_size c (target_w, target_h) fit_mode = Ok c'
    ∧ clip_size c' = (target_w, target_h)
    ∧ (clip_duration c' == clip_duration c)%Q
    ∧ fresh c'.
Proof.
  intros Hmode Hcw Hch Htw Hth Hfits Hfresh.
  destruct (adapt_media_to_size_duration c target_w target_h fit_mode)
    as (c' & Hrun & Hdur & Hstart); try assumption.
  exists c'. split; [exact Hrun|]. split; [|split; assumption].
  unfold FIT_MODES in Hmode.
  repeat (apply elem_of_cons in Hmode as [-> | Hmode]);
    try (apply elem_of_nil in Hmode; contradiction).
  - destruct (adapt_media_crop_size c target_w target_h)
      as (c1 & Hc1 & Hsize & _); try assumption.
    change (adapt_media_to_size c (target_w, target_h) "crop")
      with (adapt_media_crop c (target_w, target_h)) in Hrun.
    congruence.
  - destruct (adapt_media_fit_size c target_w target_h)
      as (c1 & Hc1 & Hsize); try assumption; [now apply Hfits|].
    change (adapt_media_to_size c (target_w, target_h) "fit")
      with (adapt_media_fit c (target_w, target_h)) in Hrun.
    congruence.
  - change (adapt_media_to_size c (target_w, target_h) "stretch")
      with (adapt_media_stretch c (target_w, target_h)) in Hrun.
    rewrite adapt_media_stretch_size in Hrun by assumption.
    injection Hrun as <-. reflexivity.
Qed.

(** The effect step keeps the size of an image, whatever the effect type
    is, and leaves it the start and the segment duration it had. *)
Lemma effect_stage_attributes (c : clip) (effect_type : pyval) (seg : Q) :
  let c' := effect_stage apply_video_effect_of c effect_type seg in
  clip_size c' = clip_size c
  ∧ (fresh c → fresh c')
  ∧ ((clip_duration c == seg)%Q → (clip_duration c' == seg)%Q).
Proof.
  unfold effect_stage.
  destruct (effect_requested effect_type); [|repeat split; auto].
  unfold apply_video_effect_of.
  destruct (py_member effect_type EFFECT_TYPES) as [[key|]|e] eqn:Hkey;
    try (repeat split; auto; fail).
  assert (key ∈ EFFECT_TYPES) as Hin.
  { unfold py_member, py_in in Hkey.
    destruct effect_type; try discriminate.
    rewrite result_bind_Ok in Hkey.
    destruct (str_in s EFFECT_TYPES) eqn:E; [|discriminate].
    injection Hkey as <-. now apply str_in_true. }
  rewrite result_bind_Ok.
  destruct (apply_video_effect_attributes c key seg Hin)
    as (c' & -> & Hsize & Hrest).
  cbn [try_except]. split; [exact Hsize|].
  destruct (str_in key ["none"; "shake"]).
  - subst c'. split; auto.
  - destruct Hrest as [Hstart Hdur]. unfold fresh.
    rewrite Hstart, Hdur. split; intros; reflexivity.
Qed.

(** The color filter and the adjustments change pixels only. *)
Lemma filter_stage_same (c : clip) (color_filter : string) :
  filter_stage apply_color_filter c color_filter = c.
Proof.
  unfold filter_stage. destruct (_ && _); [|reflexivity].
  unfold apply_color_filter, validate_color_filter.
  destruct (negb (str_in color_filter COLOR_FILTERS)); [reflexivity|].
  rewrite result_bind_Ok.
  repeat (destruct (String.eqb color_filter _); [reflexivity|]).
  reflexivity.
Qed.

Lemma adjust_stage_same (c : clip) (brightness contrast saturation : Q) :
  adjust_stage apply_video_adjustments c brightness contrast saturation = c.
Proof.
  unfold adjust_stage. destruct (_ || _); [|reflexivity].
  unfold apply_video_adjustments, validate_video_adjustments.
  destruct (validate_brightness brightness); [|reflexivity].
  rewrite result_bind_Ok.
  destruct (validate_contrast contrast); [|reflexivity].
  rewrite result_bind_Ok.
  destruct (validate_saturation saturation); [|reflexivity].
  rewrite !result_bind_Ok.
  destruct (_ && _); reflexivity.
Qed.

Lemma build_segment_built (src : segment_source) (size : Z * Z)
    (st : styling) (seg : Q) :
  resolved st → 0 < fst size → 0 < snd size → loaded seg src →
  fits_canvas size (st_fit_mode st) src →
  ∃ c, build_segment apply_video_effect_of apply_color_filter
         apply_video_adjustments src size st seg = Ok c
       ∧ built size seg c.
Proof.
  intros (Hmode & _ & _) Hw Hh Hsrc Hfits. unfold build_segment.
  destruct size as [target_w target_h]. simpl in Hw, Hh.
  assert (∀ c, 0 < fst (clip_size c) → 0 < snd (clip_size c) → fresh c →
               (clip_duration c == seg)%Q →
               (st_fit_mode st = "fit" →
                fits_inside (clip_size c) (target_w, target_h)) →
               ∃ c', adapt_media_to_size c (target_w, target_h)
                       (st_fit_mode st) = Ok c'
                     ∧ built (target_w, target_h) seg c') as Hadapt.
  { intros c Hcw Hch Hfresh Hdur Hin.
    destruct (adapt_media_to_size_attributes c target_w target_h
                (st_fit_mode st)) as (c' & Hrun & Hsize & Hd & Hf);
      try assumption.
    exists c'. split; [exact Hrun|]. split; [exact Hsize|].
    split; [exact Hf|]. now rewrite Hd. }
  destruct src as [image|video|].
  - destruct Hsrc as (Hcw & Hch & Hfresh & Hdur).
    destruct (effect_stage_attributes image (st_effect_type st) seg)
      as (Hsize & Hkeep & Hlen).
    destruct (Hadapt (effect_stage apply_video_effect_of image
                        (st_effect_type st) seg))
      as (c' & -> & Hbuilt);
      [now rewrite Hsize | now rewrite Hsize | auto | auto
      | rewrite Hsize; exact Hfits |].
    rewrite result_bind_Ok, filter_stage_same, adjust_stage_same. eauto.
  - destruct Hsrc as (Hcw & Hch & Hfresh & Hdur).
    destruct (Hadapt video) as (c' & -> & Hbuilt); try assumption.
    rewrite result_bind_Ok, filter_stage_same, adjust_stage_same. eauto.
  - rewrite result_bind_Ok, filter_stage_same, adjust_stage_same.
    eexists. split; [reflexivity|]. repeat split; reflexivity.
Qed.

Lemma build_segments_built (sources : list segment_source) (size : Z * Z)
    (st : styling) (seg : Q) :
  resolved st → 0 < fst size → 0 < snd size →
  Forall (loaded seg) sources →
  Forall (fits_canvas size (st_fit_mode st)) sources →
  ∃ clips,
    mapM (λ src, build_segment apply_video_effect_of apply_color_filter
                   apply_video_adjustments src size st seg) sources
    = Ok clips
    ∧ length clips = length sources
    ∧ Forall (built size seg) clips.
Proof.
  intros Hst Hw Hh Hall Hfit.
  induction Hall as [|src sources Hsrc _ IH].
  - exists []. repeat split. constructor.
  - apply Forall_cons in Hfit as [Hfits Hfit].
    destruct (build_segment_built src size st seg Hst Hw Hh Hsrc Hfits)
      as (c & Hc & Hbuilt).
    destruct (IH Hfit) as (clips & Hclips & Hlen & Hall).
    exists (c :: clips). split; [|split].
    + simpl. rewrite Hc, result_bind_Ok, Hclips. reflexivity.
    + simpl. now rewrite Hlen.
    + now constructor.
Qed.

Lemma total_duration_built (size : Z * Z) (seg : Q) (clips : list clip) :
  Forall (built size seg) clips →
  (total_duration clips == inject_Z (Z.of_nat (length clips)) * seg)%Q.
Proof.
  induction 1 as [|c clips (_ & _ & Hdur) _ IH].
  - simpl. change (inject_Z (Z.of_nat 0)) with 0%Q. ring.
  - simpl total_duration. rewrite IH, Hdur.
    change (length (c :: clips)) with (S (length clips)).
    rewrite Nat2Z.inj_succ. unfold Z.succ. rewrite inject_Z_plus.
    change (inject_Z 1) with 1%Q. ring.
Qed.

Lemma concatenate_duration (first : clip) (rest : list clip) :
  (clip_duration (concatenate_videoclips first rest)
   == clip_duration first + total_duration rest)%Q.
Proof.
  unfold concatenate_videoclips. cbn [clip_duration].
  generalize (clip_duration first) as t.
  induction rest as [|c rest IH]; intros t.
  - simpl. ring.
  - cbn [foldl]. rewrite IH. simpl total_duration. ring.
Qed.

(** The composed timeline of built segments. *)
Lemma compose_segments_built (first : clip) (rest : list clip)
    (size : Z * Z) (seg total : Q) (st : styling) :
  resolved st → (st_transition_duration st < seg)%Q →
  Forall (built size seg) (first :: rest) →
  let final :=
    compose_segments apply_transitions_to_clips (first :: rest) size total
      st in
  clip_size final = size
  ∧ fresh final
  ∧ (clip_duration final
     == inject_Z (Z.of_nat (S (length rest))) * seg
        - (if py_truthy (st_transition_enabled st)
              && negb (String.eqb (st_transition_type st) "none")
              && (1 <? S (length rest))%nat
           then inject_Z (Z.of_nat (S (length rest)) - 1)
                * st_transition_duration st
           else 0))%Q.
Proof.
  intros (_ & Htype & Hd) Hlong Hall final.
  pose proof (total_duration_built size seg (first :: rest) Hall) as Hsum.
  change (length (first :: rest)) with (S (length rest)) in Hsum.
  pose proof Hall as Hall'.
  apply Forall_cons in Hall' as [(Hsize & Hfresh & Hdur) Hrest].
  subst final. unfold compose_segments.
  destruct rest as [|second rest].
  { cbn [length]. change (1 <? 1)%nat with false.
    rewrite andb_false_r. split; [exact Hsize|]. split; [exact Hfresh|].
    rewrite Hdur. change (inject_Z (Z.of_nat 1)) with 1%Q. ring. }
  assert ((1 <? S (length (second :: rest)))%nat = true) as ->
    by (apply Nat.ltb_lt; simpl; lia).
  rewrite andb_true_r.
  assert (clip_size (concatenate_videoclips first (second :: rest)) = size
          ∧ (clip_duration (concatenate_videoclips first (second :: rest))
             == inject_Z (Z.of_nat (S (length (second :: rest)))) * seg)%Q)
    as [Hcat_size Hcat_dur].
  { split; [exact Hsize|]. rewrite concatenate_duration, <- Hsum.
    reflexivity. }
  destruct (py_truthy (st_transition_enabled st)
            && negb (String.eqb (st_transition_type st) "none")) eqn:Eon.
  - apply andb_true_iff in Eon as [_ Enone].
    apply negb_true_iff, String.eqb_neq in Enone.
    assert (Forall (λ c, (st_transition_duration st < clip_duration c)%Q)
              (second :: rest)) as Hlongs.
    { eapply Forall_impl; [exact Hrest|].
      intros c (_ & _ & Hc). now rewrite Hc. }
    destruct (fold_transitions_duration (st_transition_type st)
                (st_transition_duration st) Htype Enone Hd
                (second :: rest) first Hfresh)
      as (r & Hr & Hrfresh & Hrdur); [now rewrite Hdur|exact Hlongs|].
    destruct (fold_transitions_size (st_transition_type st)
                (st_transition_duration st) Htype Enone Hd
                (second :: rest) first) as (r' & Hr' & Hrsize).
    assert (r' = r) as -> by congruence.
    assert (apply_transitions_to_clips (first :: second :: rest)
              (st_transition_type st) (st_transition_duration st) = Ok r)
      as ->.
    { unfold apply_transitions_to_clips.
      rewrite (validate_transition_type_ok _ Htype), result_bind_Ok.
      destruct (String.eqb (st_transition_type st) "none") eqn:E.
      { apply String.eqb_eq in E. contradiction. }
      simpl negb. cbv iota.
      now rewrite (validate_transition_duration_ok _ Hd), result_bind_Ok. }
    cbn [try_except]. split; [now rewrite Hrsize|].
    split; [exact Hrfresh|].
    rewrite Hrdur, <- Hsum.
    change (total_duration (first :: second :: rest))
      with (clip_duration first + total_duration (second :: rest))%Q.
    replace (Z.of_nat (S (length (second :: rest))) - 1)
      with (Z.of_nat (length (second :: rest))) by lia.
    ring.
  - split; [exact Hcat_size|]. split; [reflexivity|].
    rewrite Hcat_dur. ring.
Qed.

(** Segments and composition against the plan. *)
Lemma render_timeline_planned
    (min_dur max_dur : Q) (media_files sentences : nat) (st : styling)
    (sources : list segment_source) (size : Z * Z) :
  let plan := plan_timeline min_dur max_dur media_files sentences st in
  resolved st → 0 < fst size → 0 < snd size →
  length sources = plan_num_clips plan →
  Forall (loaded (plan_clip_duration plan)) sources →
  Forall (fits_canvas size (st_fit_mode st)) sources →
  (st_transition_duration st < plan_clip_duration plan)%Q →
  ∃ final,
    render_timeline sources size st (plan_clip_duration plan)
      (plan_total_duration plan) = Ok final
    ∧ clip_size final = size
    ∧ (clip_duration final == plan_total_duration plan)%Q
    ∧ fresh final.
Proof.
  intros plan Hst Hw Hh Hlen Hsources Hfit Hlong.
  unfold render_timeline, Render.render_timeline.
  destruct (build_segments_built sources size st (plan_clip_duration plan)
              Hst Hw Hh Hsources Hfit) as (clips & -> & Hlen' & Hbuilt).
  rewrite result_bind_Ok. eexists. split; [reflexivity|].
  destruct clips as [|first rest].
  { exfalso.
    assert (1 ≤ plan_num_clips plan)%nat as Hone
      by (subst plan; unfold plan_timeline; cbn [plan_num_clips]; lia).
    simpl in Hlen'. lia. }
  destruct (compose_segments_built first rest size (plan_clip_duration plan)
              (plan_total_duration plan) st Hst Hlong Hbuilt)
    as (Hsize & Hstart & Hdur).
  split; [exact Hsize|]. split; [|exact Hstart]. rewrite Hdur.
  assert (S (length rest) = plan_num_clips plan) as Hn
    by (rewrite <- Hlen, <- Hlen'; reflexivity).
  rewrite Hn. subst plan. unfold plan_timeline.
  cbn [plan_clip_duration plan_num_clips plan_total_duration].
  reflexivity.
Qed.

(** X19. The timeline comes out as planned. For a resolved styling, a
    canvas of positive size and sources loaded at the segment duration
    that, in fit mode, fit inside the canvas (the scaled source keeps at
    least one pixel on each axis), with a segment longer than the
    transition, building the segments and composing them succeeds with
    every effect type, color filter and adjustment; the final clip has the
    canvas size, starts at 0, and its duration is the planned total: the
    number of segments times the segment duration, less one transition per
    cut when transitions are on. *)
Theorem render_timeline_matches_plan
    (min_dur max_dur : Q) (media_files sentences : nat) (st : styling)
    (sources : list segment_source) (size : Z * Z) :
  let plan := plan_timeline min_dur max_dur media_files sentences st in
  resolved st → 0 < fst size → 0 < snd size →
  length sources = plan_num_clips plan →
  Forall (loaded (plan_clip_duration plan)) sources →
  Forall (fits_canvas size (st_fit_mode st)) sources →
  (st_transition_duration st < plan_clip_duration plan)%Q →
  ∃ final,
    render_timeline sources size st (plan_clip_duration plan)
      (plan_total_duration plan) = Ok final
    ∧ clip_size final = size
    ∧ (clip_duration final == plan_total_duration plan)%Q
    ∧ fresh final.
Proof.
  exact (render_timeline_planned min_dur max_dur media_files sentences st sources size).
Qed.

Lemma render_timeline_matches_plan_witness :
  let st :=
    {| st_fit_mode := "fit"; st_transition_enabled := VBool true;
       st_transition_type := "fade"; st_transition_duration := 1 # 2;
       st_effect_type := VStr "ken_burns_in"; st_color_filter := "warm";
       st_brightness := 1; st_contrast := 1; st_saturation := 1 |} in
  let image := ImageSource (ColorClip (4000, 3000) (13 # 2)) in
  ∃ final,
    render_timeline [image; image; image] (1080, 1920) st (13 # 2)
      (37 # 2) = Ok final
    ∧ clip_size final = (1080, 1920)
    ∧ (clip_duration final == 37 # 2)%Q.
Proof.
  intros st image.
  destruct (render_timeline_matches_plan 3 10 1 3 st [image; image; image]
              (1080, 1920))
    as (final & Hrun & Hsize & Hdur & _).
  - repeat split; try (unfold Qle; simpl; lia).
    + apply list_elem_of_further, list_elem_of_here.
    + apply list_elem_of_further, list_elem_of_here.
  - simpl; lia.
  - simpl; lia.
  - reflexivity.
  - repeat constructor; simpl; try lia; reflexivity.
  - repeat (apply Forall_cons_2;
            [intros _; unfold fits_inside; simpl; lia|]).
    apply Forall_nil_2.
  - unfold Qlt; simpl; lia.
  - exists final. split; [exact Hrun|]. split; [exact Hsize|].
    rewrite Hdur. reflexivity.
Defined.

End TimelineFacts.

(** ** Subtitles spread over the video *)

Section SubtitleMoreFacts.

Import RenderSteps.

Lemma Qle_bool_false (a b : Q) : Qle_bool a b = false ↔ (b < a)%Q.
Proof.
  split.
  - intros E. apply Qnot_le_lt. intros H. apply Qle_bool_iff in H. congruence.
  - intros H. destruct (Qle_bool a b) eqn:E; [|reflexivity].
    apply Qle_bool_iff in E. lra.
Qed.

(** No caption of the even spread ends after the video. *)
Lemma fallback_loop_inside (sentences : list string) (d D : Q) :
  ∀ (remaining i : nat) (current_time : Q),
    Forall (λ cap, (caption_end cap <= D)%Q)
      (fallback_loop sentences d D i remaining current_time).
Proof.
  induction remaining as [|remaining IH]; intros i current_time; simpl.
  - constructor.
  - destruct (String.eqb (sentence_at sentences i) EmptyString); [apply IH|].
    destruct (Qle_bool D current_time); [constructor|].
    destruct (flt D (current_time + d)) eqn:Ecut.
    + destruct (Qle_bool (D - current_time) 0); [apply IH|].
      constructor; [|apply IH].
      unfold caption_end. simpl. lra.
    + apply flt_false in Ecut.
      destruct (Qle_bool d 0); [apply IH|].
      constructor; [|apply IH].
      unfold caption_end. simpl. lra.
Qed.

(** No timed caption ends after the video. *)
Lemma precise_subtitle_clips_inside (D : Q) (cues : list subtitle_cue) :
  Forall (λ cap, (caption_end cap <= D)%Q) (precise_subtitle_clips D cues).
Proof.
  unfold precise_subtitle_clips.
  induction cues as [|sub cues IH]; simpl; [constructor|].
  destruct (precise_caption D sub) as [cap|] eqn:Ecap; [|exact IH].
  constructor; [|exact IH].
  unfold precise_caption in Ecap.
  destruct (sub_text sub) as [text|]; [|discriminate].
  destruct (String.eqb text EmptyString); [discriminate|].
  destruct (Qle_bool _ 0); [discriminate|].
  destruct (Qle_bool D _); [discriminate|].
  destruct (flt D _) eqn:Ecut; injection Ecap as <-;
    unfold caption_end; simpl.
  - lra.
  - apply flt_false in Ecut. lra.
Qed.

(** Layers that end inside the first clip do not lengthen a composite. *)
Lemma max_end_inside (first : clip) (layers : list clip) :
  Forall (λ c, (clip_end c <= clip_end first)%Q) layers →
  (max_end first layers == clip_end first)%Q.
Proof.
  unfold max_end. intros Hall.
  assert (∀ m, (m == clip_end first)%Q →
               (foldl (λ m c, Qmax m (clip_end c)) m layers
                == clip_end first)%Q) as Hfold.
  { induction Hall as [|c layers Hc _ IH]; intros m Hm; simpl.
    - exact Hm.
    - apply IH. rewrite Hm. apply Q.max_l. exact Hc. }
  apply Hfold. reflexivity.
Qed.

(** The subtitle step leaves the attributes of the video alone. *)
Lemma subtitle_stage_attributes
    (text_size : string → Z * Z) (subtitle_enabled : pyval)
    (sentences : list string) (sentence_subtitles : list subtitle_cue)
    (num_clips : nat) (final_video : clip) :
  fresh final_video →
  ∃ out,
    subtitle_stage text_size subtitle_enabled sentences sentence_subtitles
      num_clips final_video = Ok out
    ∧ clip_size out = clip_size final_video
    ∧ (clip_duration out == clip_duration final_video)%Q
    ∧ fresh out.
Proof.
  intros Hfresh. unfold subtitle_stage.
  assert (clip_start final_video == 0)%Q as Hstart by exact Hfresh.
  set (D := clip_duration final_video).
  destruct (_ && _); [|exists final_video; repeat split; auto; reflexivity].
  assert (∃ caps,
            match sentence_subtitles with
            | [] => fallback_subtitle_clips sentences num_clips D
            | _ :: _ => Ok (precise_subtitle_clips D sentence_subtitles)
            end = Ok caps
            ∧ Forall (λ cap, (caption_end cap <= D)%Q) caps)
    as (caps & -> & Hinside).
  { destruct sentence_subtitles as [|sub cues].
    - unfold fallback_subtitle_clips.
      assert (∃ d, (if (0 <? num_clips)%nat
                    then truediv D (inject_Z (Z.of_nat num_clips))
                    else Ok D) = Ok d) as [d ->].
      { destruct (0 <? num_clips)%nat eqn:E; [|eauto].
        apply Nat.ltb_lt in E. rewrite truediv_pos by lia. eauto. }
      rewrite result_bind_Ok. eexists. split; [reflexivity|].
      apply fallback_loop_inside.
    - eexists. split; [reflexivity|]. apply precise_subtitle_clips_inside. }
  rewrite result_bind_Ok.
  destruct caps as [|cap caps];
    [exists final_video; repeat split; auto; reflexivity|].
  eexists. split; [reflexivity|].
  split; [reflexivity|]. split; [|reflexivity].
  cbn [CompositeVideoClip clip_duration].
  rewrite max_end_inside.
  - unfold clip_end. rewrite Hstart. subst D. ring.
  - apply Forall_map. eapply Forall_impl; [exact Hinside|].
    intros c Hc. unfold clip_end, text_layer. simpl.
    unfold caption_end in Hc. rewrite Hstart. subst D. lra.
Qed.

(** X20. Subtitles never lengthen the video and never change its frame
    size: whether the captions come from timed subtitles or from the even
    spread, whatever their times, the sentences and the number of
    segments are, the subtitle step succeeds and the result has the
    duration and the size of the video it was given, and starts at 0. *)
Theorem subtitle_stage_keeps_duration
    (text_size : string → Z * Z) (subtitle_enabled : pyval)
    (sentences : list string) (sentence_subtitles : list subtitle_cue)
    (num_clips : nat) (final_video : clip) :
  fresh final_video →
  ∃ out,
    subtitle_stage text_size subtitle_enabled sentences sentence_subtitles
      num_clips final_video = Ok out
    ∧ clip_size out = clip_size final_video
    ∧ (clip_duration out == clip_duration final_video)%Q
    ∧ fresh out.
Proof.
  exact (subtitle_stage_attributes text_size subtitle_enabled sentences sentence_subtitles
           num_clips final_video).
Qed.

Lemma subtitle_stage_keeps_duration_witness :
  let video := ColorClip (1080, 1920) 10 in
  ∃ out,
    subtitle_stage (λ _, (980, 60)) (VBool true) ["one"; "two"] [] 3 video
    = Ok out
    ∧ (clip_duration out == 10)%Q.
Proof.
  intros video.
  destruct (subtitle_stage_keeps_duration (λ _, (980, 60)) (VBool true)
              ["one"; "two"] [] 3 video)
    as (out & Hrun & _ & Hdur & _); [reflexivity|].
  exists out. split; [exact Hrun|exact Hdur].
Defined.

(** The even spread, when the slots fit in the video: one caption per
    slot with a sentence, at the start of the slot and as long as it. *)
Lemma fallback_loop_slots (sentences : list string) (d D : Q) :
  (0 < d)%Q →
  ∀ (remaining i : nat) (current_time : Q),
    (current_time == inject_Z (Z.of_nat i) * d)%Q →
    (inject_Z (Z.of_nat (i + remaining)) * d <= D)%Q →
    Forall2
      (λ cap j,
         caption_text cap = sentence_at sentences j
         ∧ (caption_start cap == inject_Z (Z.of_nat j) * d)%Q
         ∧ (caption_duration cap == d)%Q)
      (fallback_loop sentences d D i remaining current_time)
      (filter (λ j, sentence_at sentences j ≠ EmptyString)
         (seq i remaining)).
Proof.
  intros Hd. induction remaining as [|remaining IH];
    intros i current_time Hnow Hfit.
  - constructor.
  - assert (current_time + d == inject_Z (Z.of_nat (S i)) * d)%Q as Hnext.
    { rewrite Hnow, Nat2Z.inj_succ. unfold Z.succ.
      rewrite inject_Z_plus. change (inject_Z 1) with 1%Q. ring. }
    assert (inject_Z (Z.of_nat (S i + remaining)) * d <= D)%Q as Hfit'.
    { replace (S i + remaining)%nat with (i + S remaining)%nat by lia.
      exact Hfit. }
    assert (current_time + d <= D)%Q as Hslot.
    { rewrite Hnext. eapply Qle_trans; [|exact Hfit'].
      apply Qmult_le_compat_r; [|lra].
      rewrite <- Zle_Qle. lia. }
    cbn [fallback_loop seq]. rewrite filter_cons.
    destruct (String.eqb_spec (sentence_at sentences i) EmptyString)
      as [Hempty|Htext].
    + rewrite decide_False by (intros H; contradiction).
      apply IH; assumption.
    + rewrite decide_True by assumption.
      rewrite (proj2 (Qle_bool_false D current_time)) by lra.
      rewrite (proj2 (flt_false D (current_time + d)) Hslot).
      rewrite (proj2 (Qle_bool_false d 0) Hd).
      constructor.
      * simpl. split; [reflexivity|]. split; [exact Hnow|reflexivity].
      * apply IH; assumption.
Qed.

(** X21. Without timed subtitles the sentences are spread evenly: for a
    video of positive duration cut into [n] slots of equal length, the
    captions are, in order, one per slot whose sentence is not empty; the
    caption of slot [j] shows sentence [j] modulo the number of sentences,
    starts at [j] slot lengths and lasts one slot. So captions never
    overlap, and with no empty sentence there are exactly [n] of them. *)
Theorem fallback_subtitles_fill_slots
    (sentences : list string) (num_clips : nat) (actual_duration : Q) :
  (0 < num_clips)%nat → (0 < actual_duration)%Q →
  let slot := (actual_duration / inject_Z (Z.of_nat num_clips))%Q in
  ∃ captions,
    fallback_subtitle_clips sentences num_clips actual_duration = Ok captions
    ∧ Forall2
        (λ cap j,
           caption_text cap = sentence_at sentences j
           ∧ (caption_start cap == inject_Z (Z.of_nat j) * slot)%Q
           ∧ (caption_duration cap == slot)%Q)
        captions
        (filter (λ j, sentence_at sentences j ≠ EmptyString)
           (seq 0 num_clips))
    ∧ ((∀ j, sentence_at sentences j ≠ EmptyString) →
       length captions = num_clips).
Proof.
  intros Hn HD slot. unfold fallback_subtitle_clips.
  rewrite (proj2 (Nat.ltb_lt 0 num_clips) Hn).
  rewrite truediv_pos by lia. rewrite result_bind_Ok.
  fold slot.
  assert (0 < inject_Z (Z.of_nat num_clips))%Q as Hn'
    by (rewrite <- (Zlt_Qlt 0); lia).
  assert (0 < slot)%Q as Hslot.
  { subst slot. apply Qlt_shift_div_l; [exact Hn'|]. lra. }
  assert (inject_Z (Z.of_nat num_clips) * slot == actual_duration)%Q
    as Hwhole.
  { subst slot. field. lra. }
  pose proof (fallback_loop_slots sentences slot actual_duration Hslot
                num_clips 0%nat 0%Q) as Hslots.
  eexists. split; [reflexivity|]. split.
  - apply Hslots.
    + change (inject_Z (Z.of_nat 0)) with 0%Q. ring.
    + simpl Nat.add. rewrite Hwhole. lra.
  - intros Hall.
    assert (Forall2
              (λ cap j,
                 caption_text cap = sentence_at sentences j
                 ∧ (caption_start cap == inject_Z (Z.of_nat j) * slot)%Q
                 ∧ (caption_duration cap == slot)%Q)
              (fallback_loop sentences slot actual_duration 0 num_clips 0)
              (filter (λ j, sentence_at sentences j ≠ EmptyString)
                 (seq 0 num_clips))) as H2.
    { apply Hslots.
      - change (inject_Z (Z.of_nat 0)) with 0%Q. ring.
      - simpl Nat.add. rewrite Hwhole. lra. }
    apply Forall2_length in H2. rewrite H2.
    assert (∀ l : list nat,
              filter (λ j, sentence_at sentences j ≠ EmptyString) l = l)
      as Hkeep.
    { induction l as [|j l IH]; [reflexivity|].
      rewrite filter_cons_True by apply Hall. now rewrite IH. }
    rewrite Hkeep. apply length_seq.
Qed.

Lemma fallback_subtitles_fill_slots_witness :
  ∃ captions,
    fallback_subtitle_clips ["one"; "two"] 3 12 = Ok captions
    ∧ length captions = 3%nat.
Proof.
  destruct (fallback_subtitles_fill_slots ["one"; "two"] 3 12)
    as (captions & Hrun & _ & Hlen); [lia | unfold Qlt; simpl; lia |].
  exists captions. split; [exact Hrun|]. apply Hlen.
  intros j. unfold sentence_at.
  change (length ["one"; "two"]) with 2%nat.
  pose proof (Nat.mod_upper_bound j 2 ltac:(lia)) as Hm.
  destruct (j mod 2)%nat as [|[|k]]; [discriminate|discriminate|lia].
Defined.

End SubtitleMoreFacts.

(** ** Segments cut from video files, and the progress reported *)

Section SegmentFacts.

Import RenderSteps.

(** [a % b] lies in [[0, b)] for a positive [b]. *)
Lemma py_mod_range (a b : Q) :
  (0 < b)%Q →
  ∃ r, py_mod a b = Ok r ∧ (0 <= r)%Q ∧ (r < b)%Q
       ∧ ((a == 0)%Q → (r == 0)%Q).
Proof.
  intros Hb. unfold py_mod.
  rewrite truediv_nonzero by lra. rewrite result_bind_Ok.
  eexists. split; [reflexivity|].
  pose proof (Qfloor_le (a / b)) as Hlo.
  pose proof (Qlt_floor (a / b)) as Hhi.
  rewrite inject_Z_plus in Hhi. change (inject_Z 1) with 1%Q in Hhi.
  set (k := inject_Z (Qfloor (a / b))) in *.
  assert (b * (a / b) == a)%Q as Ha by (field; lra).
  assert (0 <= b * (a / b - k))%Q as H1
    by (apply Qmult_le_0_compat; lra).
  assert (0 < b * (k + 1 - a / b))%Q as H2
    by (apply Qmult_lt_0_compat; lra).
  assert (b * (a / b - k) == b * (a / b) - b * k)%Q as E1 by ring.
  assert (b * (k + 1 - a / b) == b - (b * (a / b) - b * k))%Q as E2 by ring.
  rewrite Ha in E1, E2. rewrite E1 in H1. rewrite E2 in H2.
  split; [exact H1|]. split; [lra|].
  intros Hzero. subst k.
  assert (a / b == 0)%Q as Hq by (rewrite Hzero; field; lra).
  rewrite (Qfloor_comp _ _ Hq). change (Qfloor 0) with 0.
  rewrite Hzero. ring.
Qed.

(** X22. The part of a video file shown in a segment. For a positive
    segment duration, and a file of at least one second when it is not
    shorter than the segment, the cut succeeds, keeps the frame size and
    lasts more than 0 and at most the segment duration. It lasts exactly
    the segment duration when the file is shorter than the segment
    (looped), at least one second longer than it, or for the first
    segment; otherwise the window may hit the end of the file and come
    out shorter. *)
Theorem cut_video_source_window (video : clip) (i : nat) (seg : Q) :
  (0 < seg)%Q →
  ((seg <= clip_duration video)%Q → (1 <= clip_duration video)%Q) →
  ∃ c,
    cut_video_source video i seg = Ok c
    ∧ clip_size c = clip_size video
    ∧ (0 < clip_duration c)%Q ∧ (clip_duration c <= seg)%Q
    ∧ ((clip_duration video < seg)%Q ∨ (seg + 1 <= clip_duration video)%Q
       ∨ i = 0%nat →
       (clip_duration c == seg)%Q).
Proof.
  intros Hseg Hfile. unfold cut_video_source.
  destruct (flt (clip_duration video) seg) eqn:Eshort.
  { eexists. split; [reflexivity|].
    cbn [video_loop set_duration clip_size clip_duration].
    split; [reflexivity|]. split; [lra|]. split; [lra|].
    intros _. reflexivity. }
  apply flt_false in Eshort. pose proof (Hfile Eshort) as Hone.
  set (D := clip_duration video) in *.
  destruct (py_max_spec 1 (D - seg)) as [Hmax1 Hmax2].
  assert (1 <= py_max 1 (D - seg))%Q as Hm1.
  { destruct (Qlt_le_dec (D - seg) 1).
    - rewrite Hmax2 by lra. lra.
    - rewrite Hmax1 by lra. lra. }
  destruct (py_mod_range (inject_Z (Z.of_nat i) * seg)
              (py_max 1 (D - seg))) as (start & -> & Hs0 & Hs1 & Hfirst);
    [lra|].
  rewrite result_bind_Ok.
  assert (start < D)%Q as HsD.
  { destruct (Qlt_le_dec (D - seg) 1).
    - rewrite Hmax2 in Hs1 by lra. lra.
    - rewrite Hmax1 in Hs1 by lra. lra. }
  destruct (py_min_spec (start + seg) D) as [Hmin1 Hmin2].
  set (stop := py_min (start + seg) D) in *.
  assert (start < stop ∧ stop <= start + seg ∧ stop <= D)%Q
    as (Hlen & Hcap & Hend).
  { destruct (Qlt_le_dec D (start + seg)).
    - rewrite Hmin2 by lra. lra.
    - rewrite Hmin1 by lra. lra. }
  unfold video_subclip. fold D.
  rewrite (proj2 (flt_false start 0) Hs0).
  rewrite (proj2 (flt_false D start)) by lra.
  rewrite (proj2 (flt_false stop 0)) by lra.
  eexists. split; [reflexivity|]. cbn [set_duration clip_size clip_duration].
  split; [reflexivity|]. split; [lra|]. split; [lra|].
  intros [Hlt | [Hlong | ->]].
  - lra.
  - rewrite Hmax1 in Hs1 by lra.
    assert (stop == start + seg)%Q as -> by (apply Hmin1; lra). ring.
  - assert (start == 0)%Q as Hzero.
    { apply Hfirst. change (inject_Z (Z.of_nat 0)) with 0%Q. ring. }
    assert (stop == start + seg)%Q as -> by (apply Hmin1; lra). ring.
Qed.

Lemma cut_video_source_window_witness :
  let video := ColorClip (1920, 1080) (13 # 2) in
  ∃ c,
    cut_video_source video 1 (13 # 2) = Ok c
    ∧ (0 < clip_duration c)%Q ∧ (clip_duration c <= 13 # 2)%Q.
Proof.
  intros video.
  destruct (cut_video_source_window video 1 (13 # 2))
    as (c & Hrun & _ & Hpos & Hle & _).
  - unfold Qlt; simpl; lia.
  - intros _. unfold Qle; simpl; lia.
  - exists c. split; [exact Hrun|]. split; assumption.
Defined.

(** X23. The progress reported while the segments are built stays
    between 30 and 55, never goes back from one segment to a later one,
    and is exactly 55 after the last segment. *)
Theorem segment_progress_monotone (num_clips i j : nat) :
  (i ≤ j)%nat → (j < num_clips)%nat →
  ∃ p_i p_j,
    segment_progress i num_clips = Ok p_i
    ∧ segment_progress j num_clips = Ok p_j
    ∧ 30 <= p_i ∧ p_i <= p_j ∧ p_j <= 55
    ∧ (S j = num_clips → p_j = 55).
Proof.
  intros Hij Hjn. unfold segment_progress.
  rewrite !truediv_pos by lia. rewrite !result_bind_Ok.
  destruct (py_int_ratio (25 * (Z.of_nat i + 1)) (Z.of_nat num_clips))
    as (Hi0 & Hi1 & Hi2); [lia..|].
  destruct (py_int_ratio (25 * (Z.of_nat j + 1)) (Z.of_nat num_clips))
    as (Hj0 & Hj1 & Hj2); [lia..|].
  set (q_i := py_int (inject_Z (25 * (Z.of_nat i + 1))
                      / inject_Z (Z.of_nat num_clips))) in *.
  set (q_j := py_int (inject_Z (25 * (Z.of_nat j + 1))
                      / inject_Z (Z.of_nat num_clips))) in *.
  eexists _, _. split; [reflexivity|]. split; [reflexivity|].
  assert (q_i <= q_j) by nia.
  assert (q_j <= 25) by nia.
  repeat split; try lia.
  intros Hlast. assert (q_j = 25) by nia. lia.
Qed.

Lemma segment_progress_monotone_witness :
  ∃ p_i p_j,
    segment_progress 0 3 = Ok p_i ∧ segment_progress 2 3 = Ok p_j
    ∧ 30 <= p_i ∧ p_i <= p_j ∧ p_j = 55.
Proof.
  destruct (segment_progress_monotone 3 0 2)
    as (p_i & p_j & Hi & Hj & Hlo & Hmono & _ & Hlast); [lia..|].
  exists p_i, p_j. repeat split; try assumption. now apply Hlast.
Defined.

End SegmentFacts.

(** ** A built response against the response check *)

Section TaskStatusMoreFacts.

Import TaskStatus TaskStatusCheck.

Lemma to_dict_status (r : TaskStatusResponse) :
  to_dict r !! "status" = Some (VStr (status r)).
Proof.
  unfold to_dict, set_if_some.
  destruct (String.eqb (status r) "completed"),
    (String.eqb (status r) "failed"), (nonempty (task_id r)),
    (nonempty (download_url r)), (duration r), (nonempty (error_message r));
    simpl; by simplify_map_eq.
Qed.

Lemma to_dict_message (r : TaskStatusResponse) :
  to_dict r !! "message" = Some (VStr (message r)).
Proof.
  unfold to_dict, set_if_some.
  destruct (String.eqb (status r) "completed"),
    (String.eqb (status r) "failed"), (nonempty (task_id r)),
    (nonempty (download_url r)), (duration r), (nonempty (error_message r));
    simpl; by simplify_map_eq.
Qed.

Lemma to_dict_download_url_completed (r : TaskStatusResponse) :
  status r = "completed" →
  to_dict r !! "download_url" = VStr <$> nonempty (download_url r).
Proof.
  intros Hs. unfold to_dict, set_if_some. rewrite Hs. simpl.
  destruct (nonempty (task_id r)), (nonempty (download_url r)),
    (duration r); simpl; by simplify_map_eq.
Qed.

Lemma to_dict_error_message_failed (r : TaskStatusResponse) :
  status r = "failed" →
  to_dict r !! "error_message" = VStr <$> nonempty (error_message r).
Proof.
  intros Hs. unfold to_dict, set_if_some. rewrite Hs. simpl.
  destruct (nonempty (task_id r)), (nonempty (error_message r));
    simpl; by simplify_map_eq.
Qed.

Lemma build_task_status_response_progress
    (status_code progress_in : Z)
    (progress_message error_message_in download_url_in : option string)
    (duration_in : option Q) (task_id_in : option string) :
  0 <= progress (build_task_status_response status_code progress_in
                   progress_message error_message_in download_url_in
                   duration_in task_id_in) <= 100.
Proof.
  unfold build_task_status_response. cbn [progress].
  destruct (status_code =? TASK_STATUS_FAILED),
    (status_code =? TASK_STATUS_COMPLETED); lia.
Qed.

Lemma if_append {A : Type} (c : bool) (l : list A) (x : A) :
  (if c then l ++ [x] else l) = l ++ (if c then [x] else []).
Proof. destruct c; [reflexivity|]. now rewrite app_nil_r. Qed.

Lemma length_if_nil {A : Type} (c : bool) (x : A) :
  length (if c then [x] else []) = 0%nat ↔ c = false.
Proof. destruct c; simpl; split; (congruence || lia). Qed.

(** The check finds nothing exactly when the three fields are there, the
    status is one of the four names and comes with the field it needs,
    the progress is an integer from 0 to 100 and the message a string. *)
Lemma validate_task_status_response_accepts (response : gmap string pyval) :
  fst (validate_task_status_response response) = true
  ↔ (∃ status,
       response !! "status" = Some status
       ∧ py_in_list status ["pending"; "processing"; "completed"; "failed"]
         = true
       ∧ (py_eq_str status "completed" = true →
          is_Some (response !! "download_url"))
       ∧ (py_eq_str status "failed" = true →
          is_Some (response !! "error_message")))
    ∧ (∃ value,
         response !! "progress" = Some value
         ∧ is_int value = true ∧ 0 <= int_value value <= 100)
    ∧ (∃ value, response !! "message" = Some value ∧ is_str value = true).
Proof.
  unfold validate_task_status_response, has_key. cbn [fst].
  rewrite bool_decide_eq_true.
  destruct (response !! "status") as [st|] eqn:Es;
    destruct (response !! "progress") as [p|] eqn:Ep;
    destruct (response !! "message") as [m|] eqn:Em;
    cbv zeta;
    rewrite ?if_append, ?length_app, ?Nat.eq_add_0, ?length_if_nil;
    rewrite ?negb_false_iff, ?andb_false_iff, ?orb_false_iff,
      ?negb_false_iff, ?bool_decide_eq_true, ?Z.ltb_ge.
  all: try (split; [|intros ((? & [=] & _) & _)];
            intros H; decompose [and] H;
            match goal with
            | Hx : is_Some None |- _ => destruct Hx as [? [=]]
            end).
  all: try (split; [|intros (_ & (? & [=] & _) & _)];
            intros H; decompose [and] H;
            match goal with
            | Hx : is_Some None |- _ => destruct Hx as [? [=]]
            end).
  all: try (split; [|intros (_ & _ & (? & [=] & _))];
            intros H; decompose [and] H;
            match goal with
            | Hx : is_Some None |- _ => destruct Hx as [? [=]]
            end).
  split.
  - intros [[[[[[[[_ _] _] _] Hin] Hc] Hf] [[Hint Hp0] Hp1]] Hstr].
    split; [|split].
    + exists st. split; [reflexivity|]. split; [assumption|].
      split; intros Hyes.
      * destruct Hc as [Hno|Hhas]; [congruence|exact Hhas].
      * destruct Hf as [Hno|Hhas]; [congruence|exact Hhas].
    + exists p. repeat split; assumption.
    + exists m. split; [reflexivity|assumption].
  - intros ((s & [= <-] & Hin & Hc & Hf) & (v & [= <-] & Hint & Hp0 & Hp1)
            & (v' & [= <-] & Hstr)).
    repeat split; eauto.
    + destruct (py_eq_str st "completed"); [right; now apply Hc|now left].
    + destruct (py_eq_str st "failed"); [right; now apply Hf|now left].
Qed.

(** X24. A response built by [build_task_status_response] passes
    [validate_task_status_response] exactly when the status code is one
    of the four known codes, a completed task has a non-empty download
    URL and a failed task has a non-empty error message. Its progress
    and message never cause a finding. *)
Theorem built_response_valid_iff
    (status_code progress_in : Z)
    (progress_message error_message_in download_url_in : option string)
    (duration_in : option Q) (task_id_in : option string) :
  let r := build_task_status_response status_code progress_in
             progress_message error_message_in download_url_in
             duration_in task_id_in in
  fst (validate_task_status_response (to_dict r)) = true
  ↔ (status_code ∈ [TASK_STATUS_PENDING; TASK_STATUS_PROCESSING;
                    TASK_STATUS_COMPLETED; TASK_STATUS_FAILED]
     ∧ (status_code = TASK_STATUS_COMPLETED →
        is_Some (nonempty download_url_in))
     ∧ (status_code = TASK_STATUS_FAILED →
        is_Some (nonempty error_message_in))).
Proof.
  intros r.
  pose proof (build_task_status_response_progress status_code progress_in
                progress_message error_message_in download_url_in
                duration_in task_id_in) as Hprogress.
  fold r in Hprogress.
  assert (status r = get_task_status_name status_code) as Hstatus
    by reflexivity.
  assert (download_url r
          = if status_code =? TASK_STATUS_COMPLETED then download_url_in
            else None) as Hurl by reflexivity.
  assert (error_message r
          = if status_code =? TASK_STATUS_FAILED then error_message_in
            else None) as Herr by reflexivity.
  rewrite validate_task_status_response_accepts.
  rewrite (to_dict_status r), (to_dict_message r), (to_dict_progress r).
  assert ((∃ value, Some (VInt (progress r)) = Some value
                    ∧ is_int value = true ∧ 0 <= int_value value <= 100)
          ∧ (∃ value, Some (VStr (message r)) = Some value
                      ∧ is_str value = true)) as [Hp Hm].
  { split; eexists; (split; [reflexivity|]); simpl; auto. }
  destruct (get_task_status_name_cases status_code)
    as [[Hcode Hn] | [[Hcode Hn] | [[Hcode Hn] | [[Hcode Hn]
        | (Hc & Hf & Hn)]]]].
  - subst status_code. split.
    + intros _. split; [apply list_elem_of_here|]. split; discriminate.
    + intros _. split; [|split; assumption].
      eexists. split; [reflexivity|]. rewrite Hstatus, Hn.
      split; [reflexivity|]. split; discriminate.
  - subst status_code. split.
    + intros _.
      split; [apply list_elem_of_further, list_elem_of_here|].
      split; discriminate.
    + intros _. split; [|split; assumption].
      eexists. split; [reflexivity|]. rewrite Hstatus, Hn.
      split; [reflexivity|]. split; discriminate.
  - subst status_code.
    rewrite (to_dict_download_url_completed r) by (now rewrite Hstatus, Hn).
    rewrite Hurl. change (TASK_STATUS_COMPLETED =? TASK_STATUS_COMPLETED)
      with true. cbv iota.
    split.
    + intros ((s & [= <-] & _ & Hneed & _) & _).
      split; [do 2 apply list_elem_of_further; apply list_elem_of_here|].
      split; [|discriminate]. intros _.
      apply fmap_is_Some in Hneed; [exact Hneed|].
      vm_compute. reflexivity.
    + intros (_ & Hneed & _). split; [|split; assumption].
      eexists. split; [reflexivity|]. rewrite Hstatus, Hn.
      split; [reflexivity|]. split; [|discriminate].
      intros _. apply fmap_is_Some. now apply Hneed.
  - subst status_code.
    rewrite (to_dict_error_message_failed r) by (now rewrite Hstatus, Hn).
    rewrite Herr. change (TASK_STATUS_FAILED =? TASK_STATUS_FAILED) with true.
    cbv iota.
    split.
    + intros ((s & [= <-] & _ & _ & Hneed) & _).
      split; [do 3 apply list_elem_of_further; apply list_elem_of_here|].
      split; [discriminate|]. intros _.
      apply fmap_is_Some in Hneed; [exact Hneed|].
      vm_compute. reflexivity.
    + intros (_ & _ & Hneed). split; [|split; assumption].
      eexists. split; [reflexivity|]. rewrite Hstatus, Hn.
      split; [reflexivity|]. split; [discriminate|].
      intros _. apply fmap_is_Some. now apply Hneed.
  - split.
    + intros ((s & [= <-] & Hin & _) & _).
      try rewrite Hstatus in Hin. rewrite Hn in Hin.
      vm_compute in Hin. discriminate.
    + intros (Hin & _). exfalso.
      unfold get_task_status_name in Hn.
      repeat (apply elem_of_cons in Hin as [-> | Hin]);
        try (apply elem_of_nil in Hin; contradiction);
        vm_compute in Hn; discriminate.
Qed.

Lemma built_response_valid_iff_witness :
  let r := build_task_status_response TASK_STATUS_COMPLETED 40 None None
             None (Some 12%Q) (Some "a") in
  fst (validate_task_status_response (to_dict r)) = false.
Proof.
  intros r. apply not_true_is_false. intros Hvalid.
  apply built_response_valid_iff in Hvalid as (_ & Hurl & _).
  destruct (Hurl eq_refl) as [url [=]].
Defined.

End TaskStatusMoreFacts.

(** ** Trimming and thumbnails *)

Section TrimFacts.

Import RenderSteps Trim.

(** X25. [trim_video] on an existing file of a supported format: when
    the range satisfies [0 <= start < end <= duration] the cut cannot
    fail, the trimmed clip keeps the frame size and lasts exactly the
    reported expected duration [end - start], which is positive and at
    most the duration of the source; for every other range the call
    raises [VideoTrimError]. *)
Theorem trim_video_cases
    (ext : string) (video : clip) (start_time end_time : Q) :
  ext ∈ ALLOWED_VIDEO_EXTENSIONS →
  ((0 <= start_time)%Q ∧ (start_time < end_time)%Q
   ∧ (end_time <= clip_duration video)%Q →
   ∃ report,
     trim_video true ext video start_time end_time = Trimmed report
     ∧ report_start_time report = start_time
     ∧ report_end_time report = end_time
     ∧ report_expected_duration report = (end_time - start_time)%Q
     ∧ clip_duration (report_trimmed report)
       = report_expected_duration report
     ∧ clip_size (report_trimmed report) = clip_size video
     ∧ (0 < report_expected_duration report)%Q
     ∧ (report_expected_duration report <= clip_duration video)%Q)
  ∧ (¬ ((0 <= start_time)%Q ∧ (start_time < end_time)%Q
        ∧ (end_time <= clip_duration video)%Q) →
     trim_video true ext video start_time end_time
     = TrimRaise VideoTrimError).
Proof.
  intros Hext. unfold trim_video, validate_trim_time_range.
  rewrite (proj2 (str_in_true ext _) Hext). cbn [negb].
  split.
  - intros (Hstart & Hlen & Hend).
    rewrite (proj2 (flt_false start_time 0) Hstart).
    rewrite (proj2 (Qle_bool_false end_time start_time) Hlen).
    rewrite (proj2 (flt_false (clip_duration video) end_time) Hend).
    unfold video_subclip.
    rewrite (proj2 (flt_false start_time 0) Hstart).
    rewrite (proj2 (flt_false (clip_duration video) start_time)) by lra.
    rewrite (proj2 (flt_false end_time 0)) by lra.
    eexists. split; [reflexivity|].
    cbn [report_start_time report_end_time report_expected_duration
           report_trimmed set_duration clip_duration clip_size].
    repeat split; lra.
  - intros Hbad.
    destruct (flt start_time 0) eqn:E1; [reflexivity|].
    destruct (Qle_bool end_time start_time) eqn:E2; [reflexivity|].
    destruct (flt (clip_duration video) end_time) eqn:E3; [reflexivity|].
    exfalso. apply Hbad.
    apply flt_false in E1, E3. apply Qle_bool_false in E2. auto.
Qed.

Lemma trim_video_cases_witness :
  let video := ColorClip (1920, 1080) 30 in
  ∃ report,
    trim_video true ".mp4" video (5 # 2) 10 = Trimmed report
    ∧ clip_duration (report_trimmed report) = (10 - (5 # 2))%Q.
Proof.
  intros video.
  destruct (proj1 (trim_video_cases ".mp4" video (5 # 2) 10
                     ltac:(apply list_elem_of_here)))
    as (report & Hrun & _ & _ & Hexp & Hdur & _).
  { split; [unfold Qle; simpl; lia|].
    split; [unfold Qlt; simpl; lia|unfold Qle; simpl; lia]. }
  exists report. split; [exact Hrun|]. now rewrite Hdur.
Defined.

(** X26. The thumbnails of a video of positive duration are taken at
    evenly spaced times strictly inside the video: there are [count] of
    them, none at time 0 and none at the end, each later than the one
    before by the same interval [duration / (count + 1)]. *)
Theorem thumbnail_times_inside (duration : Q) (count : Z) :
  (0 < duration)%Q → 0 <= count →
  ∃ times,
    thumbnail_times duration count = Ok times
    ∧ length times = Z.to_nat count
    ∧ (∀ i t, times !! i = Some t → (0 < t)%Q ∧ (t < duration)%Q)
    ∧ (∀ i t t', times !! i = Some t → times !! S i = Some t' →
                 (t' - t == duration / inject_Z (count + 1))%Q).
Proof.
  intros Hd Hc. unfold thumbnail_times.
  rewrite truediv_pos by lia. rewrite result_bind_Ok.
  set (interval := (duration / inject_Z (count + 1))%Q).
  assert (0 < inject_Z (count + 1))%Q as Hn
    by (rewrite <- (Zlt_Qlt 0); lia).
  assert (0 < interval)%Q as Hi.
  { subst interval. apply Qlt_shift_div_l; [exact Hn|]. lra. }
  assert (interval * inject_Z (count + 1) == duration)%Q as Hwhole.
  { subst interval. field. lra. }
  assert (∀ i t,
            map (λ i : nat, (interval * inject_Z (Z.of_nat i + 1))%Q)
              (seq 0 (Z.to_nat count)) !! i = Some t →
            (i < Z.to_nat count)%nat
            ∧ t = (interval * inject_Z (Z.of_nat i + 1))%Q) as Hnth.
  { intros i t Ht. rewrite list_lookup_fmap in Ht.
    destruct (seq 0 (Z.to_nat count) !! i) as [j|] eqn:Ej; [|discriminate].
    apply lookup_seq in Ej as [-> Hlt]. simpl in Ht.
    injection Ht as <-. split; [exact Hlt|reflexivity]. }
  eexists. split; [reflexivity|]. split; [|split].
  - now rewrite length_map, length_seq.
  - intros i t Ht. destruct (Hnth i t Ht) as [Hlt ->].
    assert (0 < inject_Z (Z.of_nat i + 1))%Q as Hk
      by (rewrite <- (Zlt_Qlt 0); lia).
    split; [apply Qmult_lt_0_compat; assumption|].
    rewrite <- Hwhole. apply Qmult_lt_l; [exact Hi|].
    rewrite <- Zlt_Qlt. lia.
  - intros i t t' Ht Ht'.
    destruct (Hnth i t Ht) as [_ ->].
    destruct (Hnth (S i) t' Ht') as [_ ->].
    rewrite Nat2Z.inj_succ. unfold Z.succ.
    rewrite !inject_Z_plus. change (inject_Z 1) with 1%Q. ring.
Qed.

Lemma thumbnail_times_inside_witness :
  ∃ times,
    thumbnail_times 60 10 = Ok times ∧ length times = 10%nat.
Proof.
  destruct (thumbnail_times_inside 60 10)
    as (times & Hrun & Hlen & _); [unfold Qlt; simpl; lia | lia |].
  exists times. split; [exact Hrun|exact Hlen].
Defined.

End TrimFacts.

(** ** Task identifiers *)

Section TaskIdFacts.

Import TaskId.

Lemma one_of_spec (class : list ascii) (s rest : string) :
  one_of class s = Some rest ↔ ∃ c, s = String c rest ∧ c ∈ class.
Proof.
  unfold one_of. destruct s as [|c s'].
  - split; [discriminate|]. intros (c & [=] & _).
  - destruct (bool_decide (c ∈ class)) eqn:E.
    + apply bool_decide_eq_true in E. split.
      * intros [= <-]. eauto.
      * intros (c' & [= <- <-] & _). reflexivity.
    + apply bool_decide_eq_false in E. split; [discriminate|].
      intros (c' & [= <- <-] & Hin). contradiction.
Qed.

Lemma repeat_of_S (class : list ascii) (n : nat) (c : ascii)
    (s : string) :
  c ∈ class →
  repeat_of class (S n) (String c s) = repeat_of class n s.
Proof.
  intros Hc. cbn [repeat_of one_of].
  now rewrite (bool_decide_eq_true_2 _ Hc).
Qed.

Lemma repeat_of_one (class : list ascii) (s rest : string) :
  repeat_of class 1 s = Some rest ↔ ∃ c, s = String c rest ∧ c ∈ class.
Proof.
  rewrite <- one_of_spec. cbn [repeat_of].
  destruct (one_of class s); simpl; reflexivity.
Qed.

Lemma repeat_of_length (class : list ascii) (n : nat) :
  ∀ s rest, repeat_of class n s = Some rest →
            String.length s = (n + String.length rest)%nat.
Proof.
  induction n as [|n IH]; intros s rest H.
  - injection H as <-. reflexivity.
  - cbn [repeat_of] in H.
    destruct (one_of class s) as [s'|] eqn:E; [|discriminate].
    apply one_of_spec in E as (c & -> & _). simpl in H.
    apply IH in H. simpl. lia.
Qed.

Lemma repeat_of_app (class : list ascii) (n : nat) (tail : string) :
  ∀ s rest, repeat_of class n s = Some rest →
            repeat_of class n (s ++ tail) = Some (rest ++ tail)%string.
Proof.
  induction n as [|n IH]; intros s rest H.
  - injection H as <-. reflexivity.
  - cbn [repeat_of] in H.
    destruct (one_of class s) as [s'|] eqn:E; [|discriminate].
    apply one_of_spec in E as (c & -> & Hc). simpl in H.
    change (String c s' ++ tail)%string with (String c (s' ++ tail)).
    rewrite (repeat_of_S class n c _ Hc). now apply IH.
Qed.

(** What a pattern consumes. *)
Lemma match_parts_consumes (parts : pattern) (tail : string) :
  ∀ s rest,
    match_parts parts s = Some rest →
    String.length s
    = (foldr (λ part n, snd part + n) 0 parts + String.length rest)%nat
    ∧ match_parts parts (s ++ tail) = Some (rest ++ tail)%string.
Proof.
  unfold match_parts.
  induction parts as [|[class n] parts IH]; intros s rest H.
  - injection H as <-. split; reflexivity.
  - cbn [foldl fst snd] in H |- *.
    destruct (repeat_of class n s) as [s'|] eqn:E.
    + change (Some s ≫= repeat_of class n) with (repeat_of class n s) in H.
      change (Some (s ++ tail)%string ≫= repeat_of class n)
        with (repeat_of class n (s ++ tail)).
      rewrite E in H. rewrite (repeat_of_app class n tail s s' E).
      destruct (IH s' rest H) as [Hlen Happ].
      split; [|exact Happ].
      apply repeat_of_length in E. cbn [foldr snd]. lia.
    + exfalso.
      change (Some s ≫= repeat_of class n) with (repeat_of class n s) in H.
      rewrite E in H. clear -H.
      induction parts as [|part parts IHp]; [discriminate|].
      apply IHp. exact H.
Qed.

Lemma at_end_length (rest : string) :
  at_end rest = true →
  String.length rest = 0%nat ∨ String.length rest = 1%nat.
Proof.
  destruct rest as [|c [|c' rest]]; simpl; auto. discriminate.
Qed.

(** X27. Every identifier that [is_valid_uuid] accepts is accepted by
    [is_valid_uuid_format] too. An accepted identifier has 36
    characters, or 37 when it ends with a newline: the [$] of the
    pattern also matches before a final newline, so an accepted
    identifier of 36 characters is still accepted with a newline
    appended. *)
Theorem is_valid_uuid_strict (task_id : string) :
  is_valid_uuid task_id = true →
  is_valid_uuid_format task_id = true
  ∧ (String.length task_id = 36%nat ∨ String.length task_id = 37%nat)
  ∧ (String.length task_id = 36%nat →
     is_valid_uuid (task_id ++ String (ascii_of_nat 10) EmptyString) = true).
Proof.
  intros Hvalid. unfold is_valid_uuid in Hvalid.
  destruct (String.eqb task_id EmptyString) eqn:Eempty; [discriminate|].
  unfold matches in Hvalid.
  destruct (match_parts UUID_V4_PATTERN task_id) as [rest|] eqn:Ematch;
    [|discriminate].
  destruct (match_parts_consumes UUID_V4_PATTERN
              (String (ascii_of_nat 10) EmptyString) task_id rest Ematch)
    as [Hlen Happ].
  change (foldr (λ part n, (snd part + n)%nat) 0%nat UUID_V4_PATTERN)
    with 36%nat in Hlen.
  split; [|split].
  - unfold is_valid_uuid_format, matches. rewrite Eempty.
    unfold match_parts, UUID_V4_PATTERN, UUID_PATTERN in *.
    cbn [foldl fst snd] in Ematch |- *.
    change (Some task_id ≫= repeat_of HEX 8)
      with (repeat_of HEX 8 task_id) in Ematch |- *.
    destruct (repeat_of HEX 8 task_id) as [r1|]; [|discriminate].
    change (Some r1 ≫= repeat_of DASH 1) with (repeat_of DASH 1 r1)
      in Ematch |- *.
    destruct (repeat_of DASH 1 r1) as [r2|]; [|discriminate].
    change (Some r2 ≫= repeat_of HEX 4) with (repeat_of HEX 4 r2)
      in Ematch |- *.
    destruct (repeat_of HEX 4 r2) as [r3|]; [|discriminate].
    change (Some r3 ≫= repeat_of DASH 1) with (repeat_of DASH 1 r3)
      in Ematch |- *.
    destruct (repeat_of DASH 1 r3) as [r4|]; [|discriminate].
    change (Some r4 ≫= repeat_of FOUR 1) with (repeat_of FOUR 1 r4)
      in Ematch.
    destruct (repeat_of FOUR 1 r4) as [r5|] eqn:E5; [|discriminate].
    apply repeat_of_one in E5 as (c5 & -> & Hc5).
    change (Some r5 ≫= repeat_of HEX 3) with (repeat_of HEX 3 r5) in Ematch.
    change (Some (String c5 r5) ≫= repeat_of HEX 4)
      with (repeat_of HEX 4 (String c5 r5)).
    assert (c5 ∈ HEX) as Hhex5.
    { unfold FOUR in Hc5. simpl in Hc5.
      repeat (apply elem_of_cons in Hc5 as [-> | Hc5]);
        try (apply elem_of_nil in Hc5; contradiction);
        vm_compute;
        repeat first [ apply list_elem_of_here
                     | apply list_elem_of_further ]. }
    rewrite (repeat_of_S HEX 3 c5 r5 Hhex5).
    destruct (repeat_of HEX 3 r5) as [r6|]; [|discriminate].
    change (Some r6 ≫= repeat_of DASH 1) with (repeat_of DASH 1 r6)
      in Ematch |- *.
    destruct (repeat_of DASH 1 r6) as [r7|]; [|discriminate].
    change (Some r7 ≫= repeat_of VARIANT 1) with (repeat_of VARIANT 1 r7)
      in Ematch.
    destruct (repeat_of VARIANT 1 r7) as [r8|] eqn:E8; [|discriminate].
    apply repeat_of_one in E8 as (c8 & -> & Hc8).
    change (Some r8 ≫= repeat_of HEX 3) with (repeat_of HEX 3 r8) in Ematch.
    change (Some (String c8 r8) ≫= repeat_of HEX 4)
      with (repeat_of HEX 4 (String c8 r8)).
    assert (c8 ∈ HEX) as Hhex8.
    { unfold VARIANT in Hc8. simpl in Hc8.
      repeat (apply elem_of_cons in Hc8 as [-> | Hc8]);
        try (apply elem_of_nil in Hc8; contradiction);
        vm_compute;
        repeat first [ apply list_elem_of_here
                     | apply list_elem_of_further ]. }
    rewrite (repeat_of_S HEX 3 c8 r8 Hhex8).
    destruct (repeat_of HEX 3 r8) as [r9|]; [|discriminate].
    change (Some r9 ≫= repeat_of DASH 1) with (repeat_of DASH 1 r9)
      in Ematch |- *.
    destruct (repeat_of DASH 1 r9) as [r10|]; [|discriminate].
    change (Some r10 ≫= repeat_of HEX 12) with (repeat_of HEX 12 r10)
      in Ematch |- *.
    rewrite Ematch. exact Hvalid.
  - apply at_end_length in Hvalid. lia.
  - intros H36. unfold is_valid_uuid, matches. rewrite Happ.
    assert (rest = EmptyString) as ->.
    { destruct rest; [reflexivity|]. simpl in Hlen. lia. }
    destruct task_id; [discriminate|]. reflexivity.
Qed.

Lemma is_valid_uuid_strict_witness :
  is_valid_uuid_format "550e8400-e29b-41d4-a716-446655440000" = true
  ∧ is_valid_uuid
      ("550e8400-e29b-41d4-a716-446655440000"
       ++ String (ascii_of_nat 10) EmptyString) = true.
Proof.
  destruct (is_valid_uuid_strict "550e8400-e29b-41d4-a716-446655440000")
    as (Hformat & _ & Hnewline); [vm_compute; reflexivity|].
  split; [exact Hformat|]. apply Hnewline. reflexivity.
Defined.

End TaskIdFacts.

(** ** Brightness, contrast and saturation of a pixel *)

Section PixelFacts.

Import Pixels.

Lemma to_uint8_range (x : Q) : 0 <= to_uint8 x <= 255.
Proof.
  unfold to_uint8.
  assert (0 <= Qmin (Qmax x 0) 255)%Q as Hlo.
  { apply Q.min_glb; [apply Q.le_max_r|]. unfold Qle; simpl; lia. }
  assert (Qmin (Qmax x 0) 255 <= 255)%Q as Hhi by apply Q.le_min_r.
  split.
  - apply py_int_lower_bound; [lia|exact Hlo].
  - apply py_int_upper_bound; [exact Hlo|exact Hhi].
Qed.

Lemma to_uint8_comp (x y : Q) : (x == y)%Q → to_uint8 x = to_uint8 y.
Proof.
  intros Hxy. unfold to_uint8. apply py_int_comp. now rewrite Hxy.
Qed.

Lemma to_uint8_inject_Z (z : Z) : 0 <= z <= 255 → to_uint8 (inject_Z z) = z.
Proof.
  intros Hz. unfold to_uint8.
  rewrite <- (py_int_inject_Z z) at 2. apply py_int_comp.
  assert (0 <= inject_Z z)%Q by (unfold Qle; simpl; lia).
  assert (inject_Z z <= 255)%Q by (unfold Qle; simpl; lia).
  rewrite Q.max_l by assumption. now rewrite Q.min_l.
Qed.

Lemma astype_uint8_is_pixel (img : Q * Q * Q) : is_pixel (astype_uint8 img).
Proof.
  destruct img as [[r g] b]. unfold astype_uint8, is_pixel.
  pose proof (to_uint8_range r). pose proof (to_uint8_range g).
  pose proof (to_uint8_range b). lia.
Qed.

Lemma Qeq_bool_false (x y : Q) : Qeq_bool x y = false ↔ ¬ (x == y)%Q.
Proof.
  split.
  - intros E H. apply Qeq_bool_iff in H. congruence.
  - intros H. destruct (Qeq_bool x y) eqn:E; [|reflexivity].
    apply Qeq_bool_iff in E. contradiction.
Qed.

(** X28. What the combined adjustment does to a pixel, for any
    coefficients: every channel of the result is between 0 and 255;
    with all three coefficients equal to 1 the pixel is unchanged; a gray
    pixel stays gray; with saturation 0 every pixel becomes gray; and
    with only one coefficient different from 1 the result is that of the
    single brightness, contrast or saturation effect. *)
Theorem combined_adjustment_pixel
    (brightness contrast saturation : Q) (frame : pixel) :
  is_pixel frame →
  let gray (p : pixel) := fst (fst p) = snd (fst p) ∧ snd (fst p) = snd p in
  let out := combined_adjustment brightness contrast saturation frame in
  is_pixel out
  ∧ ((brightness == 1)%Q → (contrast == 1)%Q → (saturation == 1)%Q →
     out = frame)
  ∧ (gray frame → gray out)
  ∧ ((saturation == 0)%Q → gray out)
  ∧ ((contrast == 1)%Q → (saturation == 1)%Q → ¬ (brightness == 1)%Q →
     out = brightness_effect brightness frame)
  ∧ ((brightness == 1)%Q → (saturation == 1)%Q → ¬ (contrast == 1)%Q →
     out = contrast_effect contrast frame)
  ∧ ((brightness == 1)%Q → (contrast == 1)%Q → ¬ (saturation == 1)%Q →
     out = saturation_effect saturation frame).
Proof.
  intros Hframe gray out.
  split; [apply astype_uint8_is_pixel|].
  destruct frame as [[r g] b]. destruct Hframe as (Hr & Hg & Hb).
  subst out gray. unfold combined_adjustment, brightness_effect,
    contrast_effect, saturation_effect.
  split; [|split; [|split; [|split; [|split]]]].
  - intros H1 H2 H3.
    rewrite (proj2 (Qeq_bool_iff brightness 1) H1).
    rewrite (proj2 (Qeq_bool_iff contrast 1) H2).
    rewrite (proj2 (Qeq_bool_iff saturation 1) H3).
    cbn [negb astype_float astype_uint8].
    now rewrite !to_uint8_inject_Z by assumption.
  - cbn [fst snd]. intros [-> ->].
    destruct (negb (Qeq_bool brightness 1)),
      (negb (Qeq_bool contrast 1)), (negb (Qeq_bool saturation 1));
      cbn [astype_float channels astype_uint8 mean fst snd];
      split; reflexivity.
  - intros Hzero.
    assert (Qeq_bool saturation 1 = false) as ->.
    { apply Qeq_bool_false. rewrite Hzero. intros H. discriminate H. }
    cbn [negb].
    destruct (negb (Qeq_bool brightness 1)),
      (negb (Qeq_bool contrast 1));
      cbn [astype_float channels astype_uint8 mean fst snd];
      split; apply to_uint8_comp; rewrite Hzero; ring.
  - intros H2 H3 H1.
    rewrite (proj2 (Qeq_bool_false brightness 1) H1).
    rewrite (proj2 (Qeq_bool_iff contrast 1) H2).
    rewrite (proj2 (Qeq_bool_iff saturation 1) H3).
    reflexivity.
  - intros H1 H3 H2.
    rewrite (proj2 (Qeq_bool_iff brightness 1) H1).
    rewrite (proj2 (Qeq_bool_false contrast 1) H2).
    rewrite (proj2 (Qeq_bool_iff saturation 1) H3).
    reflexivity.
  - intros H1 H2 H3.
    rewrite (proj2 (Qeq_bool_iff brightness 1) H1).
    rewrite (proj2 (Qeq_bool_iff contrast 1) H2).
    rewrite (proj2 (Qeq_bool_false saturation 1) H3).
    reflexivity.
Qed.

Lemma combined_adjustment_pixel_witness :
  let out := combined_adjustment 2 (3 # 2) 0 (200, 40, 90) in
  is_pixel out ∧ fst (fst out) = snd (fst out) ∧ snd (fst out) = snd out.
Proof.
  intros out.
  destruct (combined_adjustment_pixel 2 (3 # 2) 0 (200, 40, 90))
    as (Hrange & _ & _ & Hgray & _).
  { unfold is_pixel. lia. }
  split; [exact Hrange|]. apply Hgray. reflexivity.
Defined.

End PixelFacts.

(** ** From the configuration to the final clip *)

Section PipelineFacts.

Import CanvasSizer Canvas Render RenderSteps Pipeline.

Ltac member :=
  repeat first [ apply list_elem_of_here | apply list_elem_of_further ].

(** The styling that the checks return satisfies what the later steps
    rely on. *)
Lemma resolve_styling_resolved (config : gmap string pyval) :
  styling_typed config →
  ∃ st, resolve_styling config = Ok st ∧ resolved st.
Proof.
  intros [Hnum Henum].
  assert (∀ key dflt, key ∈ ENUM_STYLING_KEYS →
                      hashable (dict_get config key (VStr dflt))) as Hhash.
  { intros key dflt Hkey. apply dict_get_typed; [|exact I].
    intros v. now apply Henum. }
  assert (∀ key dflt, key ∈ NUMERIC_STYLING_KEYS →
                      ∃ x, py_num (dict_get config key (VFloat dflt)) = Ok x)
    as Hnumber.
  { intros key dflt Hkey. apply py_num_number.
    apply dict_get_typed; [|exact I]. intros v. now apply Hnum. }
  destruct (py_member_spec FIT_MODES "crop"
              (dict_get config "fit_mode" (VStr "crop")))
    as (fit & Efit & Rfit & _);
    [apply Hhash; unfold ENUM_STYLING_KEYS; member
    |unfold FIT_MODES; member|].
  destruct (py_member_spec TRANSITIONS "fade"
              (dict_get config "transition_type" (VStr "fade")))
    as (tr & Etr & Rtr & _);
    [apply Hhash; unfold ENUM_STYLING_KEYS; member
    |unfold TRANSITIONS; member|].
  destruct (py_member_spec COLOR_FILTERS "none"
              (dict_get config "color_filter" (VStr "none")))
    as (cf & Ecf & _);
    [apply Hhash; unfold ENUM_STYLING_KEYS; member
    |unfold COLOR_FILTERS; member|].
  destruct (py_member_spec EFFECT_TYPES "none"
              (dict_get config "effect_type" (VStr "none")))
    as (fx & Efx & _);
    [apply Hhash; unfold ENUM_STYLING_KEYS; member
    |unfold EFFECT_TYPES; member|].
  destruct (Hnumber "transition_duration" TRANSITION_DURATION_DEFAULT)
    as (td & Etd); [unfold NUMERIC_STYLING_KEYS; member|].
  destruct (Hnumber "brightness" BRIGHTNESS_DEFAULT)
    as (br & Ebr); [unfold NUMERIC_STYLING_KEYS; member|].
  destruct (Hnumber "contrast" CONTRAST_DEFAULT)
    as (ct & Ect); [unfold NUMERIC_STYLING_KEYS; member|].
  destruct (Hnumber "saturation" SATURATION_DEFAULT)
    as (sa & Esa); [unfold NUMERIC_STYLING_KEYS; member|].
  unfold resolve_styling, clamp. cbv zeta.
  rewrite Efit, result_bind_Ok, Etr, result_bind_Ok, Etd, result_bind_Ok.
  assert (∃ effect,
            (if py_truthy (dict_get config "effect_type" (VStr "none"))
             then py_member (dict_get config "effect_type" (VStr "none"))
                    EFFECT_TYPES
                  ≫= λ effect_key,
                    Ok match effect_key with
                       | Some _ =>
                         dict_get config "effect_type" (VStr "none")
                       | None => VStr "none"
                       end
             else Ok (dict_get config "effect_type" (VStr "none")))
            = Ok effect) as [effect ->].
  { destruct (py_truthy _); [|eauto].
    rewrite Efx, result_bind_Ok. eauto. }
  rewrite result_bind_Ok, Ecf, result_bind_Ok.
  rewrite Ebr, !result_bind_Ok, Ect, !result_bind_Ok, Esa, !result_bind_Ok.
  eexists. split; [reflexivity|]. unfold resolved.
  cbn [st_fit_mode st_transition_type st_transition_duration].
  split; [exact (proj1 Rfit)|]. split; [exact (proj1 Rtr)|].
  exact (proj1 (checked_duration_spec td)).
Qed.

(** The planned total is at least one segment long. *)
Lemma plan_total_duration_positive (min_dur max_dur : Q)
    (media_files sentences : nat) (st : styling) :
  resolved st →
  (st_transition_duration st < (min_dur + max_dur) / 2)%Q →
  (0 < plan_total_duration
         (plan_timeline min_dur max_dur media_files sentences st))%Q.
Proof.
  intros (_ & _ & Hleast & _) Hlong. unfold plan_timeline.
  cbn [plan_total_duration].
  set (seg := ((min_dur + max_dur) / 2)%Q) in *.
  set (n := Nat.max (Nat.max media_files sentences) 1).
  set (d := st_transition_duration st) in *.
  assert (0 < d)%Q as Hd.
  { eapply Qlt_le_trans; [|exact Hleast]. reflexivity. }
  assert (0 <= inject_Z (Z.of_nat n - 1))%Q as Hn.
  { rewrite <- (Zle_Qle 0). subst n. lia. }
  assert (inject_Z (Z.of_nat n) == inject_Z (Z.of_nat n - 1) + 1)%Q as Hsucc.
  { replace (Z.of_nat n) with (Z.of_nat n - 1 + 1) at 1 by lia.
    rewrite inject_Z_plus. reflexivity. }
  assert (0 <= inject_Z (Z.of_nat n - 1) * (seg - d))%Q as Hgap
    by (apply Qmult_le_0_compat; lra).
  assert (0 <= inject_Z (Z.of_nat n - 1) * seg)%Q as Hall
    by (apply Qmult_le_0_compat; lra).
  assert (inject_Z (Z.of_nat n - 1) * (seg - d)
          == inject_Z (Z.of_nat n - 1) * seg
             - inject_Z (Z.of_nat n - 1) * d)%Q as Heq by ring.
  rewrite Heq in Hgap. rewrite Hsucc.
  destruct (_ && _); lra.
Qed.

(** X29. The render from head to tail. For a configuration whose values
    have the types of the request schema, a segment duration (the mean
    of the minimum and maximum clip durations) above 2 seconds, one
    loaded source per segment that, when the resolved fill mode is fit,
    fits inside the resolved canvas, and audio files that are not empty,
    the render succeeds whatever the values are: the final clip has the
    canvas size, two positive even numbers; its duration is the planned
    total and is not changed by the subtitles; the audio lasts as long as
    the video whenever there is a BGM, and there is no audio exactly when
    there is neither narration nor BGM. *)
Theorem create_video_from_config_consistent
    (config : gmap string pyval) (inputs : render_inputs)
    (min_dur max_dur : Q) :
  typed config →
  py_num (dict_get config "clip_min_duration" (VFloat 3)) = Ok min_dur →
  py_num (dict_get config "clip_max_duration" (VFloat 10)) = Ok max_dur →
  (2 < (min_dur + max_dur) / 2)%Q →
  loaded_inputs ((min_dur + max_dur) / 2)%Q inputs →
  (∀ size fps st,
     resolve_canvas config = Ok (size, fps) →
     resolve_styling config = Ok st →
     Forall (fits_canvas size (st_fit_mode st)) (in_sources inputs)) →
  ∃ out st,
    create_video_from_config config inputs = Ok out
    ∧ resolve_styling config = Ok st
    ∧ positive_even (fst (clip_size (out_video out)))
    ∧ positive_even (snd (clip_size (out_video out)))
    ∧ (clip_duration (out_video out)
       == plan_total_duration
            (plan_timeline min_dur max_dur (in_media_files inputs)
               (Nat.max (length (in_sentences inputs)) 1) st))%Q
    ∧ (out_audio out = None
       ↔ in_voice_audio inputs = None ∧ in_bgm_audio inputs = None)
    ∧ (∀ audio, in_bgm_audio inputs ≠ None → out_audio out = Some audio →
                (audio_duration audio == clip_duration (out_video out))%Q).
Proof.
  intros (Hstyling & Hcanvas & Hnumbers) Hmin Hmax Hseg
    (Hcount & Hloaded & Hvoice & Hbgm) Hfit.
  unfold create_video_from_config.
  destruct (resolve_canvas_result config Hcanvas)
    as (width & height & fps & Hcv & Hw & Hh).
  destruct (resolve_styling_resolved config Hstyling) as (st & Hst & Hres).
  specialize (Hfit (width, height) fps st Hcv Hst).
  rewrite Hcv, result_bind_Ok.
  rewrite Hst, result_bind_Ok, Hmin, result_bind_Ok, Hmax, result_bind_Ok.
  match goal with
  | |- context [plan_timeline _ _ _ (length ?l) _] => set (sentences := l)
  end.
  assert (length sentences = Nat.max (length (in_sentences inputs)) 1)
    as Hsentences.
  { subst sentences. destruct (in_sentences inputs); simpl; lia. }
  rewrite Hsentences.
  set (plan := plan_timeline min_dur max_dur (in_media_files inputs)
                 (Nat.max (length (in_sentences inputs)) 1) st).
  assert (plan_clip_duration plan = ((min_dur + max_dur) / 2)%Q) as Hclip
    by reflexivity.
  assert (Qle_bool (plan_clip_duration plan) 0 = false) as ->.
  { apply Qle_bool_false. rewrite Hclip. lra. }
  destruct (render_timeline_planned min_dur max_dur (in_media_files inputs)
              (Nat.max (length (in_sentences inputs)) 1) st
              (in_sources inputs) (width, height))
    as (timeline & Htimeline & Hsize & Hduration & Hfresh).
  - exact Hres.
  - exact (proj1 Hw).
  - exact (proj1 Hh).
  - rewrite Hcount. unfold plan_timeline. cbn [plan_num_clips]. lia.
  - exact Hloaded.
  - exact Hfit.
  - destruct Hres as (_ & _ & _ & Hmost).
    eapply Qle_lt_trans; [exact Hmost|]. exact Hseg.
  - fold plan in Htimeline, Hduration. rewrite Htimeline, result_bind_Ok.
    destruct (subtitle_stage_attributes (in_text_size inputs)
                (dict_get config "subtitle_enabled" (VBool true))
                sentences (in_sentence_subtitles inputs)
                (plan_num_clips plan) timeline Hfresh)
      as (video & -> & Hvsize & Hvdur & _).
    rewrite result_bind_Ok.
    destruct (audio_stage_result config (in_voice_audio inputs)
                (in_bgm_audio inputs) (clip_duration timeline))
      as (audio & -> & Hnone & Hsame).
    + intros key v Hkey. apply Hnumbers. apply elem_of_app. now left.
    + exact Hvoice.
    + exact Hbgm.
    + rewrite Hduration. apply Qlt_le_weak.
      apply plan_total_duration_positive; [exact Hres|].
      destruct Hres as (_ & _ & _ & Hmost).
      eapply Qle_lt_trans; [exact Hmost|]. exact Hseg.
    + rewrite result_bind_Ok. eexists _, st. split; [reflexivity|].
      cbn [out_video out_audio].
      split; [reflexivity|]. rewrite Hvsize, Hsize. cbn [fst snd].
      split; [exact Hw|]. split; [exact Hh|].
      split; [rewrite Hvdur; exact Hduration|].
      split; [exact Hnone|].
      intros a Hb Ha. rewrite Hvdur. now apply Hsame.
Qed.

Lemma create_video_from_config_consistent_witness :
  let config : gmap string pyval := {[ "effect_type" := VStr "sparkle" ]} in
  let inputs :=
    {| in_sentences := ["one"; "two"]; in_media_files := 0;
       in_sources := [NoMedia; NoMedia];
       in_voice_audio := None;
       in_bgm_audio := Some {| audio_duration := 5; audio_gain := 1 |};
       in_sentence_subtitles := [];
       in_text_size := λ _, (980, 60) |} in
  ∃ out,
    create_video_from_config config inputs = Ok out
    ∧ positive_even (fst (clip_size (out_video out)))
    ∧ positive_even (snd (clip_size (out_video out)))
    ∧ (∀ audio, out_audio out = Some audio →
                (audio_duration audio == clip_duration (out_video out))%Q).
Proof.
  intros config inputs.
  assert (∀ key v, config !! key = Some v → v = VStr "sparkle") as Hconfig.
  { intros key v Hv. subst config.
    destruct (decide (key = "effect_type")) as [->|Hne].
    - rewrite lookup_singleton in Hv. now injection Hv as <-.
    - rewrite lookup_singleton_ne in Hv by congruence. discriminate. }
  assert (∀ key v, key ≠ "effect_type" → config !! key = Some v → False)
    as Habsent.
  { intros key v Hne Hv. subst config.
    rewrite lookup_singleton_ne in Hv by congruence. discriminate. }
  destruct (create_video_from_config_consistent config inputs 3 10)
    as (out & st & Hrun & _ & Hw & Hh & _ & _ & Haudio).
  - split; [split|split].
    + intros key v Hkey Hv. exfalso. apply (Habsent key v); [|exact Hv].
      intros ->. unfold NUMERIC_STYLING_KEYS in Hkey.
      repeat (apply elem_of_cons in Hkey as [Hkey | Hkey];
              [discriminate|]).
      now apply elem_of_nil in Hkey.
    + intros key v _ Hv. now rewrite (Hconfig key v Hv).
    + intros key v _ Hv. now rewrite (Hconfig key v Hv).
    + intros key v Hkey Hv. exfalso. apply (Habsent key v); [|exact Hv].
      intros ->. unfold BGM_KEYS, CLIP_KEYS in Hkey. simpl in Hkey.
      repeat (apply elem_of_cons in Hkey as [Hkey | Hkey];
              [discriminate|]).
      now apply elem_of_nil in Hkey.
  - reflexivity.
  - reflexivity.
  - unfold Qlt; simpl; lia.
  - split; [reflexivity|]. split; [repeat constructor|].
    split; [discriminate|].
    intros a [= <-]. unfold Qlt; simpl; lia.
  - intros size fps st' _ _. repeat constructor.
  - exists out. split; [exact Hrun|]. split; [exact Hw|]. split; [exact Hh|].
    intros audio. apply Haudio. discriminate.
Defined.

End PipelineFacts.
